(** * License keys: verification, device binding and credit-debited issuance

    A shallow embedding of the route handlers of the key server
    (registerRoutes): the two verification entry points, the reseller's
    key generation, the key-string generator and the admin key deletion.
    The handlers are written as functions that take the store and return
    the response together with the store they leave behind. *)

From Stdlib Require Import ZArith QArith Qround List String Ascii Bool Lia Lqa.
Import ListNotations.

Local Open Scope string_scope.
Local Open Scope list_scope.
Local Open Scope Z_scope.

(** ** Data model *)

(** Timestamps (Date values) are milliseconds since the epoch. *)
Definition Time := Z.

Record Key := mkKey {
  key_id : Z;
  keyString : string;
  game : string;
  resellerId : Z;
  deviceLimit : Z;
  createdAt : Time;
  expiryDate : Time;
  isRevoked : bool
}.

Record Device := mkDevice {
  device_id : Z;
  keyId : Z;
  deviceId : string
}.

(** A number of the handlers is the value it stands for: a rational
    (the rounding of 64-bit floats is left out, as the bounds of the
    integers are), NaN, or one of the two infinities. *)
Inductive Number :=
| Num (q : Q)
| NaN
| PosInfinity
| NegInfinity.

Definition numOfZ (z : Z) : Number := Num (inject_Z z).

(** [a < b] *)
Definition numLt (a b : Number) : bool :=
  match a, b with
  | Num x, Num y => negb (Qle_bool y x)
  | Num _, PosInfinity => true
  | NegInfinity, Num _ => true
  | NegInfinity, PosInfinity => true
  | _, _ => false
  end.

(** [a <= b] *)
Definition numLe (a b : Number) : bool :=
  match a, b with
  | Num x, Num y => Qle_bool x y
  | Num _, PosInfinity => true
  | NegInfinity, Num _ => true
  | NegInfinity, PosInfinity => true
  | PosInfinity, PosInfinity => true
  | NegInfinity, NegInfinity => true
  | _, _ => false
  end.

(** [-a] *)
Definition numNeg (a : Number) : Number :=
  match a with
  | Num x => Num (Qopp x)
  | NaN => NaN
  | PosInfinity => NegInfinity
  | NegInfinity => PosInfinity
  end.

(** [a + b] *)
Definition numAdd (a b : Number) : Number :=
  match a, b with
  | Num x, Num y => Num (Qplus x y)
  | NaN, _ => NaN
  | _, NaN => NaN
  | PosInfinity, NegInfinity => NaN
  | NegInfinity, PosInfinity => NaN
  | PosInfinity, _ => PosInfinity
  | _, PosInfinity => PosInfinity
  | NegInfinity, _ => NegInfinity
  | _, NegInfinity => NegInfinity
  end.

(** [a - b], which is [a + (-b)] for every two numbers. *)
Definition numSub (a b : Number) : Number := numAdd a (numNeg b).

(** Truthiness of a number: every number but zero and NaN. *)
Definition truthyNumber (a : Number) : bool :=
  match a with
  | Num x => negb (Qeq_bool x 0)
  | NaN => false
  | PosInfinity => true
  | NegInfinity => true
  end.

Record Reseller := mkReseller {
  reseller_id : Z;
  username : string;
  credits : Number;
  isActive : bool
}.

(** The tables of the storage object, in insertion order, with the
    counters from which fresh identifiers are drawn. *)
Record Store := mkStore {
  keys : list Key;
  devices : list Device;
  resellers : list Reseller;
  nextKeyId : Z;
  nextDeviceId : Z
}.

(** What a handler passes to [storage.createKey]:
    [{...keyData, keyString, resellerId}]. *)
Record InsertKey := mkInsertKey {
  ik_keyString : string;
  ik_game : string;
  ik_resellerId : Z;
  ik_deviceLimit : Z;
  ik_expiryDate : Time
}.

(** ** Storage

    The handlers import [storage] from a module that is not part of the
    sources at hand; its operations are given here as the boundary
    operations of the persistence collaborator. *)

(** Modelled from the spec: storage.getKey is absent; it is
    findKeyByString(s) -> Key | none. *)
Definition getKey (s : Store) (ks : string) : option Key :=
  find (fun k => String.eqb (keyString k) ks) (keys s).

(** Modelled from the spec: storage.getDevicesByKeyId is absent; it is
    listDevicesForKey(keyId), the devices of the key in registration
    order. *)
Definition getDevicesByKeyId (s : Store) (kid : Z) : list Device :=
  filter (fun d => keyId d =? kid) (devices s).

(** Modelled from the spec: storage.addDevice is absent; it is
    insertDevice(keyId, deviceId) -> Device | DuplicateDevice, which fails
    when the pair already exists. A failure is a thrown error, given by
    its message. *)
Definition addDevice (s : Store) (kid : Z) (did : string)
  : string + (Device * Store) :=
  if existsb (fun d => (keyId d =? kid) && String.eqb (deviceId d) did)
             (devices s)
  then inl "DuplicateDevice"
  else
    let d := mkDevice (nextDeviceId s) kid did in
    inr (d, mkStore (keys s) (devices s ++ [d])%list (resellers s)
                    (nextKeyId s) (nextDeviceId s + 1)).

(** The store [addDevice] leaves when it succeeds. *)
Definition withDevice (s : Store) (kid : Z) (did : string) : Store :=
  mkStore (keys s)
          (devices s ++ [mkDevice (nextDeviceId s) kid did])
          (resellers s) (nextKeyId s) (nextDeviceId s + 1).

(** Modelled from the spec: storage.revokeKey is absent; it is
    setKeyRevoked(keyId) -> Key | none: it sets revoked=true
    unconditionally and does not remove bound devices. *)
Definition setRevoked (k : Key) : Key :=
  mkKey (key_id k) (keyString k) (game k) (resellerId k) (deviceLimit k)
        (createdAt k) (expiryDate k) true.

Definition revokeKey (s : Store) (id : Z) : option Key * Store :=
  match find (fun k => key_id k =? id) (keys s) with
  | None => (None, s)
  | Some k =>
      (Some (setRevoked k),
       mkStore (map (fun k' => if key_id k' =? id then setRevoked k' else k')
                    (keys s))
               (devices s) (resellers s) (nextKeyId s) (nextDeviceId s))
  end.

(** Modelled from the spec: storage.getReseller is absent; it is
    findReseller(id) -> Reseller | none. *)
Definition getReseller (s : Store) (id : Z) : option Reseller :=
  find (fun r => reseller_id r =? id) (resellers s).

(** Modelled from the spec: storage.updateResellerCredits is absent; it is
    adjust(resellerId, delta) -> Reseller, a pure arithmetic primitive
    with no lower bound, failing with ResellerNotFound if absent. *)
Definition addCredits (delta : Number) (r : Reseller) : Reseller :=
  mkReseller (reseller_id r) (username r) (numAdd (credits r) delta)
             (isActive r).

Definition updateResellerCredits (s : Store) (id : Z) (delta : Number)
  : string + (Reseller * Store) :=
  match getReseller s id with
  | None => inl "ResellerNotFound"
  | Some r =>
      inr (addCredits delta r,
           mkStore (keys s) (devices s)
                   (map (fun r' => if reseller_id r' =? id
                                   then addCredits delta r' else r')
                        (resellers s))
                   (nextKeyId s) (nextDeviceId s))
  end.

(** Modelled from the spec: storage.createKey is absent; it is
    insertKey(Key) -> Key: a new record with a fresh identifier, the
    creation timestamp and revoked=false. *)
Definition createKey (s : Store) (now : Time) (ik : InsertKey)
  : Key * Store :=
  let k := mkKey (nextKeyId s) (ik_keyString ik) (ik_game ik)
                 (ik_resellerId ik) (ik_deviceLimit ik) now
                 (ik_expiryDate ik) false in
  (k, mkStore (keys s ++ [k])%list (devices s) (resellers s)
              (nextKeyId s + 1) (nextDeviceId s)).

(** ** Verification *)

(** The JSON body of a verification answer; [status] is the HTTP status
    ([res.json] alone answers 200). Absent fields are [None]. *)
Record VerifyResponse := mkVerifyResponse {
  status : Z;
  valid : bool;
  message : string;
  expiry : option Time;
  resp_deviceLimit : option Z;
  currentDevices : option Z;
  canRegister : option bool
}.

(** The fields a verification request carries once parsed. *)
Record VerifyRequest := mkVerifyRequest {
  vr_key : string;
  vr_deviceId : string;
  vr_game : string
}.

Definition invalidVerdict (msg : string) : VerifyResponse :=
  mkVerifyResponse 200 false msg None None None None.

Definition expiredVerdict (k : Key) : VerifyResponse :=
  mkVerifyResponse 200 false "License key has expired"
                   (Some (expiryDate k)) None None None.

Definition validVerdict (k : Key) (n : Z) : VerifyResponse :=
  mkVerifyResponse 200 true "License valid"
                   (Some (expiryDate k)) (Some (deviceLimit k)) (Some n) None.

Definition limitVerdict (k : Key) (n : Z) : VerifyResponse :=
  mkVerifyResponse 200 false "Device limit reached for this license key"
                   (Some (expiryDate k)) (Some (deviceLimit k)) (Some n) None.

Definition canRegisterVerdict (k : Key) (n : Z) : VerifyResponse :=
  mkVerifyResponse 200 true "License valid, device can be registered"
                   (Some (expiryDate k)) (Some (deviceLimit k)) (Some n)
                   (Some true).

Definition badRequest (msg : string) : VerifyResponse :=
  mkVerifyResponse 400 false msg None None None None.

(** [devices.some(d => d.deviceId === deviceId)] *)
Definition deviceExists (devs : list Device) (did : string) : bool :=
  existsb (fun d => String.eqb (deviceId d) did) devs.

(** The game list written out in the GET handler. *)
Definition supportedGames : list string :=
  ["PUBG MOBILE"; "LAST ISLAND OF SURVIVAL"; "STANDOFF2"].

Definition includes (l : list string) (x : string) : bool :=
  existsb (String.eqb x) l.

(** Falsiness of a JS string: only the empty string. *)
Definition emptyStr (x : string) : bool := String.eqb x "".

Section Routes.

(** [keyVerificationSchema] belongs to the shared schema module, which is
    not among the sources: its [parse] is a parameter, from the raw body
    to either the message of the error it throws or the parsed fields. *)
Variable Body : Type.
Variable keyVerificationSchema : Body -> string + VerifyRequest.

(** POST /api/verify *)
Definition postVerify (s : Store) (now : Time) (body : Body)
  : VerifyResponse * Store :=
  match keyVerificationSchema body with
  | inl err => (badRequest err, s)
  | inr req =>
    match getKey s (vr_key req) with
    | None => (invalidVerdict "Invalid license key", s)
    | Some key =>
      if negb (String.eqb (game key) (vr_game req)) then
        (invalidVerdict "License key is not valid for this game", s)
      else if isRevoked key then
        (invalidVerdict "License key has been revoked", s)
      else if expiryDate key <=? now then
        (expiredVerdict key, s)
      else
        let devs := getDevicesByKeyId s (key_id key) in
        if deviceExists devs (vr_deviceId req) then
          (validVerdict key (Z.of_nat (List.length devs)), s)
        else if Z.of_nat (List.length devs) >=? deviceLimit key then
          (limitVerdict key (Z.of_nat (List.length devs)), s)
        else
          match addDevice s (key_id key) (vr_deviceId req) with
          | inl err => (badRequest err, s)
          | inr (_, s') =>
              (validVerdict key (Z.of_nat (List.length devs) + 1), s')
          end
    end
  end.

(** GET /api/verify/:key/:game/:deviceId *)
Definition getVerify (s : Store) (now : Time)
                     (keyStr gameStr devStr : string)
  : VerifyResponse * Store :=
  if emptyStr keyStr || emptyStr gameStr || emptyStr devStr then
    (badRequest
       "Missing required parameters. Need key, game, and deviceId.", s)
  else if negb (includes supportedGames gameStr) then
    (badRequest
       "Invalid game. Must be one of: PUBG MOBILE, LAST ISLAND OF SURVIVAL, STANDOFF2",
     s)
  else
    match getKey s keyStr with
    | None => (invalidVerdict "Invalid license key", s)
    | Some key =>
      if negb (String.eqb (game key) gameStr) then
        (invalidVerdict "License key is not valid for this game", s)
      else if isRevoked key then
        (invalidVerdict "License key has been revoked", s)
      else if expiryDate key <=? now then
        (expiredVerdict key, s)
      else
        let devs := getDevicesByKeyId s (key_id key) in
        if deviceExists devs devStr then
          (validVerdict key (Z.of_nat (List.length devs)), s)
        else if Z.of_nat (List.length devs) >=? deviceLimit key then
          (limitVerdict key (Z.of_nat (List.length devs)), s)
        else
          (canRegisterVerdict key (Z.of_nat (List.length devs)), s)
    end.

(** ** Key strings *)

(** [String.prototype.toUpperCase] on the ASCII range. *)
Definition toUpperChar (c : ascii) : ascii :=
  let n := nat_of_ascii c in
  if ((97 <=? n) && (n <=? 122))%nat then ascii_of_nat (n - 32) else c.

Fixpoint toUpperCase (x : string) : string :=
  match x with
  | EmptyString => EmptyString
  | String c x' => String (toUpperChar c) (toUpperCase x')
  end.

Definition charBetween (lo hi : nat) (c : ascii) : bool :=
  let n := nat_of_ascii c in ((lo <=? n) && (n <=? hi))%nat.

(** Uppercase letters and digits. *)
Definition isUpperAlnum (c : ascii) : bool :=
  charBetween 65 90 c || charBetween 48 57 c.

(** The alphabet of [nanoid]: A-Z, a-z, 0-9, underscore and hyphen. *)
Definition isUrlSafe (c : ascii) : bool :=
  charBetween 65 90 c || charBetween 97 122 c || charBetween 48 57 c
  || Ascii.eqb c "_" || Ascii.eqb c "-".

(** What is left of that alphabet after upper-casing. *)
Definition isSegmentChar (c : ascii) : bool :=
  isUpperAlnum c || Ascii.eqb c "_" || Ascii.eqb c "-".

Fixpoint allChars (p : ascii -> bool) (x : string) : bool :=
  match x with
  | EmptyString => true
  | String c x' => p c && allChars p x'
  end.

(** A result of [nanoid(5)]: five characters of its alphabet. *)
Definition nanoid5 (x : string) : Prop :=
  String.length x = 5%nat /\ allChars isUrlSafe x = true.

(** A key string in the format of the key generator: the prefix, then
    three segments of five characters of the class [p], each introduced
    by a hyphen. *)
Definition keyFormat (p : ascii -> bool) (prefix k : string) : Prop :=
  exists s1 s2 s3 : string,
    k = (prefix ++ "-" ++ s1 ++ "-" ++ s2 ++ "-" ++ s3)%string /\
    (String.length s1 = 5 /\ String.length s2 = 5
     /\ String.length s3 = 5)%nat /\
    allChars p s1 = true /\ allChars p s2 = true /\ allChars p s3 = true.

(** [nanoid] is a library function that draws random characters; the
    strings it returns, in the order of the calls, are a parameter. *)
Variable nanoid : nat -> string.

Definition gamePrefix (gameStr : string) : string :=
  if String.eqb gameStr "PUBG MOBILE" then "PBGM"
  else if String.eqb gameStr "LAST ISLAND OF SURVIVAL" then "LIOS"
  else if String.eqb gameStr "STANDOFF2" then "STDF"
  else "".

(** The three upper-cased segments drawn from call number [c] on. *)
Definition segmentsAt (c : nat) : list string :=
  [toUpperCase (nanoid c); toUpperCase (nanoid (c + 1));
   toUpperCase (nanoid (c + 2))].

(** generateKeyString, with the number of [nanoid] calls made so far as
    the state of the random source. *)
Definition generateKeyString (gameStr : string) (c : nat) : string * nat :=
  let prefix := gamePrefix gameStr in
  let segments := segmentsAt c in
  ((prefix ++ "-" ++ String.concat "-" segments)%string, (c + 3)%nat).

(** ** Issuance *)

(** The fields of [insertKeySchema.parse(formData)] the handler reads. *)
Record KeyData := mkKeyData {
  kd_keyString : option string;
  kd_game : string;
  kd_deviceLimit : Z;
  kd_expiryDate : Time
}.

(** The answer of the generation route: an error status with a message,
    or 201 with the created keys and the remaining credits; or none,
    when the run does not come to an end. *)
Inductive GenerateResponse :=
| GenError (st : Z) (msg : string)
| GenCreated (created : list Key) (remainingCredits : Number)
| GenNoAnswer.

Definition createdKeys (r : GenerateResponse) : list Key :=
  match r with
  | GenError _ _ => []
  | GenCreated created _ => created
  | GenNoAnswer => []
  end.

(** The storage calls of the generation route. *)
Inductive StorageCall :=
| CallGetKey (ks : string)
| CallGetReseller (id : Z)
| CallCreateKey (ik : InsertKey)
| CallUpdateResellerCredits (id : Z) (delta : Number).

(** [req.body.count] as the handler meets it. The handler reads it from
    the raw body and validates nothing: it is a number, or a value of
    another kind (a string, a boolean, an array, an object, null, or
    nothing at all), of which the handler sees whether it is truthy and,
    in [<], unary [-] and binary [-], the number it converts to. *)
Inductive Count :=
| CountNumber (x : Number)
| CountOther (truthy : bool) (toNumber : Number).

(** The request body is a parameter with the [count] it carries;
    [insertKeySchema] (with the expiry date the handler puts into the
    form data before parsing) and [gameEnum] belong to the absent schema
    module and are parameters too. *)
Variable GenerateBody : Type.
Variable body_count : GenerateBody -> Count.
Variable insertKeySchema : Time -> GenerateBody -> string + KeyData.
Variable gameEnum : string -> bool.

(** Modelled from the spec: the storage module is absent; a store or
    transient error of a call (persistence unavailable) is propagated to
    the caller as a failure. [storageFault c s] is the message of the
    error call [c] throws on store [s], if it throws. *)
Variable storageFault : StorageCall -> Store -> option string.

(** State of a run of the handler: the store and the number of [nanoid]
    calls made. *)
Record RunState := mkRunState {
  rs_store : Store;
  rs_rand : nat
}.

(** A step of the handler yields a value, answers the request
    ([return res...json(...)]) or throws; the state it reached stays. *)
Inductive Outcome (A : Type) :=
| Value (a : A)
| Respond (r : GenerateResponse)
| Throw (msg : string).
Arguments Value {A} a.
Arguments Respond {A} r.
Arguments Throw {A} msg.

Definition Handler (A : Type) := RunState -> Outcome A * RunState.

Definition ret {A} (a : A) : Handler A := fun st => (Value a, st).

Definition bind {A B} (m : Handler A) (k : A -> Handler B) : Handler B :=
  fun st =>
    match m st with
    | (Value a, st') => k a st'
    | (Respond r, st') => (Respond r, st')
    | (Throw e, st') => (Throw e, st')
    end.

Notation "x <- m ;; k" := (bind m (fun x => k))
  (at level 61, m at next level, right associativity).

Definition respond {A} (r : GenerateResponse) : Handler A :=
  fun st => (Respond r, st).

Definition throw {A} (e : string) : Handler A := fun st => (Throw e, st).

(** A storage call: the fault of the call, or its effect on the store. *)
Definition storage {A} (c : StorageCall) (op : Store -> string + (A * Store))
  : Handler A :=
  fun st =>
    match storageFault c (rs_store st) with
    | Some e => (Throw e, st)
    | None =>
        match op (rs_store st) with
        | inl e => (Throw e, st)
        | inr (a, s') => (Value a, mkRunState s' (rs_rand st))
        end
    end.

Definition generateKeyStringM (gameStr : string) : Handler string :=
  fun st =>
    let (k, c') := generateKeyString gameStr (rs_rand st) in
    (Value k, mkRunState (rs_store st) c').

(** A key string of the parsed data that is present and not empty. *)
Definition customKeyString (kd : KeyData) : option string :=
  match kd_keyString kd with
  | Some ks => if emptyStr ks then None else Some ks
  | None => None
  end.

(** [req.body.count || 1], as the number it is used as. *)
Definition requestedCount (body : GenerateBody) : Number :=
  match body_count body with
  | CountNumber x => if truthyNumber x then x else numOfZ 1
  | CountOther true x => x
  | CountOther false _ => numOfZ 1
  end.

(** How often [for (let i = 0; i < count; i++)] runs its body: the
    number of the indices 0, 1, 2, ... that are below [count], or
    [None] when all of them are. *)
Definition iterations (count : Number) : option nat :=
  match count with
  | Num q => Some (Z.to_nat (Qceiling q))
  | NaN => Some 0%nat
  | PosInfinity => None
  | NegInfinity => Some 0%nat
  end.

(** A loop whose test never fails does not end, unless the store throws:
    [patience] is the number of its iterations that are followed, after
    which the run is left without an answer. *)
Variable patience : nat.

(** The body of [for (let i = 0; i < count; i++)], for the [n]
    iterations that remain from index [i]. *)
Fixpoint generateLoop (now : Time) (userId : Z) (kd : KeyData)
    (n : nat) (i : Z) (generatedKeys : list Key) : Handler (list Key) :=
  match n with
  | O => ret generatedKeys
  | S n' =>
      ks <- match customKeyString kd with
            | Some custom => ret custom
            | None => generateKeyStringM (kd_game kd)
            end ;;
      ks' <- (if i =? 0 then ret ks else generateKeyStringM (kd_game kd)) ;;
      let ik := mkInsertKey ks' (kd_game kd) userId (kd_deviceLimit kd)
                            (kd_expiryDate kd) in
      key <- storage (CallCreateKey ik)
                     (fun s => inr (createKey s now ik)) ;;
      generateLoop now userId kd n' (i + 1) (generatedKeys ++ [key])
  end.

(** The key strings the loop gives to [n] keys from the state [c] of
    the random source; [first] tells whether the first of them is made
    at index 0. Without a custom key string every iteration after the
    first calls the generator twice and keeps the second string. *)
Definition loopKeyStrings (custom : option string) (gameStr : string)
    (first : bool) (c n : nat) : list string :=
  match custom with
  | None =>
      map (fun j => fst (generateKeyString gameStr
                           (c + (if first then 0 else 3) + 6 * j)%nat))
          (seq 0 n)
  | Some cs =>
      if first then
        match n with
        | O => []
        | S n' =>
            cs :: map (fun j => fst (generateKeyString gameStr
                                       (c + 3 * j)%nat))
                      (seq 0 n')
        end
      else
        map (fun j => fst (generateKeyString gameStr (c + 3 * j)%nat))
            (seq 0 n)
  end.

(** [if (keyData.keyString) { ... }]: a custom key string that the
    store already holds is refused. *)
Definition checkCustomKey (keyData : KeyData) : Handler unit :=
  match customKeyString keyData with
  | Some custom =>
      existingKey <- storage (CallGetKey custom)
                       (fun s => inr (getKey s custom, s)) ;;
      match existingKey with
      | Some _ => respond (GenError 400 "This key already exists")
      | None => ret tt
      end
  | None => ret tt
  end.

(** The [try] block of POST /api/reseller/keys/generate for the
    authenticated reseller [userId]. The copy of the keys written to the
    reseller's JSON file afterwards is outside the store and the
    response, and its errors are caught on the spot. *)
Definition generateTry (now : Time) (userId : Z) (body : GenerateBody)
  : Handler GenerateResponse :=
  match insertKeySchema now body with
  | inl e => throw e
  | inr keyData =>
    if negb (gameEnum (kd_game keyData)) then
      respond (GenError 400 "Invalid game selection")
    else
      _ <- checkCustomKey keyData ;;
      reseller <- storage (CallGetReseller userId)
                    (fun s => inr (getReseller s userId, s)) ;;
      match reseller with
      | None => respond (GenError 404 "Reseller not found")
      | Some reseller =>
          let count := requestedCount body in
          if numLt (credits reseller) count then
            respond (GenError 400 "Insufficient credits")
          else
            match iterations count with
            | Some n =>
                generatedKeys <- generateLoop now userId keyData n 0 [] ;;
                _ <- storage (CallUpdateResellerCredits userId (numNeg count))
                       (fun s =>
                          updateResellerCredits s userId (numNeg count)) ;;
                ret (GenCreated generatedKeys
                                (numSub (credits reseller) count))
            | None =>
                _ <- generateLoop now userId keyData patience 0 [] ;;
                respond GenNoAnswer
            end
      end
  end.

(** POST /api/reseller/keys/generate: the [try] block with its [catch],
    which answers 400 with the message of the error. *)
Definition postKeysGenerate (s : Store) (c : nat) (now : Time) (userId : Z)
    (body : GenerateBody) : GenerateResponse * RunState :=
  match generateTry now userId body (mkRunState s c) with
  | (Value r, st) => (r, st)
  | (Respond r, st) => (r, st)
  | (Throw e, st) => (GenError 400 e, st)
  end.

(** ** Administration *)

Inductive DeleteResponse :=
| DelError (st : Z) (msg : string)
| DelDone (msg : string) (k : Key).

(** DELETE /api/admin/keys/:id for an authenticated admin; [idParam] is
    [parseInt(req.params.id)], [None] standing for NaN. *)
Definition deleteAdminKey (s : Store) (idParam : option Z)
  : DeleteResponse * Store :=
  match idParam with
  | None => (DelError 400 "Invalid key ID", s)
  | Some id =>
      match revokeKey s id with
      | (None, s') => (DelError 404 "Key not found", s')
      | (Some revokedKey, s') =>
          (DelDone "Key revoked successfully" revokedKey, s')
      end
  end.

(** ** The verification state machine, as specified

    The states of an evaluation in their order of precedence; the first
    whose condition holds is the state of the request. *)
Inductive VerifyState :=
| KeyAbsent
| WrongGame (k : Key)
| KeyRevoked (k : Key)
| KeyExpired (k : Key)
| DeviceBound (k : Key) (n : Z)
| LimitReached (k : Key) (n : Z)
| Registrable (k : Key) (n : Z).

Definition specState (s : Store) (now : Time) (req : VerifyRequest)
  : VerifyState :=
  match getKey s (vr_key req) with
  | None => KeyAbsent
  | Some k =>
      let devs := getDevicesByKeyId s (key_id k) in
      let n := Z.of_nat (List.length devs) in
      if negb (String.eqb (game k) (vr_game req)) then WrongGame k
      else if isRevoked k then KeyRevoked k
      else if expiryDate k <=? now then KeyExpired k
      else if deviceExists devs (vr_deviceId req) then DeviceBound k n
      else if deviceLimit k <=? n then LimitReached k n
      else Registrable k n
  end.

(** ** Sequences of requests *)

(** The requests served by the routes above. *)
Inductive Request :=
| ReqPostVerify (now : Time) (body : Body)
| ReqGetVerify (now : Time) (keyStr gameStr devStr : string)
| ReqGenerate (now : Time) (userId : Z) (body : GenerateBody)
| ReqDeleteKey (idParam : option Z).

(** Serving a request, one at a time, from the store and the state of
    the random source. *)
Definition serve (st : RunState) (r : Request) : RunState :=
  match r with
  | ReqPostVerify now body =>
      mkRunState (snd (postVerify (rs_store st) now body)) (rs_rand st)
  | ReqGetVerify now k g d =>
      mkRunState (snd (getVerify (rs_store st) now k g d)) (rs_rand st)
  | ReqGenerate now userId body =>
      snd (postKeysGenerate (rs_store st) (rs_rand st) now userId body)
  | ReqDeleteKey idParam =>
      mkRunState (snd (deleteAdminKey (rs_store st) idParam)) (rs_rand st)
  end.

Definition serveAll (st : RunState) (rs : list Request) : RunState :=
  fold_left serve rs st.

(** ** Overlapping runs of POST /api/verify

    The handler awaits the store three times (getKey, getDevicesByKeyId,
    addDevice), and takes no lock. A step of a run is one storage call
    taking effect together with the code that follows it up to the next
    await; between two steps of a run, other runs may take theirs. *)

(** A run of the handler: where it stands and what it holds. *)
Inductive VerifyRun :=
| Arrived (now : Time) (body : Body)
| AwaitsDevices (req : VerifyRequest) (key : Key)
| AwaitsAddDevice (req : VerifyRequest) (key : Key) (devs : list Device)
| Answered (r : VerifyResponse).

Definition stepVerify (s : Store) (run : VerifyRun) : VerifyRun * Store :=
  match run with
  | Arrived now body =>
      match keyVerificationSchema body with
      | inl err => (Answered (badRequest err), s)
      | inr req =>
        match getKey s (vr_key req) with
        | None => (Answered (invalidVerdict "Invalid license key"), s)
        | Some key =>
          if negb (String.eqb (game key) (vr_game req)) then
            (Answered
               (invalidVerdict "License key is not valid for this game"), s)
          else if isRevoked key then
            (Answered (invalidVerdict "License key has been revoked"), s)
          else if expiryDate key <=? now then
            (Answered (expiredVerdict key), s)
          else (AwaitsDevices req key, s)
        end
      end
  | AwaitsDevices req key =>
      let devs := getDevicesByKeyId s (key_id key) in
      if deviceExists devs (vr_deviceId req) then
        (Answered (validVerdict key (Z.of_nat (List.length devs))), s)
      else if Z.of_nat (List.length devs) >=? deviceLimit key then
        (Answered (limitVerdict key (Z.of_nat (List.length devs))), s)
      else (AwaitsAddDevice req key devs, s)
  | AwaitsAddDevice req key devs =>
      match addDevice s (key_id key) (vr_deviceId req) with
      | inl err => (Answered (badRequest err), s)
      | inr (_, s') =>
          (Answered (validVerdict key (Z.of_nat (List.length devs) + 1)), s')
      end
  | Answered r => (Answered r, s)
  end.

(** The runs in flight, and the step of the run at position [i]. *)
Fixpoint stepAt (i : nat) (runs : list VerifyRun) (s : Store)
  : list VerifyRun * Store :=
  match runs, i with
  | [], _ => ([], s)
  | run :: rest, O =>
      let (run', s') := stepVerify s run in (run' :: rest, s')
  | run :: rest, S j =>
      let (rest', s') := stepAt j rest s in (run :: rest', s')
  end.

(** A schedule names, step after step, the run that moves. *)
Definition schedule (s : Store) (runs : list VerifyRun) (order : list nat)
  : list VerifyRun * Store :=
  fold_left (fun st i => stepAt i (fst st) (snd st)) order (runs, s).

(** The schedule of [n] runs that do not overlap: each run takes its
    three steps before the next one starts. *)
Definition oneByOne (first n : nat) : list nat :=
  flat_map (fun i => [i; i; i]) (seq first n).

Definition arrivals (calls : list (Time * Body)) : list VerifyRun :=
  map (fun c => Arrived (fst c) (snd c)) calls.

(** The calls served by the handler one after the other. *)
Fixpoint verifyInTurn (s : Store) (calls : list (Time * Body))
  : list VerifyResponse * Store :=
  match calls with
  | [] => ([], s)
  | c :: rest =>
      let (r, s1) := postVerify s (fst c) (snd c) in
      let (rs, s2) := verifyInTurn s1 rest in
      (r :: rs, s2)
  end.

(** ** Sample data *)

Definition sampleKey : Key :=
  mkKey 1 "STDF-AAAAA-BBBBB-CCCCC" "STANDOFF2" 7 2 0 1000 false.

Definition sampleRevokedKey : Key :=
  mkKey 2 "PBGM-DDDDD-EEEEE-FFFFF" "PUBG MOBILE" 7 1 0 1000 true.

Definition sampleDevice : Device := mkDevice 1 1 "phone-a".

Definition sampleRevokedDevice : Device := mkDevice 2 2 "phone-b".

Definition sampleReseller : Reseller :=
  mkReseller 7 "dealer" (numOfZ 5) true.

Definition sampleStore : Store :=
  mkStore [sampleKey; sampleRevokedKey] [sampleDevice; sampleRevokedDevice]
          [sampleReseller] 3 3.

(** A verification schema that takes the request as it is. *)
Definition plainSchema (req : VerifyRequest) : string + VerifyRequest :=
  inr req.

(** A generation request given by its parsed data and its count; a
    count that is an integer, a body without a count, and the string
    "abc" as a count. *)
Definition SampleBody : Type := (KeyData * Count)%type.

Definition sampleCount (b : SampleBody) : Count := snd b.

Definition countOf (n : Z) : Count := CountNumber (numOfZ n).

Definition noCount : Count := CountOther false NaN.

Definition countAbc : Count := CountOther true NaN.

(** The iterations followed of a loop that does not end. *)
Definition samplePatience : nat := 4.

Definition sampleInsertSchema (now : Time) (b : SampleBody)
  : string + KeyData := inr (fst b).

Definition sampleGameEnum (g : string) : bool := includes supportedGames g.

(** A store that answers every call. *)
Definition noFault (call : StorageCall) (s : Store) : option string := None.

(** A store that fails when the key with identifier 4 is to be
    created. *)
Definition failingAtKey4 (call : StorageCall) (s : Store) : option string :=
  match call with
  | CallCreateKey _ => if nextKeyId s =? 4 then Some "store unavailable"
                       else None
  | _ => None
  end.

(** Draws of the random source: one that repeats itself, and one that
    changes after three draws. *)
Definition repeatingNanoid (m : nat) : string := "ab_-c".

Definition changingNanoid (m : nat) : string :=
  if (m <? 3)%nat then "ab_-c" else "Zz09x".

Definition standoffData (custom : option string) : KeyData :=
  mkKeyData custom "STANDOFF2" 2 1000.

(** ** Listings and statuses *)

(** The answer of a route that either sends a body or an error status
    with a message. *)
Inductive Answer (A : Type) :=
| Sent (a : A)
| Refused (st : Z) (msg : string).
Arguments Sent {A} a.
Arguments Refused {A} st msg.

(** Modelled from the spec: storage.getKeysByResellerId is absent; it is
    the keys whose owning reseller id is the given one, in the order of
    the key table. *)
Definition getKeysByResellerId (s : Store) (rid : Z) : list Key :=
  filter (fun k => resellerId k =? rid) (keys s).

(** [key.isRevoked ? "REVOKED" :
     (new Date(key.expiryDate) <= now ? "EXPIRED" : "ACTIVE")] *)
Definition keyStatus (now : Time) (key : Key) : string :=
  if isRevoked key then "REVOKED"
  else if expiryDate key <=? now then "EXPIRED" else "ACTIVE".

(** [!key.isRevoked && new Date(key.expiryDate) > now] *)
Definition activeKey (now : Time) (key : Key) : bool :=
  negb (isRevoked key) && (expiryDate key >? now).

(** [!key.isRevoked && new Date(key.expiryDate) <= now] *)
Definition expiredKey (now : Time) (key : Key) : bool :=
  negb (isRevoked key) && (expiryDate key <=? now).

(** The body of GET /api/reseller/profile (the registration date, which
    the reseller rows here do not carry, apart). *)
Record Profile := mkProfile {
  pf_id : Z;
  pf_username : string;
  pf_credits : Number;
  pf_activeKeys : nat;
  pf_expiredKeys : nat;
  pf_totalKeys : nat
}.

(** GET /api/reseller/profile for the authenticated reseller [userId]. *)
Definition getResellerProfile (s : Store) (now : Time) (userId : Z)
  : Answer Profile :=
  match getReseller s userId with
  | None => Refused 404 "Reseller not found"
  | Some reseller =>
      let ks := getKeysByResellerId s (reseller_id reseller) in
      let activeKeys := List.length (filter (activeKey now) ks) in
      let expiredKeys := List.length (filter (expiredKey now) ks) in
      Sent (mkProfile (reseller_id reseller) (username reseller)
                      (credits reseller) activeKeys expiredKeys
                      (List.length ks))
  end.

(** A key with its devices and its status, as the listings send it. *)
Record KeyRow := mkKeyRow {
  kr_key : Key;
  kr_devices : list Device;
  kr_status : string
}.

Definition keyRow (s : Store) (now : Time) (key : Key) : KeyRow :=
  mkKeyRow key (getDevicesByKeyId s (key_id key)) (keyStatus now key).

(** GET /api/reseller/keys: the keys of the reseller, each with
    [devices.length] and its status. *)
Definition getResellerKeys (s : Store) (now : Time) (userId : Z)
  : list (Key * nat * string) :=
  map (fun key =>
         (key, List.length (getDevicesByKeyId s (key_id key)),
          keyStatus now key))
      (getKeysByResellerId s userId).

(** GET /api/admin/resellers/:id/keys; [idParam] is
    [parseInt(req.params.id)], [None] standing for NaN. *)
Definition getAdminResellerKeys (s : Store) (now : Time)
    (idParam : option Z) : Answer (list KeyRow) :=
  match idParam with
  | None => Refused 400 "Invalid reseller ID"
  | Some rid => Sent (map (keyRow s now) (getKeysByResellerId s rid))
  end.

(** GET /api/reseller/keys/:id *)
Definition getResellerKey (s : Store) (now : Time) (userId : Z)
    (idParam : option Z) : Answer KeyRow :=
  let ks := getKeysByResellerId s userId in
  match idParam with
  | None => Refused 404 "Key not found or does not belong to you"
  | Some kid =>
      match find (fun k => key_id k =? kid) ks with
      | None => Refused 404 "Key not found or does not belong to you"
      | Some key => Sent (keyRow s now key)
      end
  end.

(** GET /api/admin/resellers: every reseller with the number of its keys
    and of its active keys. *)
Definition getAdminResellers (s : Store) (now : Time)
  : list (Reseller * nat * nat) :=
  map (fun reseller =>
         let ks := getKeysByResellerId s (reseller_id reseller) in
         (reseller, List.length ks,
          List.length (filter (activeKey now) ks)))
      (resellers s).

(** ** Revocation and device removal by the reseller *)

(** POST /api/reseller/keys/:id/revoke for the authenticated reseller
    [userId]; a NaN id equals no key id. *)
Definition postResellerRevoke (s : Store) (userId : Z)
    (idParam : option Z) : Answer (option Key) * Store :=
  let ks := getKeysByResellerId s userId in
  match idParam with
  | None => (Refused 404 "Key not found or does not belong to you", s)
  | Some kid =>
      match find (fun k => key_id k =? kid) ks with
      | None => (Refused 404 "Key not found or does not belong to you", s)
      | Some _ =>
          let (revokedKey, s') := revokeKey s kid in
          (Sent revokedKey, s')
      end
  end.

(** Modelled from the spec: storage.removeDevice is absent; it is
    removeDevice(deviceId, keyId) -> boolean, false if the device is not
    bound to the key, which is a negative result and not an error. *)
Definition removeDevice (s : Store) (did : string) (kid : Z)
  : bool * Store :=
  let bound := fun d => (keyId d =? kid) && String.eqb (deviceId d) did in
  if existsb bound (devices s) then
    (true, mkStore (keys s) (filter (fun d => negb (bound d)) (devices s))
                   (resellers s) (nextKeyId s) (nextDeviceId s))
  else (false, s).

(** POST /api/reseller/keys/:id/devices/:deviceId/remove *)
Definition postRemoveDevice (s : Store) (userId : Z) (idParam : option Z)
    (did : string) : Answer string * Store :=
  let ks := getKeysByResellerId s userId in
  match idParam with
  | None => (Refused 404 "Key not found or does not belong to you", s)
  | Some kid =>
      match find (fun k => key_id k =? kid) ks with
      | None => (Refused 404 "Key not found or does not belong to you", s)
      | Some _ =>
          let (success, s') := removeDevice s did kid in
          if negb success then (Refused 404 "Device not found", s')
          else (Sent "Device removed successfully", s')
      end
  end.

(** ** Credits and status set by the admin *)

(** [addCreditsSchema] belongs to the absent schema module: its [parse]
    is a parameter, to the error it throws or to [resellerId] and
    [amount]. *)
Variable CreditsBody : Type.
Variable addCreditsSchema : CreditsBody -> string + (Z * Number).

(** POST /api/admin/resellers/credits *)
Definition postAdminCredits (s : Store) (body : CreditsBody)
  : Answer Reseller * Store :=
  match addCreditsSchema body with
  | inl e => (Refused 400 e, s)
  | inr (rid, amount) =>
      match getReseller s rid with
      | None => (Refused 404 "Reseller not found", s)
      | Some _ =>
          match updateResellerCredits s rid amount with
          | inl e => (Refused 400 e, s)
          | inr (updatedReseller, s') => (Sent updatedReseller, s')
          end
      end
  end.

(** Modelled from the spec: storage.updateResellerStatus is absent; the
    active flag of a reseller is toggled by the admin: it sets the flag
    of the reseller with the given id and returns the row. *)
Definition setActive (b : bool) (r : Reseller) : Reseller :=
  mkReseller (reseller_id r) (username r) (credits r) b.

Definition updateResellerStatus (s : Store) (id : Z) (b : bool)
  : option Reseller * Store :=
  (option_map (setActive b) (getReseller s id),
   mkStore (keys s) (devices s)
           (map (fun r => if reseller_id r =? id then setActive b r else r)
                (resellers s))
           (nextKeyId s) (nextDeviceId s)).

(** POST /api/admin/resellers/:id/toggle-status; [isActiveField] is
    [req.body.isActive] when it is a boolean. *)
Definition postToggleStatus (s : Store) (idParam : option Z)
    (isActiveField : option bool) : Answer (option Reseller) * Store :=
  match isActiveField with
  | None => (Refused 400 "isActive must be a boolean", s)
  | Some b =>
      match idParam with
      | None => (Refused 404 "Reseller not found", s)
      | Some id =>
          match getReseller s id with
          | None => (Refused 404 "Reseller not found", s)
          | Some _ =>
              let (updatedReseller, s') := updateResellerStatus s id b in
              (Sent updatedReseller, s')
          end
      end
  end.

(** ** Histories *)

(** The requests that change the store, those of [Request] and the ones
    above. *)
Inductive Operation :=
| OpRequest (r : Request)
| OpResellerRevoke (userId : Z) (idParam : option Z)
| OpRemoveDevice (userId : Z) (idParam : option Z) (did : string)
| OpAdminCredits (body : CreditsBody)
| OpToggleStatus (idParam : option Z) (isActiveField : option bool).

Definition perform (st : RunState) (op : Operation) : RunState :=
  match op with
  | OpRequest r => serve st r
  | OpResellerRevoke userId idParam =>
      mkRunState (snd (postResellerRevoke (rs_store st) userId idParam))
                 (rs_rand st)
  | OpRemoveDevice userId idParam did =>
      mkRunState (snd (postRemoveDevice (rs_store st) userId idParam did))
                 (rs_rand st)
  | OpAdminCredits body =>
      mkRunState (snd (postAdminCredits (rs_store st) body)) (rs_rand st)
  | OpToggleStatus idParam isActiveField =>
      mkRunState (snd (postToggleStatus (rs_store st) idParam isActiveField))
                 (rs_rand st)
  end.

Definition performAll (st : RunState) (ops : list Operation) : RunState :=
  fold_left perform ops st.

(** A store whose key identifiers are distinct and below the counter
    they are drawn from, whose devices belong to identifiers below that
    counter, and where no key has more devices than its limit allows. *)
Definition deviceCount (s : Store) (kid : Z) : Z :=
  Z.of_nat (List.length (getDevicesByKeyId s kid)).

Definition wellFormed (s : Store) : Prop :=
  NoDup (map key_id (keys s)) /\
  (forall k, In k (keys s) -> key_id k < nextKeyId s) /\
  (forall d, In d (devices s) -> keyId d < nextKeyId s) /\
  (forall k, In k (keys s) ->
             deviceCount s (key_id k) <= Z.max 0 (deviceLimit k)).

(** ** Accounts, sessions and registration *)

Record Admin := mkAdmin {
  admin_id : Z;
  admin_username : string;
  admin_password : string
}.

Record Token := mkToken {
  token : string;
  isUsed : bool;
  usedBy : option string
}.

(** What the strategies hand to the session: [{id, username, role}]. *)
Record User := mkUser {
  user_id : Z;
  user_name : string;
  role : string
}.

(** The store with the tables the account routes read. The reseller
    rows of [Store] carry no password: the password column is kept
    beside them, by reseller id. *)
Record Site := mkSite {
  site_store : Store;
  site_admins : list Admin;
  site_tokens : list Token;
  site_passwords : list (Z * string)
}.

(** Modelled from the spec: storage.getAdminByUsername and
    storage.getResellerByUsername are absent; usernames identify the
    row. *)
Definition getAdminByUsername (site : Site) (name : string) : option Admin :=
  find (fun a => String.eqb (admin_username a) name) (site_admins site).

Definition getResellerByUsername (s : Store) (name : string)
  : option Reseller :=
  find (fun r => String.eqb (username r) name) (resellers s).

(** [reseller.password]: the entry of the password column for the row,
    if it has one. *)
Definition resellerPassword (site : Site) (r : Reseller) : option string :=
  option_map snd
    (find (fun e => fst e =? reseller_id r) (site_passwords site)).

(** What a strategy reports through [done]: a user, or [false] with a
    message. *)
Inductive Authentication :=
| Authenticated (user : User)
| Rejected (msg : string).

(** [new LocalStrategy(verify)] of passport-local: the strategy looks
    the username and the password up in the request and, when one of
    them is missing or empty, fails with "Missing credentials" without
    calling [verify]. A field the request does not carry is the empty
    string here. *)
Definition LocalStrategy (verify : string -> string -> Authentication)
    (name password : string) : Authentication :=
  if emptyStr name || emptyStr password then Rejected "Missing credentials"
  else verify name password.

(** The callback of the strategy registered as ['admin']. *)
Definition adminVerify (site : Site) (name password : string)
  : Authentication :=
  match getAdminByUsername site name with
  | None => Rejected "Incorrect username or password"
  | Some admin =>
      if negb (String.eqb (admin_password admin) password) then
        Rejected "Incorrect username or password"
      else Authenticated (mkUser (admin_id admin) (admin_username admin)
                                 "admin")
  end.

(** The callback of the strategy registered as ['reseller']. *)
Definition resellerVerify (site : Site) (name password : string)
  : Authentication :=
  match getResellerByUsername (site_store site) name with
  | None => Rejected "Incorrect username or password"
  | Some reseller =>
      match resellerPassword site reseller with
      | Some p =>
          if negb (String.eqb p password) then
            Rejected "Incorrect username or password"
          else if negb (isActive reseller) then
            Rejected "Account is suspended"
          else Authenticated (mkUser (reseller_id reseller)
                                     (username reseller) "reseller")
      | None => Rejected "Incorrect username or password"
      end
  end.

(** The strategies registered as ['admin'] and ['reseller']. *)
Definition adminStrategy (site : Site) : string -> string -> Authentication :=
  LocalStrategy (adminVerify site).

Definition resellerStrategy (site : Site)
  : string -> string -> Authentication :=
  LocalStrategy (resellerVerify site).

(** The session of a request: the user it is logged in as, if any. *)
Definition Session := option User.

(** POST /api/auth/admin/login and POST /api/auth/reseller/login: the
    callback given to [passport.authenticate], which answers 401 with
    the message of the strategy or logs the user in. *)
Definition loginWith (auth : Authentication) (session : Session)
  : Answer User * Session :=
  match auth with
  | Rejected msg => (Refused 401 msg, session)
  | Authenticated user => (Sent user, Some user)
  end.

Definition postAdminLogin (site : Site) (session : Session)
    (name password : string) : Answer User * Session :=
  loginWith (adminStrategy site name password) session.

Definition postResellerLogin (site : Site) (session : Session)
    (name password : string) : Answer User * Session :=
  loginWith (resellerStrategy site name password) session.

(** POST /api/auth/logout *)
Definition postLogout (session : Session) : Session := None.

(** A middleware lets the request through ([next()]) or answers. *)
Inductive Gate :=
| Next
| Stop (st : Z) (msg : string).

Definition isAuthenticated (session : Session) : Gate :=
  match session with
  | Some _ => Next
  | None => Stop 401 "Unauthorized"
  end.

Definition isAdmin (session : Session) : Gate :=
  match session with
  | Some user => if String.eqb (role user) "admin" then Next
                 else Stop 403 "Forbidden"
  | None => Stop 403 "Forbidden"
  end.

Definition isReseller (session : Session) : Gate :=
  match session with
  | Some user => if String.eqb (role user) "reseller" then Next
                 else Stop 403 "Forbidden"
  | None => Stop 403 "Forbidden"
  end.

(** Modelled from the spec: storage.getToken and storage.useToken are
    absent; a referral token is found by its string, and once used it
    is marked used with the username that consumed it. *)
Definition getToken (site : Site) (t : string) : option Token :=
  find (fun tk => String.eqb (token tk) t) (site_tokens site).

Definition useToken (tokens : list Token) (t name : string) : list Token :=
  map (fun tk => if String.eqb (token tk) t
                 then mkToken (token tk) true (Some name) else tk)
      tokens.

(** The fields of [insertResellerSchema.parse(req.body)]. *)
Record ResellerData := mkResellerData {
  rd_username : string;
  rd_password : string;
  rd_referralToken : string
}.

(** [insertResellerSchema] belongs to the absent schema module, and
    storage.createReseller to the absent storage: the parse and the row
    a registration creates are parameters. *)
Variable RegisterBody : Type.
Variable insertResellerSchema : RegisterBody -> string + ResellerData.
Variable newResellerRow : Store -> ResellerData -> Reseller.

(** Modelled from the spec: storage.createReseller is absent; it
    appends the new row to the reseller table and records its password
    credential. *)
Definition createReseller (site : Site) (data : ResellerData)
  : Reseller * Site :=
  let s := site_store site in
  let row := newResellerRow s data in
  (row,
   mkSite (mkStore (keys s) (devices s) (resellers s ++ [row])
                   (nextKeyId s) (nextDeviceId s))
          (site_admins site) (site_tokens site)
          ((reseller_id row, rd_password data) :: site_passwords site)).

(** The body of a successful registration:
    [{id, username, credits}] of the new row. *)
Definition registered (row : Reseller) : Z * string * Number :=
  (reseller_id row, username row, credits row).

(** POST /api/auth/reseller/register (answering 201 when it registers).
    The key file it creates for the reseller is outside the site, and
    its errors are caught on the spot. *)
Definition postRegister (site : Site) (body : RegisterBody)
  : Answer (Z * string * Number) * Site :=
  match insertResellerSchema body with
  | inl e => (Refused 400 e, site)
  | inr resellerData =>
      match getResellerByUsername (site_store site)
                                  (rd_username resellerData) with
      | Some _ => (Refused 400 "Username already exists", site)
      | None =>
          let rejectToken :=
            match getToken site (rd_referralToken resellerData) with
            | None => true
            | Some tk => isUsed tk
            end in
          if rejectToken then
            (Refused 400 "Invalid or already used referral token", site)
          else
            let (reseller, site1) := createReseller site resellerData in
            let site2 :=
              mkSite (site_store site1) (site_admins site1)
                     (useToken (site_tokens site1)
                               (rd_referralToken resellerData)
                               (rd_username resellerData))
                     (site_passwords site1) in
            (Sent (registered reseller), site2)
      end
  end.

Definition registerAll (site : Site) (bodies : list RegisterBody) : Site :=
  fold_left (fun st b => snd (postRegister st b)) bodies site.

(** The status change of the admin, on the site. *)
Definition toggleOnSite (site : Site) (idParam : option Z)
    (isActiveField : option bool) : Site :=
  mkSite (snd (postToggleStatus (site_store site) idParam isActiveField))
         (site_admins site) (site_tokens site) (site_passwords site).

(** ** The CSRF check of the admin's write routes

    Strings are sequences of code units below 256. *)

(** [x.endsWith(suffix)] *)
Definition endsWith (x suffix : string) : bool :=
  let n := String.length x in
  let m := String.length suffix in
  ((m <=? n)%nat && String.eqb (substring (n - m) m x) suffix)%bool.

(** [x.replace(/\/$/, '')]: one slash at the very end is dropped. *)
Fixpoint stripTrailingSlash (x : string) : string :=
  match x with
  | EmptyString => EmptyString
  | String c x' =>
      if Ascii.eqb c "/" && emptyStr x' then EmptyString
      else String c (stripTrailingSlash x')
  end.

(** What the check reads of the process environment and of the request;
    a header that is not sent is [None]. *)
Record Environment := mkEnvironment {
  nodeEnv : option string;
  publicUrl : option string
}.

Record RequestHead := mkRequestHead {
  protocol : string;
  hostHeader : option string;
  originHeader : option string;
  refererHeader : option string
}.

(** Truthiness of a value that is a string or undefined. *)
Definition truthy (x : option string) : bool :=
  match x with
  | Some v => negb (emptyStr v)
  | None => false
  end.

(** A value that is a string or undefined, inside a template literal. *)
Definition rendered (x : option string) : string :=
  match x with
  | Some v => v
  | None => "undefined"
  end.

Definition isProduction (env : Environment) : bool :=
  match nodeEnv env with
  | Some v => String.eqb v "production"
  | None => false
  end.

Definition expectedOrigin (env : Environment) (req : RequestHead) : string :=
  if isProduction env && truthy (publicUrl env) then
    stripTrailingSlash (rendered (publicUrl env))
  else (protocol req ++ "://" ++ rendered (hostHeader req))%string.

(** [new URL(referer)] is the URL parser of the platform: a parameter,
    to the [protocol] and [host] of the URL, or to nothing when it
    throws. *)
Variable parseUrl : string -> option (string * string).

(** csrfProtection *)
Definition csrfProtection (env : Environment) (req : RequestHead) : Gate :=
  let expected := expectedOrigin env req in
  if truthy (originHeader req) then
    if negb (String.eqb (rendered (originHeader req)) expected) then
      Stop 403 "Forbidden: Invalid origin"
    else Next
  else if negb (truthy (refererHeader req)) then
    Stop 403 "Forbidden: No origin header"
  else
    match parseUrl (rendered (refererHeader req)) with
    | Some (urlProtocol, urlHost) =>
        let refererOrigin := (urlProtocol ++ "//" ++ urlHost)%string in
        if negb (String.eqb refererOrigin expected) then
          Stop 403 "Forbidden: Invalid referer"
        else Next
    | None => Stop 403 "Forbidden: Invalid referer format"
    end.

(** adminWriteProtection, [[isAdmin, csrfProtection]]: the second
    middleware runs when the first calls [next()]. *)
Definition adminWriteProtection (env : Environment) (session : Session)
    (req : RequestHead) : Gate :=
  match isAdmin session with
  | Next => csrfProtection env req
  | Stop st msg => Stop st msg
  end.

(** ** Backup download *)

(** [/[^a-zA-Z0-9.-]/]: a character that is replaced. *)
Definition isSafeNameChar (c : ascii) : bool :=
  charBetween 97 122 c || charBetween 65 90 c || charBetween 48 57 c
  || Ascii.eqb c "." || Ascii.eqb c "-".

(** [filename.replace(/[^a-zA-Z0-9.-]/g, '_')] *)
Fixpoint sanitizeFilename (x : string) : string :=
  match x with
  | EmptyString => EmptyString
  | String c x' =>
      String (if isSafeNameChar c then c else "_"%char) (sanitizeFilename x')
  end.

(** The functions of [path] and the data directory they resolve are
    parameters. *)
Variable dataDir : string.
Variable pathJoin : string -> string -> string.
Variable pathResolve : string -> string.

(** The answer of the download route: the file sent with the name it is
    sent under, or an error. *)
Inductive Download :=
| Served (filePath downloadName : string)
| NoDownload (st : Z) (msg : string).

(** GET /api/admin/backup/download/:filename for an admin; [entries] is
    what [fs.readdirSync(dataDir)] returns, or the message of the error
    it throws. *)
Definition getBackupDownload (entries : string + list string)
    (filename : string) : Download :=
  match entries with
  | inl e => NoDownload 500 e
  | inr files =>
      let allowedFiles := filter (fun file => endsWith file ".json") files in
      if negb (includes allowedFiles filename) then
        NoDownload 404 "File not found"
      else
        let filePath := pathJoin dataDir filename in
        let resolvedPath := pathResolve filePath in
        if negb (String.prefix dataDir resolvedPath) then
          NoDownload 404 "File not found"
        else Served filePath (sanitizeFilename filename)
  end.

(** ** The key file of a reseller (direct-db) *)

(** What [updateResellerFile] keeps in a reseller's file (the
    registration date, which the reseller rows here do not carry,
    apart; dates are instants, whatever their notation). A field the
    file does not have is [None]. *)
Record ResellerFile := mkResellerFile {
  rf_resellerId : Z;
  rf_username : string;
  rf_credits : option Number;
  rf_keys : option (list Key)
}.

(** A file of the data directory: one that cannot be read or parsed, or
    the data of a reseller. *)
Inductive FileContent :=
| Unparsable
| ResellerJson (data : ResellerFile).

Definition Files := string -> option FileContent.

Definition writeFile (fs : Files) (path : string) (content : FileContent)
  : Files :=
  fun p => if String.eqb p path then Some content else fs p.

(** [DATA_DIR] of direct-db and the paths the file system refuses to
    write are parameters. *)
Variable DATA_DIR : string.
Variable canWrite : string -> bool.

(** getResellerFilePath *)
Definition getResellerFilePath (name : string) : string :=
  pathJoin DATA_DIR (name ++ ".json")%string.

(** [a || b] and [a || 0] on numbers that may be missing. *)
Definition orNumber (a : option Number) (b : Number) : Number :=
  match a with
  | Some v => if truthyNumber v then v else b
  | None => b
  end.

(** [JSON.stringify] writes NaN and the infinities as [null], which is
    read back as a field that holds no number. *)
Definition jsonNumber (a : Number) : option Number :=
  match a with
  | Num _ => Some a
  | NaN => None
  | PosInfinity => None
  | NegInfinity => None
  end.

(** [x || []] *)
Definition orEmpty (x : option (list Key)) : list Key :=
  match x with
  | Some l => l
  | None => []
  end.

(** [keys && keys.length > 0] *)
Definition someKeys (ks : list Key) : bool :=
  match ks with
  | [] => false
  | _ :: _ => true
  end.

(** updateResellerFile(reseller, keys): the result and the files it
    leaves. *)
Definition updateResellerFile (fs : Files) (reseller : Reseller)
    (ks : list Key) : bool * Files :=
  let filePath := getResellerFilePath (username reseller) in
  let initial :=
    mkResellerFile (reseller_id reseller) (username reseller)
                   (jsonNumber (orNumber (Some (credits reseller))
                                         (numOfZ 0)))
                   (Some []) in
  let resellerData :=
    match fs filePath with
    | Some (ResellerJson existingData) =>
        let withKeys :=
          if someKeys ks
          then Some (orEmpty (rf_keys existingData) ++ ks)
          else rf_keys existingData in
        mkResellerFile (rf_resellerId existingData)
                       (rf_username existingData)
                       (jsonNumber
                          (orNumber (Some (credits reseller))
                                    (orNumber (rf_credits existingData)
                                              (numOfZ 0))))
                       withKeys
    | Some Unparsable => initial
    | None =>
        if someKeys ks
        then mkResellerFile (rf_resellerId initial) (rf_username initial)
                            (rf_credits initial) (Some ks)
        else initial
    end in
  if canWrite filePath
  then (true, writeFile fs filePath (ResellerJson resellerData))
  else (false, fs).

(** The generation route with the copy of the keys it writes to the
    reseller's file after the credits are deducted; [reseller] is the
    row read before the keys were generated. *)
Definition postKeysGenerateMirrored (s : Store) (c : nat) (now : Time)
    (userId : Z) (body : GenerateBody) (fs : Files)
  : GenerateResponse * RunState * Files :=
  let R := postKeysGenerate s c now userId body in
  match fst R, getReseller s userId with
  | GenCreated generatedKeys _, Some reseller =>
      (R, snd (updateResellerFile fs reseller generatedKeys))
  | _, _ => (R, fs)
  end.

(** The registration route with the key file it creates. *)
Definition postRegisterMirrored (site : Site) (body : RegisterBody)
    (fs : Files) : Answer (Z * string * Number) * Site * Files :=
  let R := postRegister site body in
  match fst R, insertResellerSchema body with
  | Sent _, inr data =>
      (R, snd (updateResellerFile fs (newResellerRow (site_store site) data)
                                  []))
  | _, _ => (R, fs)
  end.

(** ** More sample data *)

Definition sampleSite : Site :=
  mkSite sampleStore [mkAdmin 1 "admin" "admin"]
         [mkToken "TOKEN-1" false None;
          mkToken "TOKEN-2" true (Some "dealer")]
         [(7, "secret")].

(** Schemas that take the request as it is, and the row given to a new
    reseller. *)
Definition plainRegisterSchema (d : ResellerData) : string + ResellerData :=
  inr d.

Definition plainCreditsSchema (b : Z * Number) : string + (Z * Number) :=
  inr b.

Definition sampleNewRow (s : Store) (d : ResellerData) : Reseller :=
  mkReseller (Z.of_nat (List.length (resellers s)) + 100) (rd_username d)
             (numOfZ 0) true.

Definition sampleRegistration : ResellerData :=
  mkResellerData "newcomer" "hunter22" "TOKEN-1".

(** Paths joined with a slash and resolved as they are, and URLs that
    never parse. *)
Definition slashJoin (a b : string) : string := (a ++ "/" ++ b)%string.

Definition resolveAsIs (p : string) : string := p.

Definition noUrl (x : string) : option (string * string) := None.

Definition everyPath (p : string) : bool := true.

Definition sampleFiles : Files :=
  fun p =>
    if String.eqb p "data/dealer.json"
    then Some (ResellerJson
                 (mkResellerFile 7 "dealer" (Some (numOfZ 5))
                                 (Some [sampleKey])))
    else None.

(** * Properties *)

(** ** Numbers *)

Lemma numOfZ_inj (a b : Z) : numOfZ a = numOfZ b -> a = b.
Proof. unfold numOfZ, inject_Z. intros [= H]. exact H. Qed.

Lemma numLt_ofZ (a b : Z) : numLt (numOfZ a) (numOfZ b) = (a <? b).
Proof.
  unfold numLt, numOfZ, Qle_bool, inject_Z. cbn [Qnum Qden].
  rewrite !Z.mul_1_r.
  destruct (Z.leb_spec b a), (Z.ltb_spec a b); try reflexivity; lia.
Qed.

Lemma numLe_ofZ (a b : Z) : numLe (numOfZ a) (numOfZ b) = (a <=? b).
Proof.
  unfold numLe, numOfZ, Qle_bool, inject_Z. cbn [Qnum Qden].
  rewrite !Z.mul_1_r. reflexivity.
Qed.

Lemma numAdd_ofZ (a b : Z) : numAdd (numOfZ a) (numOfZ b) = numOfZ (a + b).
Proof.
  unfold numAdd, numOfZ, Qplus, inject_Z. cbn [Qnum Qden Pos.mul].
  rewrite !Z.mul_1_r. reflexivity.
Qed.

Lemma numNeg_ofZ (a : Z) : numNeg (numOfZ a) = numOfZ (- a).
Proof. reflexivity. Qed.

Lemma numSub_ofZ (a b : Z) : numSub (numOfZ a) (numOfZ b) = numOfZ (a - b).
Proof. unfold numSub. rewrite numNeg_ofZ, numAdd_ofZ. reflexivity. Qed.

Lemma truthyNumber_ofZ (a : Z) : truthyNumber (numOfZ a) = negb (a =? 0).
Proof.
  unfold truthyNumber, numOfZ, Qeq_bool, inject_Z. cbn [Qnum Qden].
  rewrite Z.mul_1_r. cbn [Z.mul]. reflexivity.
Qed.

Lemma iterations_ofZ (n : Z) : iterations (numOfZ n) = Some (Z.to_nat n).
Proof. unfold iterations, numOfZ. rewrite Qceiling_Z. reflexivity. Qed.

(** NaN compares false and spreads, the infinities cancel to NaN, zero
    and NaN are falsy, and a loop runs once more for a fraction. *)
Lemma number_edge_cases :
  (forall x, numLt NaN x = false /\ numLt x NaN = false /\
             numAdd x NaN = NaN /\ numAdd NaN x = NaN) /\
  numSub PosInfinity PosInfinity = NaN /\
  numLt (numOfZ 5) PosInfinity = true /\
  numLt PosInfinity PosInfinity = false /\
  truthyNumber NaN = false /\ truthyNumber (numOfZ 0) = false /\
  numSub (numOfZ 5) (Num (5 # 2)) = Num (5 # 2) /\
  iterations (Num (5 # 2)) = Some 3%nat /\
  iterations (Num (-5 # 2)) = Some 0%nat.
Proof.
  split; [intros x; destruct x; repeat split|repeat split].
Qed.

(** The number of iterations is the number of indices that pass the
    test of the loop. *)
Lemma iterations_test (count : Number) :
  match iterations count with
  | Some n =>
      forall i : nat, numLt (numOfZ (Z.of_nat i)) count = (i <? n)%nat
  | None => forall i : nat, numLt (numOfZ (Z.of_nat i)) count = true
  end.
Proof.
  destruct count as [q| | |]; cbn [iterations]; intros i; try reflexivity.
  unfold numLt, numOfZ.
  pose proof (Qle_ceiling q) as Hup.
  pose proof (Qceiling_lt q) as Hlo.
  destruct (Nat.ltb_spec i (Z.to_nat (Qceiling q))) as [Hi|Hi].
  - apply negb_true_iff.
    destruct (Qle_bool q (inject_Z (Z.of_nat i))) eqn:Hle; [|reflexivity].
    apply Qle_bool_iff in Hle.
    assert (H : (inject_Z (Qceiling q - 1) < inject_Z (Z.of_nat i))%Q)
      by (eapply Qlt_le_trans; eassumption).
    rewrite <- Zlt_Qlt in H. lia.
  - apply negb_false_iff. apply Qle_bool_iff.
    eapply Qle_trans; [exact Hup|].
    rewrite <- Zle_Qle. lia.
Qed.

(** ** Storage facts *)

Lemma existsb_pair_filter (devs : list Device) (kid : Z) (did : string) :
  existsb (fun d => (keyId d =? kid) && String.eqb (deviceId d) did) devs
  = deviceExists (filter (fun d => keyId d =? kid) devs) did.
Proof.
  unfold deviceExists.
  induction devs as [|d devs IH]; simpl; [reflexivity|].
  destruct (keyId d =? kid); simpl; rewrite IH; reflexivity.
Qed.

Lemma addDevice_unseen (s : Store) (kid : Z) (did : string) :
  deviceExists (getDevicesByKeyId s kid) did = false ->
  addDevice s kid did
  = inr (mkDevice (nextDeviceId s) kid did, withDevice s kid did).
Proof.
  intros H. unfold addDevice, getDevicesByKeyId in *.
  rewrite existsb_pair_filter, H. reflexivity.
Qed.

Lemma addDevice_seen (s : Store) (kid : Z) (did : string) :
  deviceExists (getDevicesByKeyId s kid) did = true ->
  addDevice s kid did = inl "DuplicateDevice".
Proof.
  intros H. unfold addDevice, getDevicesByKeyId in *.
  rewrite existsb_pair_filter, H. reflexivity.
Qed.

Lemma devices_withDevice (s : Store) (kid : Z) (did : string) :
  getDevicesByKeyId (withDevice s kid did) kid
  = getDevicesByKeyId s kid ++ [mkDevice (nextDeviceId s) kid did].
Proof.
  unfold getDevicesByKeyId, withDevice; simpl.
  rewrite filter_app; simpl. rewrite Z.eqb_refl. reflexivity.
Qed.

Lemma devices_withDevice_other (s : Store) (kid kid' : Z) (did : string) :
  kid' <> kid ->
  getDevicesByKeyId (withDevice s kid did) kid' = getDevicesByKeyId s kid'.
Proof.
  intros Hne. unfold getDevicesByKeyId, withDevice; simpl.
  rewrite filter_app; simpl.
  destruct (Z.eqb_spec kid kid') as [->|_]; [congruence|].
  apply app_nil_r.
Qed.

(** ** Verification *)

(** What POST /api/verify does to the store: nothing, or one device
    appended for the key of the request. *)
Lemma postVerify_store (s : Store) (now : Time) (body : Body) :
  snd (postVerify s now body) = s \/
  exists req k,
    keyVerificationSchema body = inr req /\
    getKey s (vr_key req) = Some k /\
    deviceExists (getDevicesByKeyId s (key_id k)) (vr_deviceId req) = false /\
    Z.of_nat (List.length (getDevicesByKeyId s (key_id k))) < deviceLimit k /\
    snd (postVerify s now body) = withDevice s (key_id k) (vr_deviceId req).
Proof.
  unfold postVerify.
  destruct (keyVerificationSchema body) as [e|req] eqn:Hp; [now left|].
  destruct (getKey s (vr_key req)) as [k|] eqn:Hk; [|now left].
  destruct (negb (String.eqb (game k) (vr_game req))); [now left|].
  destruct (isRevoked k); [now left|].
  destruct (expiryDate k <=? now); [now left|].
  cbv zeta.
  destruct (deviceExists _ _) eqn:Hd; [now left|].
  destruct (Z.geb_spec (Z.of_nat (List.length (getDevicesByKeyId s (key_id k))))
                       (deviceLimit k)) as [Hge|Hlt]; [now left|].
  rewrite (addDevice_unseen _ _ _ Hd). right.
  exists req, k. repeat split; auto.
Qed.

Lemma getVerify_store (s : Store) (now : Time) (k g d : string) :
  snd (getVerify s now k g d) = s.
Proof.
  unfold getVerify.
  repeat match goal with
         | |- context [if ?b then _ else _] => destruct b
         | |- context [match ?o with Some _ => _ | None => _ end] => destruct o
         end; reflexivity.
Qed.

(** Unfolds a verification handler along the tests recorded in the
    context. *)
Ltac run_verify :=
  repeat match goal with
         | H : ?x = _ |- context [?x] => rewrite H
         end;
  cbn [negb andb orb fst snd].

(** C7. A parsed verification request whose key string is not in the
    key store is answered with the ordinary verdict
    {valid:false, message:"Invalid license key"} and status 200, leaving
    the store as it was; and whatever the store holds, a parsed request
    is never answered through the error branch: the status is 200. *)
Theorem unknown_key_is_a_verdict (s : Store) (now : Time) (body : Body)
    (req : VerifyRequest) :
  keyVerificationSchema body = inr req ->
  (getKey s (vr_key req) = None ->
   postVerify s now body
   = (mkVerifyResponse 200 false "Invalid license key" None None None None,
      s)) /\
  status (fst (postVerify s now body)) = 200.
Proof.
  intros Hp. unfold postVerify. rewrite Hp. split.
  - intros Hk. rewrite Hk. reflexivity.
  - destruct (getKey s (vr_key req)) as [k|]; [|reflexivity].
    destruct (negb (String.eqb (game k) (vr_game req))); [reflexivity|].
    destruct (isRevoked k); [reflexivity|].
    destruct (expiryDate k <=? now); [reflexivity|].
    cbv zeta.
    destruct (deviceExists _ _) eqn:Hd; [reflexivity|].
    destruct (_ >=? _); [reflexivity|].
    rewrite (addDevice_unseen _ _ _ Hd). reflexivity.
Qed.

(** The answer for a key that is present, matches the game, is not
    revoked and not expired. *)
Lemma postVerify_live (s : Store) (now : Time) (body : Body)
    (req : VerifyRequest) (k : Key) :
  keyVerificationSchema body = inr req ->
  getKey s (vr_key req) = Some k ->
  game k = vr_game req ->
  isRevoked k = false ->
  now < expiryDate k ->
  postVerify s now body
  = let devs := getDevicesByKeyId s (key_id k) in
    let n := Z.of_nat (List.length devs) in
    if deviceExists devs (vr_deviceId req) then (validVerdict k n, s)
    else if deviceLimit k <=? n then (limitVerdict k n, s)
    else (validVerdict k (n + 1), withDevice s (key_id k) (vr_deviceId req)).
Proof.
  intros Hp Hk Hg Hr He.
  assert (Hgame : negb (String.eqb (game k) (vr_game req)) = false)
    by (rewrite Hg, String.eqb_refl; reflexivity).
  assert (Hexp : (expiryDate k <=? now) = false) by (apply Z.leb_gt; exact He).
  unfold postVerify. run_verify. cbv zeta.
  destruct (deviceExists _ _) eqn:Hd; [reflexivity|].
  rewrite Z.geb_leb.
  destruct (deviceLimit k <=? _); [reflexivity|].
  rewrite (addDevice_unseen _ _ _ Hd). reflexivity.
Qed.

Lemma getKey_withDevice (s : Store) (kid : Z) (did ks : string) :
  getKey (withDevice s kid did) ks = getKey s ks.
Proof. reflexivity. Qed.

Lemma deviceExists_app (devs : list Device) (d : Device) (did : string) :
  deviceExists (devs ++ [d]) did
  = deviceExists devs did || String.eqb (deviceId d) did.
Proof.
  unfold deviceExists. rewrite existsb_app. simpl.
  rewrite orb_false_r. reflexivity.
Qed.

(** C1. For a key that is present, matches the game, is not revoked and
    not expired, and a device not yet bound to it: when the number n of
    bound devices is at least the device limit the answer is the invalid
    verdict "Device limit reached for this license key" with n and the
    limit, and the store is unchanged; when n is below the limit the
    device is appended to the key's devices and the answer is valid with
    n+1 devices. The verdict is invalid exactly when n >= limit. So the
    device that brings the count to the limit succeeds, and the next
    unseen device is rejected with the store left as it is. *)
Theorem device_limit_boundary (s : Store) (now : Time) (body : Body)
    (req : VerifyRequest) (k : Key) :
  keyVerificationSchema body = inr req ->
  getKey s (vr_key req) = Some k ->
  game k = vr_game req ->
  isRevoked k = false ->
  now < expiryDate k ->
  deviceExists (getDevicesByKeyId s (key_id k)) (vr_deviceId req) = false ->
  let n := Z.of_nat (List.length (getDevicesByKeyId s (key_id k))) in
  let r := postVerify s now body in
  (deviceLimit k <= n ->
   r = (mkVerifyResponse 200 false
          "Device limit reached for this license key"
          (Some (expiryDate k)) (Some (deviceLimit k)) (Some n) None, s)) /\
  (n < deviceLimit k ->
   fst r = mkVerifyResponse 200 true "License valid"
             (Some (expiryDate k)) (Some (deviceLimit k)) (Some (n + 1)) None
   /\ addDevice s (key_id k) (vr_deviceId req)
      = inr (mkDevice (nextDeviceId s) (key_id k) (vr_deviceId req), snd r)
   /\ getDevicesByKeyId (snd r) (key_id k)
      = getDevicesByKeyId s (key_id k)
        ++ [mkDevice (nextDeviceId s) (key_id k) (vr_deviceId req)]
   /\ keys (snd r) = keys s) /\
  (valid (fst r) = false <-> deviceLimit k <= n) /\
  (n + 1 = deviceLimit k ->
   forall (now' : Time) (body' : Body) (req' : VerifyRequest),
     keyVerificationSchema body' = inr req' ->
     vr_key req' = vr_key req ->
     vr_game req' = vr_game req ->
     now' < expiryDate k ->
     deviceExists (getDevicesByKeyId s (key_id k)) (vr_deviceId req') = false ->
     vr_deviceId req' <> vr_deviceId req ->
     valid (fst r) = true /\
     postVerify (snd r) now' body'
     = (mkVerifyResponse 200 false
          "Device limit reached for this license key"
          (Some (expiryDate k)) (Some (deviceLimit k)) (Some (n + 1)) None,
        snd r)).
Proof.
  intros Hp Hk Hg Hr He Hd n r.
  assert (Hadd := addDevice_unseen _ _ _ Hd).
  assert (Hr0 := postVerify_live s now body req k Hp Hk Hg Hr He).
  cbv zeta in Hr0. rewrite Hd in Hr0. fold n in Hr0. fold r in Hr0.
  assert (Hlim : deviceLimit k <= n -> r = (limitVerdict k n, s)).
  { intros Hle. rewrite Hr0.
    destruct (Z.leb_spec (deviceLimit k) n); [reflexivity|lia]. }
  assert (Hreg : n < deviceLimit k ->
                 r = (validVerdict k (n + 1),
                      withDevice s (key_id k) (vr_deviceId req))).
  { intros Hlt. rewrite Hr0.
    destruct (Z.leb_spec (deviceLimit k) n); [lia|reflexivity]. }
  split; [exact Hlim|]. split; [|split].
  - intros Hlt. rewrite (Hreg Hlt). cbn [fst snd]. repeat split.
    + exact Hadd.
    + apply devices_withDevice.
  - split.
    + intros Hv. destruct (Z.lt_ge_cases n (deviceLimit k)) as [Hlt|Hge];
        [|lia].
      rewrite (Hreg Hlt) in Hv. discriminate Hv.
    + intros Hle. rewrite (Hlim Hle). reflexivity.
  - intros Hn now' body' req' Hp' Hk' Hg' He' Hd' Hne.
    assert (Hlt : n < deviceLimit k) by lia.
    rewrite (Hreg Hlt). cbn [fst snd]. split; [reflexivity|].
    rewrite (postVerify_live _ now' body' req' k Hp');
      [ | rewrite Hk'; exact Hk | congruence | exact Hr | exact He' ].
    cbv zeta. rewrite devices_withDevice, deviceExists_app, Hd'.
    cbn [deviceId orb].
    destruct (String.eqb_spec (vr_deviceId req) (vr_deviceId req'))
      as [Heq|_]; [congruence|].
    rewrite length_app, Nat2Z.inj_add. cbn [List.length]. fold n.
    change (Z.of_nat 1) with 1.
    destruct (Z.leb_spec (deviceLimit k) (n + 1)); [|lia].
    reflexivity.
Qed.

(** ** Issuance *)

Lemma getReseller_update_same (rs : list Reseller) (id : Z) (delta : Number)
    (r : Reseller) :
  find (fun r' => reseller_id r' =? id) rs = Some r ->
  find (fun r' => reseller_id r' =? id)
       (map (fun r' => if reseller_id r' =? id then addCredits delta r' else r')
            rs)
  = Some (addCredits delta r).
Proof.
  induction rs as [|a rs IH]; simpl; [discriminate|].
  destruct (reseller_id a =? id) eqn:Ha; simpl.
  - intros [= ->]. rewrite Ha. reflexivity.
  - rewrite Ha. exact IH.
Qed.

Lemma getReseller_update_other (rs : list Reseller) (id id' : Z)
    (delta : Number) :
  id' <> id ->
  find (fun r' => reseller_id r' =? id')
       (map (fun r' => if reseller_id r' =? id then addCredits delta r' else r')
            rs)
  = find (fun r' => reseller_id r' =? id') rs.
Proof.
  intros Hne. induction rs as [|a rs IH]; simpl; [reflexivity|].
  destruct (Z.eqb_spec (reseller_id a) id) as [Ha|Ha]; simpl.
  - destruct (Z.eqb_spec (reseller_id a) id'); [congruence|exact IH].
  - rewrite IH. reflexivity.
Qed.

(** One iteration of the loop, written out. *)
Lemma generateLoop_step (now : Time) (u : Z) (kd : KeyData) (n : nat)
    (i : Z) (acc : list Key) (st : RunState) :
  generateLoop now u kd (S n) i acc st
  = let c := rs_rand st in
    let c1 := match customKeyString kd with
              | Some _ => c
              | None => (c + 3)%nat
              end in
    let ks := match customKeyString kd with
              | Some custom => custom
              | None => fst (generateKeyString (kd_game kd) c)
              end in
    let c2 := if i =? 0 then c1 else (c1 + 3)%nat in
    let ks' := if i =? 0 then ks
               else fst (generateKeyString (kd_game kd) c1) in
    let ik := mkInsertKey ks' (kd_game kd) u (kd_deviceLimit kd)
                          (kd_expiryDate kd) in
    match storageFault (CallCreateKey ik) (rs_store st) with
    | Some e => (Throw e, mkRunState (rs_store st) c2)
    | None =>
        generateLoop now u kd n (i + 1)
          (acc ++ [fst (createKey (rs_store st) now ik)])
          (mkRunState (snd (createKey (rs_store st) now ik)) c2)
    end.
Proof.
  destruct st as [s c]. cbn [generateLoop rs_rand rs_store].
  unfold bind, storage, ret, generateKeyStringM.
  destruct (customKeyString kd) as [custom|]; destruct (i =? 0);
    cbn [generateKeyString rs_rand rs_store fst snd];
    destruct (storageFault _ _); reflexivity.
Qed.

(** The loop only appends keys: it touches neither resellers nor
    devices, it answers nothing by itself, and it ends with all [n] keys
    created or throws with fewer. *)
Lemma generateLoop_effect (now : Time) (u : Z) (kd : KeyData) (n : nat) :
  forall (i : Z) (acc : list Key) (st : RunState),
    let R := generateLoop now u kd n i acc st in
    exists new,
      keys (rs_store (snd R)) = keys (rs_store st) ++ new /\
      resellers (rs_store (snd R)) = resellers (rs_store st) /\
      devices (rs_store (snd R)) = devices (rs_store st) /\
      match fst R with
      | Value ks => ks = acc ++ new /\ List.length new = n
      | Respond _ => False
      | Throw _ => (List.length new < n)%nat
      end.
Proof.
  induction n as [|n IH]; intros i acc st R.
  - exists []. subst R. simpl. rewrite !app_nil_r. auto.
  - subst R. rewrite generateLoop_step. cbv zeta.
    destruct (storageFault _ _) as [e|].
    + exists []. cbn [fst snd rs_store]. rewrite app_nil_r.
      repeat split; auto. simpl. lia.
    + match goal with
      | |- context [generateLoop now u kd n ?i' (acc ++ [?k]) ?st'] =>
          destruct (IH i' (acc ++ [k]) st') as (new & Hk & Hr & Hd & Ho);
          exists (k :: new)
      end.
      rewrite Hk, Hr, Hd.
      cbn [rs_store keys resellers devices createKey snd fst].
      rewrite <- app_assoc. cbn [app].
      repeat split; auto.
      destruct (fst (generateLoop _ _ _ _ _ _ _)) as [ks0|r|e].
      * destruct Ho as [-> <-]. rewrite <- app_assoc. cbn [app List.length].
        auto.
      * exact Ho.
      * cbn [List.length]. lia.
Qed.

Lemma generateKeyString_at (g : string) (a b : nat) :
  a = b -> fst (generateKeyString g a) = fst (generateKeyString g b).
Proof. intros ->. reflexivity. Qed.

(** The check of the custom key string reads the store only. *)
Lemma checkCustomKey_effect (kd : KeyData) (st : RunState) :
  snd (checkCustomKey kd st) = st /\
  match fst (checkCustomKey kd st) with
  | Value _ =>
      match customKeyString kd with
      | Some custom => getKey (rs_store st) custom = None
      | None => True
      end
  | Respond r =>
      r = GenError 400 "This key already exists" /\
      exists custom k, customKeyString kd = Some custom /\
                       getKey (rs_store st) custom = Some k
  | Throw _ => exists custom, customKeyString kd = Some custom
  end.
Proof.
  unfold checkCustomKey. destruct st as [s c].
  destruct (customKeyString kd) as [custom|]; [|cbn; auto].
  unfold bind, storage, respond, ret. cbn [rs_store rs_rand].
  destruct (storageFault _ _); [cbn; eauto|].
  destruct (getKey s custom) eqn:Hk; cbn; eauto 8.
Qed.

(** The key strings of the keys the loop returns. *)
Lemma generateLoop_strings (now : Time) (u : Z) (kd : KeyData) (n : nat) :
  forall (i : Z) (acc : list Key) (st : RunState) (ks : list Key)
         (st' : RunState),
    0 <= i ->
    generateLoop now u kd n i acc st = (Value ks, st') ->
    map keyString ks
    = map keyString acc
      ++ loopKeyStrings (customKeyString kd) (kd_game kd) (i =? 0)
                        (rs_rand st) n.
Proof.
  induction n as [|n IH]; intros i acc st ks st' Hi Hrun.
  - cbn in Hrun. injection Hrun as <- _.
    unfold loopKeyStrings.
    destruct (customKeyString kd); destruct (i =? 0); cbn;
      rewrite app_nil_r; reflexivity.
  - rewrite generateLoop_step in Hrun. cbv zeta in Hrun.
    destruct (storageFault _ _) as [e|]; [discriminate Hrun|].
    apply IH in Hrun; [|lia].
    rewrite Hrun, map_app, <- app_assoc. f_equal.
    cbn [map app createKey fst keyString rs_rand].
    assert (Hnz : (i + 1 =? 0) = false) by (apply Z.eqb_neq; lia).
    rewrite Hnz. unfold loopKeyStrings.
    destruct (customKeyString kd) as [custom|]; destruct (i =? 0);
      cbn [seq map]; rewrite <- ?seq_shift, ?map_map;
      try reflexivity;
      (f_equal;
       [ apply generateKeyString_at; lia
       | apply map_ext; intros j; apply generateKeyString_at; lia ]).
Qed.

(** What a run of the generation route does to keys and credits. *)
Lemma postKeysGenerate_effect (s : Store) (c : nat) (now : Time) (u : Z)
    (body : GenerateBody) :
  let R := postKeysGenerate s c now u body in
  let s' := rs_store (snd R) in
  let count := requestedCount body in
  exists new : list Key,
    keys s' = keys s ++ new /\
    match fst R with
    | GenCreated ks rem =>
        ks = new /\ iterations count = Some (List.length new) /\
        exists r,
          getReseller s u = Some r /\ numLt (credits r) count = false /\
          getReseller s' u = Some (addCredits (numNeg count) r) /\
          rem = numSub (credits r) count /\
          (forall id, id <> u -> getReseller s' id = getReseller s id)
    | GenError _ _ => resellers s' = resellers s
    | GenNoAnswer =>
        resellers s' = resellers s /\ iterations count = None /\
        List.length new = patience /\
        exists r, getReseller s u = Some r /\ numLt (credits r) count = false
    end.
Proof.
  intros R s' count.
  match goal with
  | |- ?G =>
      assert (Herr : forall (e : Z) (m : string) (st : RunState)
                            (new : list Key),
                 R = (GenError e m, st) ->
                 keys (rs_store st) = keys s ++ new ->
                 resellers (rs_store st) = resellers s -> G)
  end.
  { intros e m st new HR Hk Hr. exists new. subst s'. rewrite HR.
    cbn [fst snd]. split; assumption. }
  match goal with
  | |- ?G =>
      assert (Hnil : forall (e : Z) (m : string) (c' : nat),
                 R = (GenError e m, mkRunState s c') -> G)
  end.
  { intros e m c' HR. apply (Herr e m _ [] HR); cbn [rs_store];
      [rewrite app_nil_r|]; reflexivity. }
  assert (HR : R = postKeysGenerate s c now u body) by reflexivity.
  clearbody R.
  unfold postKeysGenerate, generateTry in HR.
  destruct (insertKeySchema now body) as [e|kd]; [eapply Hnil; exact HR|].
  destruct (negb (gameEnum (kd_game kd))); [eapply Hnil; exact HR|].
  unfold bind at 1 in HR.
  destruct (checkCustomKey_effect kd (mkRunState s c)) as [Hst Hout].
  destruct (checkCustomKey kd _) as [o st0]. cbn [fst snd] in Hst, Hout.
  subst st0.
  destruct o as [_|r|e];
    [|destruct Hout as [-> _]; eapply Hnil; exact HR|eapply Hnil; exact HR].
  clear Hout.
  unfold bind at 1, storage at 1 in HR. cbn [rs_store rs_rand] in HR.
  destruct (storageFault _ _); [eapply Hnil; exact HR|].
  destruct (getReseller s u) as [r|] eqn:Hres; [|eapply Hnil; exact HR].
  fold count in HR.
  destruct (numLt (credits r) count) eqn:Hge; [eapply Hnil; exact HR|].
  destruct (iterations count) as [n|] eqn:Hit.
  - unfold bind at 1 in HR.
    destruct (generateLoop_effect now u kd n 0 [] (mkRunState s c))
      as (new & Hk & Hr & _ & Ho).
    destruct (generateLoop _ _ _ _ _ _ _) as [o st1].
    cbn [fst snd rs_store] in Hk, Hr, Ho.
    destruct o as [ks|r0|e]; [|contradiction|eapply Herr; eauto].
    destruct Ho as [-> Hlen]. cbn [app] in HR.
    unfold bind at 1, storage at 1 in HR.
    destruct (storageFault _ _); [eapply Herr; eauto|].
    unfold updateResellerCredits, getReseller in HR.
    rewrite Hr in HR. fold (getReseller s u) in HR. rewrite Hres in HR.
    unfold ret in HR. exists new. subst s'. rewrite HR.
    cbn [fst snd rs_store keys]. split; [exact Hk|].
    split; [reflexivity|]. split; [rewrite Hlen; reflexivity|].
    exists r. split; [reflexivity|]. split; [exact Hge|].
    split.
    { unfold getReseller. cbn [resellers].
      apply getReseller_update_same. exact Hres. }
    split; [reflexivity|].
    intros id Hne. unfold getReseller. cbn [resellers].
    apply getReseller_update_other. exact Hne.
  - unfold bind at 1 in HR.
    destruct (generateLoop_effect now u kd patience 0 [] (mkRunState s c))
      as (new & Hk & Hr & _ & Ho).
    destruct (generateLoop _ _ _ _ _ _ _) as [o st1].
    cbn [fst snd rs_store] in Hk, Hr, Ho.
    destruct o as [ks|r0|e]; [|contradiction|eapply Herr; eauto].
    destruct Ho as [_ Hlen]. unfold respond in HR.
    exists new. subst s'. rewrite HR. cbn [fst snd].
    split; [exact Hk|]. split; [exact Hr|]. split; [reflexivity|].
    split; [exact Hlen|]. exists r. split; [reflexivity|exact Hge].
Qed.

(** The check passes when no custom key string is given or the store
    does not hold it, and the store answers. *)
Lemma checkCustomKey_pass (kd : KeyData) (st : RunState) :
  (forall call s, storageFault call s = None) ->
  match customKeyString kd with
  | Some custom => getKey (rs_store st) custom = None
  | None => True
  end ->
  checkCustomKey kd st = (Value tt, st).
Proof.
  intros Hf Hc. unfold checkCustomKey. destruct st as [s c].
  destruct (customKeyString kd) as [custom|]; [|reflexivity].
  unfold bind, storage, ret. rewrite Hf. cbn [rs_store rs_rand] in *.
  rewrite Hc. reflexivity.
Qed.

(** The answers of the generation route on its refusal paths; none of
    them touches the store. *)
Lemma postKeysGenerate_refusals (s : Store) (c : nat) (now : Time) (u : Z)
    (body : GenerateBody) :
  let R := postKeysGenerate s c now u body in
  let st0 := mkRunState s c in
  (forall e, insertKeySchema now body = inl e -> R = (GenError 400 e, st0)) /\
  (forall kd,
      insertKeySchema now body = inr kd ->
      (gameEnum (kd_game kd) = false ->
       R = (GenError 400 "Invalid game selection", st0)) /\
      (gameEnum (kd_game kd) = true ->
       (forall call s0, storageFault call s0 = None) ->
       (forall custom k,
           customKeyString kd = Some custom -> getKey s custom = Some k ->
           R = (GenError 400 "This key already exists", st0)) /\
       (match customKeyString kd with
        | Some custom => getKey s custom = None
        | None => True
        end ->
        (getReseller s u = None ->
         R = (GenError 404 "Reseller not found", st0)) /\
        (forall r,
            getReseller s u = Some r ->
            numLt (credits r) (requestedCount body) = true ->
            R = (GenError 400 "Insufficient credits", st0))))).
Proof.
  intros R st0. subst R st0. unfold postKeysGenerate, generateTry. split.
  { intros e ->. reflexivity. }
  intros kd ->. split.
  { intros ->. reflexivity. }
  intros -> Hf. cbn [negb]. split.
  - intros custom k Hc Hk. unfold bind at 1, checkCustomKey.
    rewrite Hc. unfold bind, storage. rewrite Hf. cbn [rs_store rs_rand].
    rewrite Hk. reflexivity.
  - intros Hc. split; [intros Hres|intros r Hres Hlt];
      unfold bind at 1;
      rewrite (checkCustomKey_pass kd (mkRunState s c) Hf Hc);
      unfold bind at 1, storage at 1; rewrite Hf; cbn [rs_store rs_rand];
      rewrite Hres; [reflexivity|].
    rewrite Hlt. reflexivity.
Qed.

(** C3 (amended). Whatever the request, the parsers and the faults of
    the store: the run only appends keys to the key table; when it
    answers with the created keys they are the keys it appended and the
    other resellers are as before, and when moreover [count] is an
    integer [n] and the balance of the reseller an integer [b], it
    appended exactly [n] keys, [b] was at least [n], the balance is now
    [b - n], which is also the remaining credits of the answer, and the
    [n] credits taken do not exceed the number of keys created. When the
    run answers with an error, on whichever path (a key creation or the
    credit update that fails midway included), or does not answer, the
    reseller table is unchanged. A body that does not parse, a game
    outside the enum, a custom key string the store holds, a reseller
    that does not exist and a balance below [count] are each answered
    with their error, with the store untouched. [count] is
    [req.body.count || 1]. *)
Theorem credit_conservation (s : Store) (c : nat) (now : Time) (u : Z)
    (body : GenerateBody) :
  let R := postKeysGenerate s c now u body in
  let s' := rs_store (snd R) in
  let st0 := mkRunState s c in
  let count := requestedCount body in
  (exists new : list Key,
    keys s' = keys s ++ new /\
    match fst R with
    | GenCreated ks rem =>
        ks = new /\
        exists r r',
          getReseller s u = Some r /\ getReseller s' u = Some r' /\
          (forall id, id <> u -> getReseller s' id = getReseller s id) /\
          credits r' = numSub (credits r) count /\
          rem = numSub (credits r) count /\
          forall n b : Z,
            count = numOfZ n -> credits r = numOfZ b ->
            List.length new = Z.to_nat n /\ n <= b /\
            credits r' = numOfZ (b - n) /\ rem = numOfZ (b - n) /\
            b - (b - n) <= Z.of_nat (List.length new)
    | GenError _ _ => resellers s' = resellers s
    | GenNoAnswer => resellers s' = resellers s /\ count = PosInfinity
    end) /\
  (forall e, insertKeySchema now body = inl e -> R = (GenError 400 e, st0)) /\
  (forall kd,
      insertKeySchema now body = inr kd ->
      (gameEnum (kd_game kd) = false ->
       R = (GenError 400 "Invalid game selection", st0)) /\
      (gameEnum (kd_game kd) = true ->
       (forall call s0, storageFault call s0 = None) ->
       (forall custom k,
           customKeyString kd = Some custom -> getKey s custom = Some k ->
           R = (GenError 400 "This key already exists", st0)) /\
       (match customKeyString kd with
        | Some custom => getKey s custom = None
        | None => True
        end ->
        (getReseller s u = None ->
         R = (GenError 404 "Reseller not found", st0)) /\
        (forall r,
            getReseller s u = Some r ->
            (numLt (credits r) count = true ->
             R = (GenError 400 "Insufficient credits", st0)) /\
            (forall n b : Z,
                count = numOfZ n -> credits r = numOfZ b -> b < n ->
                R = (GenError 400 "Insufficient credits", st0)))))).
Proof.
  intros R s' st0 count. split.
  - destruct (postKeysGenerate_effect s c now u body) as (new & Hk & Hm).
    fold R s' count in Hk, Hm. exists new. split; [exact Hk|].
    destruct (fst R) as [e m|ks rem|].
    + exact Hm.
    + destruct Hm as (-> & Hit & r & Hr & Hge & Hr' & -> & Hother).
      split; [reflexivity|].
      exists r, (addCredits (numNeg count) r).
      split; [exact Hr|]. split; [exact Hr'|]. split; [exact Hother|].
      split; [reflexivity|]. split; [reflexivity|].
      intros n b Hn Hb. cbn [addCredits credits].
      rewrite Hn, Hb in *. rewrite iterations_ofZ in Hit.
      rewrite numLt_ofZ in Hge. injection Hit as Hlen.
      fold (numSub (numOfZ b) (numOfZ n)). rewrite numSub_ofZ.
      rewrite <- Hlen.
      destruct (Z.ltb_spec b n); [discriminate Hge|].
      repeat split; lia.
    + destruct Hm as (Hr & Hit & _). split; [exact Hr|].
      destruct count; try discriminate Hit. reflexivity.
  - destruct (postKeysGenerate_refusals s c now u body) as [Hparse Hrest].
    fold R st0 in Hparse, Hrest. split; [exact Hparse|].
    intros kd Hkd. destruct (Hrest kd Hkd) as [Hgame Hok].
    split; [exact Hgame|]. intros Hg Hf.
    destruct (Hok Hg Hf) as [Hcustom Hpass]. split; [exact Hcustom|].
    intros Hc. destruct (Hpass Hc) as [Hnone Hlow]. split; [exact Hnone|].
    intros r Hr. fold count in Hlow. split; [exact (Hlow r Hr)|].
    intros n b Hn Hb Hlt. apply (Hlow r Hr).
    rewrite Hn, Hb, numLt_ofZ. apply Z.ltb_lt. exact Hlt.
Qed.

Lemma requestedCount_default (body : GenerateBody) :
  (exists x, body_count body = CountOther false x) \/
  body_count body = CountNumber (numOfZ 0) ->
  requestedCount body = numOfZ 1.
Proof. unfold requestedCount. intros [[x ->] | ->]; reflexivity. Qed.

(** C10. A request that parses, names a game of the enum, brings no
    custom key string the store already holds, comes from a reseller
    that exists, and whose body has no count (or a count that is not a
    number and is falsy) or the count 0, is served (the store answering
    every call) exactly as the same request with count 1: with fewer
    than 1 credit it is refused with "Insufficient credits" and nothing
    changes; otherwise exactly one key is created, the reseller has one
    credit fewer and remainingCredits is the prior balance minus 1. For
    a balance that is the integer [b], fewer than 1 credit is [b < 1]
    and the balance minus 1 is [b - 1]. *)
Theorem default_count_is_one (s : Store) (c : nat) (now : Time) (u : Z)
    (body : GenerateBody) (kd : KeyData) (r : Reseller) :
  (exists x, body_count body = CountOther false x) \/
  body_count body = CountNumber (numOfZ 0) ->
  insertKeySchema now body = inr kd ->
  gameEnum (kd_game kd) = true ->
  match customKeyString kd with
  | Some custom => getKey s custom = None
  | None => True
  end ->
  getReseller s u = Some r ->
  (forall call s0, storageFault call s0 = None) ->
  let R := postKeysGenerate s c now u body in
  let ks := match customKeyString kd with
            | Some custom => custom
            | None => fst (generateKeyString (kd_game kd) c)
            end in
  let k := mkKey (nextKeyId s) ks (kd_game kd) u (kd_deviceLimit kd) now
                 (kd_expiryDate kd) false in
  (forall body1,
      body_count body1 = CountNumber (numOfZ 1) ->
      insertKeySchema now body1 = insertKeySchema now body ->
      postKeysGenerate s c now u body1 = R) /\
  (numLt (credits r) (numOfZ 1) = true ->
   R = (GenError 400 "Insufficient credits", mkRunState s c)) /\
  (numLt (credits r) (numOfZ 1) = false ->
   fst R = GenCreated [k] (numSub (credits r) (numOfZ 1)) /\
   keys (rs_store (snd R)) = keys s ++ [k] /\
   devices (rs_store (snd R)) = devices s /\
   getReseller (rs_store (snd R)) u = Some (addCredits (numOfZ (-1)) r) /\
   credits (addCredits (numOfZ (-1)) r) = numSub (credits r) (numOfZ 1)) /\
  (forall b : Z,
      credits r = numOfZ b ->
      (numLt (credits r) (numOfZ 1) = true <-> b < 1) /\
      numSub (credits r) (numOfZ 1) = numOfZ (b - 1)).
Proof.
  intros Hcount Hparse Hgame Hcustom Hres Hf R ks k.
  assert (Hone := requestedCount_default body Hcount).
  split; [|split; [|split]].
  - intros body1 Hc1 Hp1. subst R. unfold postKeysGenerate, generateTry.
    rewrite Hp1.
    assert (H1 : requestedCount body1 = numOfZ 1)
      by (unfold requestedCount; rewrite Hc1; reflexivity).
    rewrite H1, Hone. reflexivity.
  - intros Hlt. subst R. unfold postKeysGenerate, generateTry.
    rewrite Hparse, Hgame. cbn [negb]. unfold bind at 1.
    rewrite (checkCustomKey_pass kd (mkRunState s c) Hf Hcustom).
    unfold bind at 1, storage at 1. rewrite Hf. cbn [rs_store rs_rand].
    rewrite Hres, Hone, Hlt. reflexivity.
  - intros Hge.
    assert (HR : R = (GenCreated [k] (numSub (credits r) (numOfZ 1)),
                      mkRunState
                        (mkStore (keys s ++ [k]) (devices s)
                           (map (fun r' => if reseller_id r' =? u
                                           then addCredits (numOfZ (-1)) r'
                                           else r')
                                (resellers s))
                           (nextKeyId s + 1) (nextDeviceId s))
                        match customKeyString kd with
                        | Some _ => c
                        | None => (c + 3)%nat
                        end)).
    { subst R. unfold postKeysGenerate, generateTry.
      rewrite Hparse, Hgame. cbn [negb]. unfold bind at 1.
      rewrite (checkCustomKey_pass kd (mkRunState s c) Hf Hcustom).
      unfold bind at 1, storage at 1. rewrite Hf. cbn [rs_store rs_rand].
      rewrite Hres, Hone, Hge, iterations_ofZ.
      change (Z.to_nat 1) with 1%nat.
      unfold bind at 1. rewrite generateLoop_step. cbv zeta.
      rewrite Hf. cbn [generateLoop ret Z.eqb rs_rand rs_store app].
      unfold bind at 1, storage at 1. rewrite Hf.
      unfold updateResellerCredits, getReseller.
      cbn [rs_store createKey snd fst resellers].
      fold (getReseller s u). rewrite Hres. reflexivity. }
    rewrite HR. cbn [fst snd rs_store keys devices].
    repeat split.
    unfold getReseller. cbn [resellers].
    apply getReseller_update_same. exact Hres.
  - intros b Hb. rewrite Hb, numLt_ofZ, numSub_ofZ.
    split; [apply Z.ltb_lt|reflexivity].
Qed.

(** ** Revocation *)

Lemma setRevoked_revoked (k : Key) : isRevoked k = true -> setRevoked k = k.
Proof. destruct k; cbn. intros ->. reflexivity. Qed.

Lemma getKey_append (s s' : Store) (new : list Key) (ks : string) (k : Key) :
  keys s' = keys s ++ new ->
  getKey s ks = Some k -> getKey s' ks = Some k.
Proof.
  unfold getKey. intros ->. generalize (keys s) as l.
  induction l as [|a l IH]; cbn; [discriminate|].
  destruct (String.eqb (keyString a) ks); auto.
Qed.

Lemma getKey_revokeKey (s : Store) (id : Z) (ks : string) (k : Key) :
  getKey s ks = Some k ->
  getKey (snd (revokeKey s id)) ks
  = Some (if key_id k =? id then setRevoked k else k).
Proof.
  unfold revokeKey, getKey.
  destruct (find (fun k0 => key_id k0 =? id) (keys s)) eqn:Hid; cbn [snd keys].
  - clear Hid. induction (keys s) as [|a l IH]; cbn; [discriminate|].
    destruct (key_id a =? id) eqn:Ha; cbn [setRevoked keyString];
      destruct (String.eqb (keyString a) ks); auto;
      intros [= <-]; rewrite Ha; reflexivity.
  - intros Hk. rewrite Hk. f_equal.
    destruct (key_id k =? id) eqn:Hkid; [|reflexivity].
    apply find_some in Hk. destruct Hk as [Hin _].
    apply (find_none _ _ Hid) in Hin. congruence.
Qed.

(** No request served by the routes brings a revoked key back. *)
Lemma serve_keeps_revoked (st : RunState) (r : Request) (ks : string)
    (k : Key) :
  getKey (rs_store st) ks = Some k -> isRevoked k = true ->
  getKey (rs_store (serve st r)) ks = Some k.
Proof.
  intros Hk Hrev. destruct r as [now body|now k0 g d|now u body|idParam];
    cbn [serve rs_store].
  - destruct (postVerify_store (rs_store st) now body)
      as [->|(req & k1 & _ & _ & _ & _ & ->)]; exact Hk.
  - rewrite getVerify_store. exact Hk.
  - destruct (postKeysGenerate_effect (rs_store st) (rs_rand st) now u body)
      as (new & Hkeys & _).
    exact (getKey_append _ _ new ks k Hkeys Hk).
  - unfold deleteAdminKey. destruct idParam as [id|]; [|exact Hk].
    pose proof (getKey_revokeKey (rs_store st) id ks k Hk) as H.
    rewrite (setRevoked_revoked k Hrev) in H.
    destruct (key_id k =? id); destruct (revokeKey (rs_store st) id) as [[?|] ?];
      exact H.
Qed.

Lemma serveAll_keeps_revoked (rs : list Request) :
  forall (st : RunState) (ks : string) (k : Key),
    getKey (rs_store st) ks = Some k -> isRevoked k = true ->
    getKey (rs_store (serveAll st rs)) ks = Some k.
Proof.
  induction rs as [|r rs IH]; intros st ks k Hk Hrev; [exact Hk|].
  cbn [serveAll fold_left]. apply IH; [|exact Hrev].
  apply serve_keeps_revoked; assumption.
Qed.

Lemma includes_supported_nonempty (g : string) :
  includes supportedGames g = true -> emptyStr g = false.
Proof.
  unfold includes, supportedGames, emptyStr. cbn [existsb].
  destruct (String.eqb_spec g "") as [->|]; [discriminate|reflexivity].
Qed.

(** C2 (amended). For a key with revoked=true and a request for the
    key's own game, both verification entry points answer invalid with
    "License key has been revoked", whatever the device and the expiry
    date, and leave the store as it is; this holds at once and after
    any sequence of verification, generation and admin deletion
    requests. (The GET route takes games of its list and non-empty
    parameters only.) *)
Theorem revoked_key_stays_invalid (s : Store) (c : nat) (ks : string)
    (k : Key) (rs : list Request) (now : Time) (body : Body)
    (req : VerifyRequest) :
  getKey s ks = Some k ->
  isRevoked k = true ->
  keyVerificationSchema body = inr req ->
  vr_key req = ks ->
  vr_game req = game k ->
  let s' := rs_store (serveAll (mkRunState s c) rs) in
  postVerify s' now body
  = (mkVerifyResponse 200 false "License key has been revoked"
       None None None None, s') /\
  (includes supportedGames (game k) = true ->
   emptyStr ks = false ->
   emptyStr (vr_deviceId req) = false ->
   getVerify s' now ks (game k) (vr_deviceId req)
   = (mkVerifyResponse 200 false "License key has been revoked"
        None None None None, s')).
Proof.
  intros Hk Hrev Hp Hks Hg s'.
  assert (Hk' : getKey s' ks = Some k)
    by (apply serveAll_keeps_revoked; assumption).
  split.
  - unfold postVerify. rewrite Hp, Hks, Hk', Hg, String.eqb_refl, Hrev.
    reflexivity.
  - intros Hin Hne Hd. unfold getVerify.
    rewrite Hne, (includes_supported_nonempty _ Hin), Hd, Hin, Hk',
      String.eqb_refl, Hrev.
    reflexivity.
Qed.

(** ** The two entry points *)

(** C4 (amended). For a request that parses and whose key and device
    id are not empty, evaluated by both entry points on the same store
    at the same instant. When its game is one of the three of the GET
    route's list: in each of the states 1 to 6 (key absent, wrong game,
    revoked, expired, device already bound, device limit reached) POST
    and GET give the same answer, written out below, and leave the store
    as it is; in state 7 POST registers the device and answers valid
    with the new count, while GET answers valid with canRegister and
    the old count and leaves the store as it is. When its game is not
    one of the three, GET answers 400 and leaves the store as it is,
    where POST answers 200 with the verdict of the state machine. *)
Theorem entry_points_agree (s : Store) (now : Time) (body : Body)
    (req : VerifyRequest) :
  keyVerificationSchema body = inr req ->
  emptyStr (vr_key req) = false ->
  emptyStr (vr_deviceId req) = false ->
  let post := postVerify s now body in
  let get := getVerify s now (vr_key req) (vr_game req) (vr_deviceId req) in
  (includes supportedGames (vr_game req) = true ->
   match specState s now req with
   | KeyAbsent =>
       post = get /\
       post = (mkVerifyResponse 200 false "Invalid license key"
                 None None None None, s)
   | WrongGame _ =>
       post = get /\
       post = (mkVerifyResponse 200 false
                 "License key is not valid for this game"
                 None None None None, s)
   | KeyRevoked _ =>
       post = get /\
       post = (mkVerifyResponse 200 false "License key has been revoked"
                 None None None None, s)
   | KeyExpired k =>
       post = get /\
       post = (mkVerifyResponse 200 false "License key has expired"
                 (Some (expiryDate k)) None None None, s)
   | DeviceBound k n =>
       post = get /\
       post = (mkVerifyResponse 200 true "License valid"
                 (Some (expiryDate k)) (Some (deviceLimit k)) (Some n) None,
               s)
   | LimitReached k n =>
       post = get /\
       post = (mkVerifyResponse 200 false
                 "Device limit reached for this license key"
                 (Some (expiryDate k)) (Some (deviceLimit k)) (Some n) None,
               s)
   | Registrable k n =>
       post = (mkVerifyResponse 200 true "License valid"
                 (Some (expiryDate k)) (Some (deviceLimit k)) (Some (n + 1))
                 None,
               withDevice s (key_id k) (vr_deviceId req)) /\
       get = (mkVerifyResponse 200 true
                "License valid, device can be registered"
                (Some (expiryDate k)) (Some (deviceLimit k)) (Some n)
                (Some true),
              s) /\
       post <> get
   end) /\
  (includes supportedGames (vr_game req) = false ->
   status (fst get) = 400 /\ valid (fst get) = false /\ snd get = s /\
   (emptyStr (vr_game req) = false ->
    message (fst get)
    = "Invalid game. Must be one of: PUBG MOBILE, LAST ISLAND OF SURVIVAL, STANDOFF2") /\
   status (fst post) = 200 /\ post <> get).
Proof.
  intros Hp Hk Hd post get. subst post get. split.
  - intros Hg. unfold specState, postVerify, getVerify.
    rewrite Hp, Hk, Hd, Hg, (includes_supported_nonempty _ Hg).
    cbn [orb negb].
    destruct (getKey s (vr_key req)) as [k|]; [|split; reflexivity].
    destruct (negb (String.eqb (game k) (vr_game req)));
      [split; reflexivity|].
    destruct (isRevoked k); [split; reflexivity|].
    destruct (expiryDate k <=? now); [split; reflexivity|].
    cbv zeta.
    destruct (deviceExists _ _) eqn:Hdev; [split; reflexivity|].
    rewrite Z.geb_leb.
    destruct (deviceLimit k <=? _); [split; reflexivity|].
    rewrite (addDevice_unseen _ _ _ Hdev).
    repeat split. discriminate.
  - intros Hg.
    assert (Hget : status (fst (getVerify s now (vr_key req) (vr_game req)
                                  (vr_deviceId req))) = 400 /\
                   valid (fst (getVerify s now (vr_key req) (vr_game req)
                                 (vr_deviceId req))) = false /\
                   snd (getVerify s now (vr_key req) (vr_game req)
                          (vr_deviceId req)) = s /\
                   (emptyStr (vr_game req) = false ->
                    message (fst (getVerify s now (vr_key req) (vr_game req)
                                    (vr_deviceId req)))
                    = "Invalid game. Must be one of: PUBG MOBILE, LAST ISLAND OF SURVIVAL, STANDOFF2")).
    { unfold getVerify. rewrite Hk, Hd, Hg. cbn [orb negb].
      destruct (emptyStr (vr_game req)); cbn [fst snd status valid message];
        repeat split; discriminate. }
    assert (Hpost : status (fst (postVerify s now body)) = 200).
    { unfold postVerify. rewrite Hp.
      destruct (getKey s (vr_key req)) as [k|]; [|reflexivity].
      destruct (negb _); [reflexivity|].
      destruct (isRevoked k); [reflexivity|].
      destruct (expiryDate k <=? now); [reflexivity|].
      cbv zeta.
      destruct (deviceExists _ _) eqn:Hdev; [reflexivity|].
      destruct (_ >=? _); [reflexivity|].
      rewrite (addDevice_unseen _ _ _ Hdev). reflexivity. }
    destruct Hget as (H400 & Hv & Hs & Hm).
    repeat split; try assumption.
    intros Heq. rewrite Heq, H400 in Hpost. discriminate Hpost.
Qed.

(** ** Idempotence *)

(** C5 (amended). For a key that matches the requested game, is not
    revoked and is not expired at either call, and a device already
    bound to it: two successive calls of verify with the same request
    both answer valid with the same device count, the number of devices
    bound to the key, and the store after each call is the store before
    it, so the device is neither registered again nor counted twice. *)
Theorem registered_device_idempotent (s : Store) (now1 now2 : Time)
    (body : Body) (req : VerifyRequest) (k : Key) :
  keyVerificationSchema body = inr req ->
  getKey s (vr_key req) = Some k ->
  game k = vr_game req ->
  isRevoked k = false ->
  now1 < expiryDate k ->
  now2 < expiryDate k ->
  deviceExists (getDevicesByKeyId s (key_id k)) (vr_deviceId req) = true ->
  let n := Z.of_nat (List.length (getDevicesByKeyId s (key_id k))) in
  let r1 := postVerify s now1 body in
  let r2 := postVerify (snd r1) now2 body in
  r1 = (mkVerifyResponse 200 true "License valid" (Some (expiryDate k))
          (Some (deviceLimit k)) (Some n) None, s) /\
  r2 = r1 /\
  getDevicesByKeyId (snd r2) (key_id k) = getDevicesByKeyId s (key_id k).
Proof.
  intros Hp Hk Hg Hr He1 He2 Hd n r1 r2.
  assert (H1 : r1 = (validVerdict k n, s)).
  { subst r1. rewrite (postVerify_live s now1 body req k Hp Hk Hg Hr He1).
    cbv zeta. rewrite Hd. reflexivity. }
  assert (H2 : r2 = (validVerdict k n, s)).
  { subst r2. rewrite H1. cbn [snd].
    rewrite (postVerify_live s now2 body req k Hp Hk Hg Hr He2).
    cbv zeta. rewrite Hd. reflexivity. }
  rewrite H2, H1. repeat split.
Qed.

(** ** Admin deletion *)

Lemma find_revoked (l : list Key) (id : Z) (k : Key) :
  find (fun k0 => key_id k0 =? id) l = Some k ->
  find (fun k0 => key_id k0 =? id)
       (map (fun k' => if key_id k' =? id then setRevoked k' else k') l)
  = Some (setRevoked k).
Proof.
  induction l as [|a l IH]; cbn; [discriminate|].
  destruct (key_id a =? id) eqn:Ha; cbn [setRevoked key_id].
  - rewrite Ha. intros [= ->]. reflexivity.
  - rewrite Ha. exact IH.
Qed.

(** C9 (amended). The admin key-deletion route, applied to the id of an
    existing key, answers "Key revoked successfully" with the key marked
    revoked: the key record stays in the store with its revoked flag
    set, the key table keeps its length and the device table is
    untouched. Applied to an id no key has, it answers 404 "Key not
    found" and changes nothing. *)
Theorem admin_delete_revokes (s : Store) (id : Z) :
  let r := deleteAdminKey s (Some id) in
  match find (fun k => key_id k =? id) (keys s) with
  | Some k =>
      fst r = DelDone "Key revoked successfully" (setRevoked k) /\
      find (fun k' => key_id k' =? id) (keys (snd r)) = Some (setRevoked k) /\
      isRevoked (setRevoked k) = true /\
      List.length (keys (snd r)) = List.length (keys s) /\
      devices (snd r) = devices s
  | None => r = (DelError 404 "Key not found", s)
  end.
Proof.
  intros r. subst r. unfold deleteAdminKey, revokeKey.
  destruct (find (fun k => key_id k =? id) (keys s)) as [k|] eqn:Hf;
    [|reflexivity].
  cbn [fst snd keys devices]. repeat split.
  - apply find_revoked. exact Hf.
  - apply length_map.
Qed.

(** ** Key strings *)

Lemma toUpperChar_segment (c : ascii) :
  isUrlSafe c = true -> isSegmentChar (toUpperChar c) = true.
Proof.
  destruct c as [[] [] [] [] [] [] [] []]; vm_compute;
    intros H; try reflexivity; discriminate H.
Qed.

Lemma toUpperCase_length (x : string) :
  String.length (toUpperCase x) = String.length x.
Proof. induction x as [|c x IH]; cbn; [reflexivity|]. rewrite IH. reflexivity. Qed.

Lemma toUpperCase_segment (x : string) :
  allChars isUrlSafe x = true -> allChars isSegmentChar (toUpperCase x) = true.
Proof.
  induction x as [|c x IH]; cbn [allChars toUpperCase]; [reflexivity|].
  intros H. apply andb_true_iff in H. destruct H as [Hc Hx].
  rewrite (toUpperChar_segment c Hc), (IH Hx). reflexivity.
Qed.

Lemma append_inj_prefix (p x y : string) :
  (p ++ x)%string = (p ++ y)%string -> x = y.
Proof. induction p as [|c p IH]; cbn; [auto|]. intros [= H]. auto. Qed.

Lemma append_inj_length (a b x y : string) :
  String.length a = String.length b ->
  (a ++ x)%string = (b ++ y)%string -> a = b /\ x = y.
Proof.
  revert b. induction a as [|c a IH]; intros [|d b]; cbn; try discriminate.
  - auto.
  - intros [= Hl] [= -> H]. destruct (IH b Hl H) as [-> ->]. auto.
Qed.

Lemma generateKeyString_value (g : string) (c : nat) :
  fst (generateKeyString g c)
  = (gamePrefix g ++ "-" ++ toUpperCase (nanoid c) ++ "-"
     ++ toUpperCase (nanoid (c + 1)) ++ "-"
     ++ toUpperCase (nanoid (c + 2)))%string.
Proof. reflexivity. Qed.

(** Two generated strings are equal only if their segments are. *)
Lemma generateKeyString_inj (g : string) (c1 c2 : nat) :
  (forall m, nanoid5 (nanoid m)) ->
  fst (generateKeyString g c1) = fst (generateKeyString g c2) ->
  segmentsAt c1 = segmentsAt c2.
Proof.
  intros Hn H. rewrite !generateKeyString_value in H.
  assert (Hl : forall m k, String.length (toUpperCase (nanoid m))
                           = String.length (toUpperCase (nanoid k))).
  { intros m k. rewrite !toUpperCase_length.
    destruct (Hn m) as [-> _]. destruct (Hn k) as [-> _]. reflexivity. }
  apply append_inj_prefix in H. apply (append_inj_prefix "-") in H.
  apply append_inj_length in H; [|apply Hl]. destruct H as [H1 H].
  apply (append_inj_prefix "-") in H.
  apply append_inj_length in H; [|apply Hl]. destruct H as [H2 H].
  apply (append_inj_prefix "-") in H.
  unfold segmentsAt. rewrite H1, H2, H. reflexivity.
Qed.

Lemma generateKeyString_format (g : string) (c : nat) :
  nanoid5 (nanoid c) -> nanoid5 (nanoid (c + 1)) ->
  nanoid5 (nanoid (c + 2)) ->
  keyFormat isSegmentChar (gamePrefix g) (fst (generateKeyString g c)).
Proof.
  intros [L1 A1] [L2 A2] [L3 A3].
  exists (toUpperCase (nanoid c)), (toUpperCase (nanoid (c + 1))),
         (toUpperCase (nanoid (c + 2))).
  rewrite !toUpperCase_length.
  repeat split; auto using toUpperCase_segment.
Qed.

Lemma standoff_prefix (c : nat) :
  String.prefix "STDF-" (fst (generateKeyString "STANDOFF2" c)) = true.
Proof.
  unfold generateKeyString. cbn.
  destruct (toUpperCase (nanoid c) ++ _)%string; reflexivity.
Qed.

(** When the route answers with created keys, they are the keys of the
    loop. *)
Lemma postKeysGenerate_created (s : Store) (c : nat) (now : Time) (u : Z)
    (body : GenerateBody) (ks : list Key) (rem : Number) :
  fst (postKeysGenerate s c now u body) = GenCreated ks rem ->
  exists kd st1 n,
    insertKeySchema now body = inr kd /\
    iterations (requestedCount body) = Some n /\
    generateLoop now u kd n 0 [] (mkRunState s c) = (Value ks, st1).
Proof.
  unfold postKeysGenerate, generateTry.
  destruct (insertKeySchema now body) as [e|kd]; [discriminate|].
  destruct (negb (gameEnum (kd_game kd))); [discriminate|].
  unfold bind at 1.
  destruct (checkCustomKey_effect kd (mkRunState s c)) as [Hst Hout].
  destruct (checkCustomKey kd _) as [o st0]. cbn [fst snd] in Hst, Hout.
  subst st0.
  destruct o as [_|r|e]; [|destruct Hout as [-> _]; discriminate|discriminate].
  unfold bind at 1, storage at 1. cbn [rs_store rs_rand].
  destruct (storageFault _ _); [discriminate|].
  destruct (getReseller s u) as [r|]; [|discriminate].
  destruct (numLt (credits r) (requestedCount body)); [discriminate|].
  destruct (iterations (requestedCount body)) as [n|].
  - unfold bind at 1.
    destruct (generateLoop_effect now u kd n 0 [] (mkRunState s c))
      as (new & _ & _ & _ & Ho).
    destruct (generateLoop _ _ _ _ _ _ _) as [o st1] eqn:Hloop.
    cbn [fst] in Ho.
    destruct o as [ks0|r0|e]; [|contradiction|discriminate].
    unfold bind at 1, storage at 1.
    destruct (storageFault _ _); [discriminate|].
    destruct (updateResellerCredits _ _ _) as [e|[a s2]]; [discriminate|].
    cbn. intros H. injection H as <- _. exists kd, st1, n.
    split; [reflexivity|]. split; [reflexivity|exact Hloop].
  - unfold bind at 1.
    destruct (generateLoop_effect now u kd patience 0 [] (mkRunState s c))
      as (new & _ & _ & _ & Ho).
    destruct (generateLoop _ _ _ _ _ _ _) as [o st1].
    cbn [fst] in Ho.
    destruct o as [ks0|r0|e]; [|contradiction|]; cbn; discriminate.
Qed.


Lemma supported_prefix_length (g : string) :
  In g supportedGames -> String.length (gamePrefix g) = 4%nat.
Proof.
  unfold supportedGames. cbn [In].
  intros [<-|[<-|[<-|[]]]]; reflexivity.
Qed.

(** C8 (amended). With [nanoid(5)] returning five characters of its
    alphabet: for each of the three supported games the generated string
    is the game's 4-character prefix (STDF for STANDOFF2) followed by
    three 5-character segments, each introduced by a hyphen, whose
    characters are uppercase letters, digits, underscores or hyphens.
    The keys of a STANDOFF2 batch have the strings of [loopKeyStrings]:
    without a custom key string all of them are generated and start with
    "STDF-", and they are pairwise distinct when the segment triples
    drawn for them are; with a custom key string the first key carries
    that string as given and the others start with "STDF-". *)
Theorem key_string_format :
  (forall m, nanoid5 (nanoid m)) ->
  (forall g c,
      In g supportedGames ->
      String.length (gamePrefix g) = 4%nat /\
      keyFormat isSegmentChar (gamePrefix g) (fst (generateKeyString g c))) /\
  gamePrefix "STANDOFF2" = "STDF" /\
  (forall s c now u body kd ks rem n,
      insertKeySchema now body = inr kd ->
      kd_game kd = "STANDOFF2" ->
      fst (postKeysGenerate s c now u body) = GenCreated ks rem ->
      iterations (requestedCount body) = Some n ->
      map keyString ks
      = loopKeyStrings (customKeyString kd) "STANDOFF2" true c n /\
      match customKeyString kd with
      | None =>
          Forall (fun k => String.prefix "STDF-" (keyString k) = true) ks /\
          ((forall j1 j2,
               (j1 < n)%nat -> (j2 < n)%nat ->
               segmentsAt (c + 6 * j1) = segmentsAt (c + 6 * j2) ->
               j1 = j2) ->
           NoDup (map keyString ks))
      | Some custom =>
          (n <> 0%nat -> option_map keyString (hd_error ks) = Some custom) /\
          Forall (fun k => String.prefix "STDF-" (keyString k) = true) (tl ks)
      end).
Proof.
  intros Hn. split; [|split; [reflexivity|]].
  - intros g c Hg. split; [exact (supported_prefix_length g Hg)|].
    apply generateKeyString_format; apply Hn.
  - intros s c now u body kd ks rem n Hp Hgame Hcreated Hn'.
    destruct (postKeysGenerate_created s c now u body ks rem Hcreated)
      as (kd' & st1 & n' & Hp' & Hit & Hloop).
    rewrite Hp in Hp'. injection Hp' as <-.
    rewrite Hn' in Hit. injection Hit as <-.
    apply generateLoop_strings in Hloop; [|lia].
    cbn [map app Z.eqb rs_rand] in Hloop. rewrite Hgame in Hloop.
    split; [exact Hloop|].
    assert (Hpre : forall (f : nat -> nat) (l : list nat),
               Forall (fun x => String.prefix "STDF-" x = true)
                 (map (fun j => fst (generateKeyString "STANDOFF2" (f j))) l)).
    { intros f l. apply Forall_forall. intros x Hx.
      apply in_map_iff in Hx. destruct Hx as (j & <- & _).
      apply standoff_prefix. }
    unfold loopKeyStrings in Hloop.
    destruct (customKeyString kd) as [custom|].
    + destruct n as [|n'].
      * destruct ks; [|discriminate Hloop]. cbn. split; [congruence|constructor].
      * destruct ks as [|k ks]; [discriminate Hloop|].
        cbn [map] in Hloop. injection Hloop as Hk Hks.
        cbn [hd_error option_map tl]. split; [intros _; congruence|].
        rewrite <- Forall_map with (f := keyString)
                                   (P := fun x => String.prefix "STDF-" x = true).
        rewrite Hks. apply Hpre.
    + split.
      * rewrite <- Forall_map with (f := keyString)
                                   (P := fun x => String.prefix "STDF-" x = true).
        rewrite Hloop. apply Hpre.
      * intros Hdistinct. rewrite Hloop.
        apply NoDup_map_NoDup_ForallPairs; [|apply seq_NoDup].
        intros a b Ha Hb Hab. apply in_seq in Ha, Hb.
        apply (generateKeyString_inj _ _ _ Hn) in Hab.
        replace (c + 0 + 6 * a)%nat with (c + 6 * a)%nat in Hab by lia.
        replace (c + 0 + 6 * b)%nat with (c + 6 * b)%nat in Hab by lia.
        apply Hdistinct; [lia|lia|exact Hab].
Qed.

(** ** Listings and statuses *)

#[local] Set Default Proof Using "Type".

Lemma activeKey_status (now : Time) (k : Key) :
  activeKey now k = String.eqb (keyStatus now k) "ACTIVE".
Proof.
  unfold activeKey, keyStatus. rewrite Z.gtb_ltb.
  destruct (isRevoked k); [reflexivity|]. cbn [negb andb].
  destruct (Z.leb_spec (expiryDate k) now), (Z.ltb_spec now (expiryDate k));
    try reflexivity; lia.
Qed.

Lemma expiredKey_status (now : Time) (k : Key) :
  expiredKey now k = String.eqb (keyStatus now k) "EXPIRED".
Proof.
  unfold expiredKey, keyStatus.
  destruct (isRevoked k); [reflexivity|]. cbn [negb andb].
  destruct (expiryDate k <=? now); reflexivity.
Qed.

Lemma status_partition (now : Time) (ks : list Key) :
  (List.length (filter (activeKey now) ks)
   + List.length (filter (expiredKey now) ks)
   + List.length (filter isRevoked ks))%nat
  = List.length ks.
Proof.
  induction ks as [|k ks IH]; [reflexivity|].
  cbn [filter]. rewrite activeKey_status, expiredKey_status.
  unfold keyStatus.
  destruct (isRevoked k); [|destruct (expiryDate k <=? now)];
    cbn [String.eqb Ascii.eqb Bool.eqb List.length]; lia.
Qed.

(** X1. The profile of a reseller counts each of its keys once: active,
    expired and revoked keys add up to the total, so active plus expired
    never exceeds it; a reseller that does not exist gets 404. *)
Theorem profile_counts_partition (s : Store) (now : Time) (userId : Z) :
  match getResellerProfile s now userId with
  | Sent p =>
      (pf_activeKeys p + pf_expiredKeys p
       + List.length (filter isRevoked
                        (getKeysByResellerId s (pf_id p))))%nat
      = pf_totalKeys p /\
      (pf_activeKeys p + pf_expiredKeys p <= pf_totalKeys p)%nat /\
      option_map credits (getReseller s userId) = Some (pf_credits p)
  | Refused st _ => st = 404 /\ getReseller s userId = None
  end.
Proof.
  unfold getResellerProfile.
  destruct (getReseller s userId) as [r|]; [|auto].
  cbn [pf_activeKeys pf_expiredKeys pf_totalKeys pf_id pf_credits option_map].
  pose proof (status_partition now (getKeysByResellerId s (reseller_id r))).
  repeat split; lia.
Qed.

(** X2. The status shown for a key and the verdict of a verification
    agree: for a request that finds the key and asks for its game, the
    status is REVOKED exactly when the verdict is the revoked one,
    EXPIRED exactly when it is the expired one, and ACTIVE exactly when
    the verdict is valid or the device limit is reached. *)
Theorem status_matches_verdict (s : Store) (now : Time) (body : Body)
    (req : VerifyRequest) (k : Key) :
  keyVerificationSchema body = inr req ->
  getKey s (vr_key req) = Some k ->
  game k = vr_game req ->
  let r := fst (postVerify s now body) in
  let n := Z.of_nat (List.length (getDevicesByKeyId s (key_id k))) in
  (keyStatus now k = "REVOKED"
   <-> r = invalidVerdict "License key has been revoked") /\
  (keyStatus now k = "EXPIRED" <-> r = expiredVerdict k) /\
  (keyStatus now k = "ACTIVE"
   <-> (valid r = true \/ r = limitVerdict k n)).
Proof.
  intros Hp Hk Hg r n. subst r. unfold postVerify, keyStatus.
  rewrite Hp, Hk, Hg, String.eqb_refl. cbn [negb].
  destruct (isRevoked k).
  { cbn [fst]. repeat split; intros H; try discriminate H; auto.
    destruct H as [H|H]; discriminate H. }
  destruct (expiryDate k <=? now).
  { cbn [fst]. repeat split; intros H; try discriminate H; auto.
    destruct H as [H|H]; discriminate H. }
  cbv zeta. fold n.
  destruct (deviceExists _ _) eqn:Hd.
  { cbn [fst]. repeat split; intros H; try discriminate H; auto. }
  destruct (n >=? deviceLimit k).
  { cbn [fst]. repeat split; intros H; try discriminate H; auto. }
  rewrite (addDevice_unseen _ _ _ Hd). cbn [fst].
  repeat split; intros H; try discriminate H; auto.
Qed.

Lemma length_filter_map {A B} (f : A -> B) (p : B -> bool) (l : list A) :
  List.length (filter p (map f l))
  = List.length (filter (fun x => p (f x)) l).
Proof.
  induction l as [|a l IH]; [reflexivity|]. cbn [map filter].
  destruct (p (f a)); cbn [List.length]; rewrite IH; reflexivity.
Qed.

(** X3. The key counts of the profile, of the admin's reseller list and
    of the reseller's key listing are the same numbers: taken at the
    same instant, the listing has as many rows as the profile's total,
    as many ACTIVE rows as its active keys and as many EXPIRED rows as
    its expired keys, and the admin's list shows that total and that
    number of active keys for the reseller. *)
Theorem listings_agree (s : Store) (now : Time) (r : Reseller) :
  getReseller s (reseller_id r) = Some r ->
  let rows := getResellerKeys s now (reseller_id r) in
  let status := fun row : Key * nat * string => snd row in
  exists p,
    getResellerProfile s now (reseller_id r) = Sent p /\
    List.length rows = pf_totalKeys p /\
    List.length (filter (fun row => String.eqb (status row) "ACTIVE") rows)
    = pf_activeKeys p /\
    List.length (filter (fun row => String.eqb (status row) "EXPIRED") rows)
    = pf_expiredKeys p /\
    (In r (resellers s) ->
     In (r, pf_totalKeys p, pf_activeKeys p) (getAdminResellers s now)).
Proof.
  intros Hr rows status. unfold getResellerProfile. rewrite Hr.
  eexists. split; [reflexivity|].
  cbn [pf_totalKeys pf_activeKeys pf_expiredKeys]. subst rows status.
  unfold getResellerKeys. rewrite length_map, !length_filter_map.
  cbn [snd]. repeat split.
  - f_equal. apply filter_ext. intros k. symmetry. apply activeKey_status.
  - f_equal. apply filter_ext. intros k. symmetry. apply expiredKey_status.
  - intros Hin. unfold getAdminResellers. apply in_map_iff.
    exists r. split; [reflexivity|exact Hin].
Qed.

(** ** Revocation and device removal by the reseller *)

Lemma find_owned (s : Store) (u : Z) (k : Key) :
  In k (keys s) -> resellerId k = u ->
  exists k', find (fun k0 => key_id k0 =? key_id k)
                  (getKeysByResellerId s u) = Some k'.
Proof.
  intros Hin Hu.
  destruct (find _ (getKeysByResellerId s u)) as [k'|] eqn:Hf; [eauto|].
  assert (Hk : In k (getKeysByResellerId s u)).
  { apply filter_In. split; [exact Hin|]. apply Z.eqb_eq. exact Hu. }
  pose proof (find_none _ _ Hf k Hk) as H. cbn beta in H.
  rewrite Z.eqb_refl in H. discriminate H.
Qed.

Lemma find_not_owned (s : Store) (u kid : Z) :
  (forall k, In k (keys s) -> resellerId k = u -> key_id k <> kid) ->
  find (fun k0 => key_id k0 =? kid) (getKeysByResellerId s u) = None.
Proof.
  intros H.
  destruct (find _ (getKeysByResellerId s u)) as [k|] eqn:Hf; [|reflexivity].
  apply find_some in Hf. destruct Hf as [Hin Hid].
  apply filter_In in Hin. destruct Hin as [Hin Hu].
  exfalso. apply (H k Hin); [apply Z.eqb_eq; exact Hu|].
  apply Z.eqb_eq. exact Hid.
Qed.

Lemma getKey_In (s : Store) (ks : string) (k : Key) :
  getKey s ks = Some k -> In k (keys s).
Proof. intros H. apply find_some in H. destruct H as [H _]. exact H. Qed.

Lemma revoke_map_idempotent (kid : Z) (l : list Key) :
  let f := fun k' => if key_id k' =? kid then setRevoked k' else k' in
  map f (map f l) = map f l.
Proof.
  intros f. rewrite map_map. apply map_ext. intros k. subst f. cbn beta.
  destruct (key_id k =? kid) eqn:Hk; [|rewrite Hk; reflexivity].
  cbn [setRevoked key_id]. rewrite Hk. reflexivity.
Qed.

Lemma revokeKey_store (s : Store) (kid : Z) :
  snd (revokeKey s kid) = s \/
  snd (revokeKey s kid)
  = mkStore (map (fun k' => if key_id k' =? kid then setRevoked k' else k')
                 (keys s))
            (devices s) (resellers s) (nextKeyId s) (nextDeviceId s).
Proof.
  unfold revokeKey. destruct (find _ (keys s)); [right|left]; reflexivity.
Qed.

Lemma postResellerRevoke_store (s : Store) (u : Z) (idParam : option Z) :
  snd (postResellerRevoke s u idParam) = s \/
  exists kid,
    idParam = Some kid /\
    snd (postResellerRevoke s u idParam) = snd (revokeKey s kid).
Proof.
  unfold postResellerRevoke. destruct idParam as [kid|]; [|now left].
  destruct (find _ (getKeysByResellerId s u)); [|now left].
  right. exists kid. destruct (revokeKey s kid). auto.
Qed.

(** X4. A reseller cannot revoke what is not its own: when none of its
    keys has the given id (or the id is not a number) the revoke route
    answers 404 and the store is unchanged, whoever else owns a key with
    that id. *)
Theorem reseller_revoke_isolated (s : Store) (u : Z) (idParam : option Z) :
  (forall k, In k (keys s) -> resellerId k = u ->
             Some (key_id k) <> idParam) ->
  postResellerRevoke s u idParam
  = (Refused 404 "Key not found or does not belong to you", s).
Proof.
  intros H. unfold postResellerRevoke.
  destruct idParam as [kid|]; [|reflexivity].
  rewrite find_not_owned; [reflexivity|].
  intros k Hin Hu Hid. apply (H k Hin Hu). congruence.
Qed.

(** X5. When a reseller revokes one of its keys, the route answers with
    a revoked key of that id, a verification of the key for its game is
    from then on answered "License key has been revoked", devices and
    resellers are untouched, keys with another id are found as before,
    and revoking the key again leaves the store as it is. *)
Theorem reseller_revoke_invalidates (s : Store) (u : Z) (now : Time)
    (body : Body) (req : VerifyRequest) (k : Key) :
  keyVerificationSchema body = inr req ->
  getKey s (vr_key req) = Some k ->
  game k = vr_game req ->
  resellerId k = u ->
  let r := postResellerRevoke s u (Some (key_id k)) in
  (exists k', fst r = Sent (Some (setRevoked k')) /\ key_id k' = key_id k) /\
  postVerify (snd r) now body
  = (invalidVerdict "License key has been revoked", snd r) /\
  devices (snd r) = devices s /\
  resellers (snd r) = resellers s /\
  (forall ks' k', getKey s ks' = Some k' -> key_id k' <> key_id k ->
                  getKey (snd r) ks' = Some k') /\
  snd (postResellerRevoke (snd r) u (Some (key_id k))) = snd r.
Proof.
  intros Hp Hk Hg Hu r.
  destruct (find_owned s u k (getKey_In _ _ _ Hk) Hu) as [k1 Hk1].
  assert (Hall : exists k0, find (fun k' => key_id k' =? key_id k) (keys s)
                            = Some k0).
  { destruct (find (fun k' => key_id k' =? key_id k) (keys s)) eqn:Hf;
      [eauto|].
    pose proof (find_none _ _ Hf k (getKey_In _ _ _ Hk)) as H.
    cbn beta in H. rewrite Z.eqb_refl in H. discriminate H. }
  destruct Hall as [k0 Hk0].
  assert (Hr : r = (Sent (Some (setRevoked k0)),
                    snd (revokeKey s (key_id k)))).
  { subst r. unfold postResellerRevoke. rewrite Hk1.
    unfold revokeKey. rewrite Hk0. reflexivity. }
  assert (Hs : snd r
               = mkStore (map (fun k' => if key_id k' =? key_id k
                                         then setRevoked k' else k')
                              (keys s))
                         (devices s) (resellers s)
                         (nextKeyId s) (nextDeviceId s)).
  { rewrite Hr. unfold revokeKey. rewrite Hk0. reflexivity. }
  split.
  { exists k0. rewrite Hr. split; [reflexivity|].
    apply find_some in Hk0. apply Z.eqb_eq. exact (proj2 Hk0). }
  split.
  { pose proof (getKey_revokeKey s (key_id k) _ k Hk) as H.
    rewrite Z.eqb_refl in H. rewrite Hr. cbn [snd].
    unfold postVerify. rewrite Hp, H. cbn [setRevoked game isRevoked].
    rewrite Hg, String.eqb_refl. reflexivity. }
  split; [rewrite Hs; reflexivity|].
  split; [rewrite Hs; reflexivity|].
  split.
  { intros ks' k' Hk' Hne.
    pose proof (getKey_revokeKey s (key_id k) ks' k' Hk') as H.
    destruct (Z.eqb_spec (key_id k') (key_id k)); [contradiction|].
    rewrite Hr. exact H. }
  destruct (postResellerRevoke_store (snd r) u (Some (key_id k)))
    as [H|(kid & Hid & H)]; [exact H|].
  injection Hid as <-. rewrite H.
  destruct (revokeKey_store (snd r) (key_id k)) as [H'|H']; [exact H'|].
  rewrite H'. rewrite Hs at 2. rewrite Hs. cbn [keys devices resellers nextKeyId nextDeviceId].
  rewrite revoke_map_idempotent. reflexivity.
Qed.

Lemma removeDevice_unbound (s : Store) (did : string) (kid : Z) :
  deviceExists (getDevicesByKeyId s kid) did = false ->
  removeDevice s did kid = (false, s).
Proof.
  intros H. unfold removeDevice, getDevicesByKeyId in *.
  rewrite existsb_pair_filter, H. reflexivity.
Qed.

(** The store [removeDevice] leaves when the device is bound. *)
Lemma removeDevice_bound (s : Store) (did : string) (kid : Z) :
  deviceExists (getDevicesByKeyId s kid) did = true ->
  removeDevice s did kid
  = (true,
     mkStore (keys s)
       (filter (fun d => negb ((keyId d =? kid)
                               && String.eqb (deviceId d) did))
               (devices s))
       (resellers s) (nextKeyId s) (nextDeviceId s)).
Proof.
  intros H. unfold removeDevice, getDevicesByKeyId in *.
  rewrite existsb_pair_filter, H. reflexivity.
Qed.

Lemma filter_unbound_devices (l : list Device) (did : string) (kid kid' : Z) :
  filter (fun d => keyId d =? kid')
         (filter (fun d => negb ((keyId d =? kid)
                                 && String.eqb (deviceId d) did)) l)
  = filter (fun d => negb ((kid' =? kid) && String.eqb (deviceId d) did))
           (filter (fun d => keyId d =? kid') l).
Proof.
  induction l as [|d l IH]; [reflexivity|]. cbn [filter].
  destruct (keyId d =? kid') eqn:E.
  - apply Z.eqb_eq in E. subst kid'. cbn [filter].
    destruct (negb ((keyId d =? kid) && String.eqb (deviceId d) did)) eqn:Hb;
      cbn [filter]; rewrite ?Z.eqb_refl, IH; reflexivity.
  - destruct (negb ((keyId d =? kid) && String.eqb (deviceId d) did));
      cbn [filter]; rewrite ?E; exact IH.
Qed.

Lemma deviceExists_filter_out (l : list Device) (did : string) :
  deviceExists (filter (fun d => negb (String.eqb (deviceId d) did)) l) did
  = false.
Proof.
  unfold deviceExists. induction l as [|d l IH]; [reflexivity|].
  cbn [filter]. destruct (String.eqb (deviceId d) did) eqn:Hd; cbn [negb];
    [exact IH|]. cbn [existsb]. rewrite Hd, IH. reflexivity.
Qed.

Lemma deviceExists_filter_le (p : Device -> bool) (l : list Device)
    (did : string) :
  deviceExists l did = false -> deviceExists (filter p l) did = false.
Proof.
  unfold deviceExists. induction l as [|d l IH]; [reflexivity|].
  cbn [existsb filter]. intros H. apply orb_false_iff in H.
  destruct H as [Hd Hl]. destruct (p d); cbn [existsb];
    rewrite ?Hd; auto.
Qed.

Lemma length_filter_out (l : list Device) (did : string) :
  deviceExists l did = true ->
  (List.length (filter (fun d => negb (String.eqb (deviceId d) did)) l)
   < List.length l)%nat.
Proof.
  unfold deviceExists. induction l as [|d l IH]; [discriminate|].
  cbn [existsb filter]. destruct (String.eqb (deviceId d) did); cbn [negb orb].
  - intros _. pose proof (filter_length_le
                            (fun d => negb (String.eqb (deviceId d) did)) l).
    cbn [List.length]. lia.
  - intros H. apply IH in H. cbn [List.length]. lia.
Qed.

Lemma devices_after_removal (s : Store) (did : string) (kid : Z) :
  deviceExists (getDevicesByKeyId s kid) did = true ->
  getDevicesByKeyId (snd (removeDevice s did kid)) kid
  = filter (fun d => negb (String.eqb (deviceId d) did))
           (getDevicesByKeyId s kid).
Proof.
  intros H. rewrite (removeDevice_bound _ _ _ H).
  unfold getDevicesByKeyId. cbn [snd devices].
  rewrite filter_unbound_devices. apply filter_ext.
  intros d. rewrite Z.eqb_refl. reflexivity.
Qed.

(** X6. Removing a bound device frees its slot: when the owner of a live
    key removes one of its devices, the device is no longer bound, the
    key has fewer devices, and (the key having had no more devices than
    its limit) the next verification from an unseen device is answered
    valid. *)
Theorem removal_frees_a_slot (s : Store) (u : Z) (now : Time) (body : Body)
    (req : VerifyRequest) (k : Key) (did : string) :
  keyVerificationSchema body = inr req ->
  getKey s (vr_key req) = Some k ->
  game k = vr_game req ->
  isRevoked k = false ->
  now < expiryDate k ->
  resellerId k = u ->
  deviceExists (getDevicesByKeyId s (key_id k)) did = true ->
  deviceExists (getDevicesByKeyId s (key_id k)) (vr_deviceId req) = false ->
  deviceCount s (key_id k) <= deviceLimit k ->
  let r := postRemoveDevice s u (Some (key_id k)) did in
  fst r = Sent "Device removed successfully" /\
  deviceExists (getDevicesByKeyId (snd r) (key_id k)) did = false /\
  deviceCount (snd r) (key_id k) < deviceCount s (key_id k) /\
  valid (fst (postVerify (snd r) now body)) = true.
Proof.
  intros Hp Hk Hg Hr He Hu Hb Hun Hc r.
  destruct (find_owned s u k (getKey_In _ _ _ Hk) Hu) as [k1 Hk1].
  assert (Hr' : r = (Sent "Device removed successfully",
                     snd (removeDevice s did (key_id k)))).
  { subst r. unfold postRemoveDevice. rewrite Hk1.
    rewrite (removeDevice_bound _ _ _ Hb). reflexivity. }
  pose proof (devices_after_removal s did (key_id k) Hb) as Hdevs.
  pose proof (length_filter_out _ _ Hb) as Hlen.
  rewrite Hr'. cbn [fst snd]. split; [reflexivity|]. split.
  { rewrite Hdevs. apply deviceExists_filter_out. }
  assert (Hcount : deviceCount (snd (removeDevice s did (key_id k))) (key_id k)
                   < deviceCount s (key_id k)).
  { unfold deviceCount. rewrite Hdevs. lia. }
  split; [exact Hcount|].
  assert (Hk' : getKey (snd (removeDevice s did (key_id k))) (vr_key req)
                = Some k).
  { rewrite (removeDevice_bound _ _ _ Hb). exact Hk. }
  rewrite (postVerify_live _ now body req k Hp Hk' Hg Hr He). cbv zeta.
  rewrite Hdevs at 1.
  rewrite (deviceExists_filter_le _ _ _ Hun).
  unfold deviceCount in Hcount, Hc.
  destruct (Z.leb_spec (deviceLimit k)
              (Z.of_nat (List.length
                 (getDevicesByKeyId (snd (removeDevice s did (key_id k)))
                                    (key_id k))))); [lia|reflexivity].
Qed.

(** X7. The removal route refuses what it cannot do and changes nothing
    then: a key that is not the reseller's gives 404 "Key not found or
    does not belong to you"; a device that is not bound to the key gives
    404 "Device not found"; and after a removal the same removal is
    refused with "Device not found". *)
Theorem removal_refusals (s : Store) (u : Z) (idParam : option Z)
    (did : string) :
  let r := postRemoveDevice s u idParam did in
  ((forall k, In k (keys s) -> resellerId k = u ->
              Some (key_id k) <> idParam) ->
   r = (Refused 404 "Key not found or does not belong to you", s)) /\
  (forall k, In k (keys s) -> resellerId k = u -> idParam = Some (key_id k) ->
             deviceExists (getDevicesByKeyId s (key_id k)) did = false ->
             r = (Refused 404 "Device not found", s)) /\
  (fst r = Sent "Device removed successfully" ->
   postRemoveDevice (snd r) u idParam did
   = (Refused 404 "Device not found", snd r)).
Proof.
  intros r. subst r. split; [|split].
  - intros H. unfold postRemoveDevice.
    destruct idParam as [kid|]; [|reflexivity].
    rewrite find_not_owned; [reflexivity|].
    intros k Hin Hu Hid. apply (H k Hin Hu). congruence.
  - intros k Hin Hu -> Hd. unfold postRemoveDevice.
    destruct (find_owned s u k Hin Hu) as [k1 ->].
    rewrite (removeDevice_unbound _ _ _ Hd). reflexivity.
  - unfold postRemoveDevice. destruct idParam as [kid|]; [|discriminate].
    destruct (find _ (getKeysByResellerId s u)) as [k1|] eqn:Hf;
      [|discriminate].
    destruct (deviceExists (getDevicesByKeyId s kid) did) eqn:Hd.
    + rewrite (removeDevice_bound _ _ _ Hd). cbn [negb fst snd]. intros _.
      change (getKeysByResellerId
                (mkStore (keys s) _ (resellers s) (nextKeyId s)
                         (nextDeviceId s)) u)
        with (getKeysByResellerId s u).
      rewrite Hf.
      rewrite removeDevice_unbound; [reflexivity|].
      pose proof (devices_after_removal s did kid Hd) as H.
      rewrite (removeDevice_bound _ _ _ Hd) in H. cbn [snd] in H.
      rewrite H. apply deviceExists_filter_out.
    + rewrite (removeDevice_unbound _ _ _ Hd). discriminate.
Qed.

Lemma filter_keeps_unbound (l : list Device) (did : string) (kid : Z) :
  existsb (fun d => (keyId d =? kid) && String.eqb (deviceId d) did) l = false ->
  filter (fun d => negb ((keyId d =? kid) && String.eqb (deviceId d) did)) l
  = l.
Proof.
  induction l as [|d l IH]; [reflexivity|]. cbn [existsb filter].
  intros H. apply orb_false_iff in H. destruct H as [Hd Hl].
  rewrite Hd. cbn [negb]. rewrite (IH Hl). reflexivity.
Qed.

(** X8. Registering a device through verification and removing it again
    brings the tables back: after a valid first verification of an
    unseen device and its removal by the key's owner, the keys, devices
    and resellers of the store are those before the verification. *)
Theorem register_then_remove (s : Store) (u : Z) (now : Time) (body : Body)
    (req : VerifyRequest) (k : Key) :
  keyVerificationSchema body = inr req ->
  getKey s (vr_key req) = Some k ->
  game k = vr_game req ->
  isRevoked k = false ->
  now < expiryDate k ->
  resellerId k = u ->
  deviceExists (getDevicesByKeyId s (key_id k)) (vr_deviceId req) = false ->
  deviceCount s (key_id k) < deviceLimit k ->
  let r1 := postVerify s now body in
  let r2 := postRemoveDevice (snd r1) u (Some (key_id k)) (vr_deviceId req) in
  valid (fst r1) = true /\
  deviceExists (getDevicesByKeyId (snd r1) (key_id k)) (vr_deviceId req)
  = true /\
  fst r2 = Sent "Device removed successfully" /\
  keys (snd r2) = keys s /\
  devices (snd r2) = devices s /\
  resellers (snd r2) = resellers s.
Proof.
  intros Hp Hk Hg Hr He Hu Hun Hc r1 r2.
  assert (H1 : r1 = (validVerdict k (deviceCount s (key_id k) + 1),
                     withDevice s (key_id k) (vr_deviceId req))).
  { subst r1. rewrite (postVerify_live s now body req k Hp Hk Hg Hr He).
    cbv zeta. rewrite Hun. unfold deviceCount in *.
    destruct (Z.leb_spec (deviceLimit k)
                (Z.of_nat (List.length (getDevicesByKeyId s (key_id k)))));
      [lia|reflexivity]. }
  assert (Hb : deviceExists
                 (getDevicesByKeyId (withDevice s (key_id k) (vr_deviceId req))
                                    (key_id k)) (vr_deviceId req) = true).
  { rewrite devices_withDevice, deviceExists_app. cbn [deviceId].
    rewrite String.eqb_refl. apply orb_true_r. }
  destruct (find_owned s u k (getKey_In _ _ _ Hk) Hu) as [k1 Hk1].
  assert (H2 : r2 = (Sent "Device removed successfully",
                     snd (removeDevice
                            (withDevice s (key_id k) (vr_deviceId req))
                            (vr_deviceId req) (key_id k)))).
  { subst r2. rewrite H1. cbn [snd]. unfold postRemoveDevice.
    change (getKeysByResellerId (withDevice s (key_id k) (vr_deviceId req)) u)
      with (getKeysByResellerId s u).
    rewrite Hk1, (removeDevice_bound _ _ _ Hb). reflexivity. }
  rewrite H2, H1. cbn [fst snd]. rewrite (removeDevice_bound _ _ _ Hb).
  cbn [snd keys devices resellers withDevice].
  repeat split; try exact Hb.
  rewrite filter_app. cbn [filter keyId deviceId].
  rewrite Z.eqb_refl, String.eqb_refl. cbn [andb negb].
  rewrite app_nil_r. apply filter_keeps_unbound.
  rewrite existsb_pair_filter. exact Hun.
Qed.

(** ** The device limit along a history *)

Lemma NoDup_map_injective {A B} (f : A -> B) (l : list A) (a b : A) :
  NoDup (map f l) -> In a l -> In b l -> f a = f b -> a = b.
Proof.
  induction l as [|x l IH]; cbn [map In]; [intros _ []|].
  intros Hnd Ha Hb Hab. apply NoDup_cons_iff in Hnd. destruct Hnd as [Hx Hnd].
  destruct Ha as [->|Ha], Hb as [->|Hb]; auto.
  - exfalso. apply Hx. rewrite Hab. apply in_map. exact Hb.
  - exfalso. apply Hx. rewrite <- Hab. apply in_map. exact Ha.
Qed.

Lemma wellFormed_same_keys_devices (s s' : Store) :
  keys s' = keys s -> devices s' = devices s ->
  nextKeyId s' = nextKeyId s ->
  wellFormed s -> wellFormed s'.
Proof.
  unfold wellFormed, deviceCount, getDevicesByKeyId.
  intros -> -> ->. auto.
Qed.

Lemma wellFormed_withDevice (s : Store) (k : Key) (did : string) :
  wellFormed s -> In k (keys s) ->
  deviceCount s (key_id k) < deviceLimit k ->
  wellFormed (withDevice s (key_id k) did).
Proof.
  intros (Hnd & Hk & Hd & Hc) Hin Hlt.
  unfold wellFormed. cbn [withDevice keys devices nextKeyId].
  split; [exact Hnd|]. split; [exact Hk|]. split.
  - intros d Hdin. apply in_app_iff in Hdin. destruct Hdin as [Hdin|[<-|[]]];
      [apply Hd; exact Hdin|]. cbn [keyId]. apply Hk. exact Hin.
  - intros k' Hin'. unfold deviceCount.
    destruct (Z.eq_dec (key_id k') (key_id k)) as [Heq|Hne].
    + assert (k' = k) by (apply (NoDup_map_injective key_id (keys s)); auto).
      subst k'. rewrite devices_withDevice, length_app. cbn [List.length].
      unfold deviceCount in Hlt. lia.
    + rewrite devices_withDevice_other by exact Hne. apply Hc. exact Hin'.
Qed.

Lemma wellFormed_revokeKey (s : Store) (kid : Z) :
  wellFormed s -> wellFormed (snd (revokeKey s kid)).
Proof.
  intros Hwf. destruct (revokeKey_store s kid) as [->| ->]; [exact Hwf|].
  destruct Hwf as (Hnd & Hk & Hd & Hc).
  set (f := fun k' => if key_id k' =? kid then setRevoked k' else k').
  assert (Hid : forall k, key_id (f k) = key_id k)
    by (intros k; subst f; cbn beta; destruct (key_id k =? kid); reflexivity).
  assert (Hlim : forall k, deviceLimit (f k) = deviceLimit k)
    by (intros k; subst f; cbn beta; destruct (key_id k =? kid); reflexivity).
  unfold wellFormed. cbn [keys devices nextKeyId]. split.
  { rewrite map_map. rewrite (map_ext _ key_id Hid). exact Hnd. }
  split.
  { intros k Hin. apply in_map_iff in Hin. destruct Hin as (k0 & <- & Hin).
    rewrite Hid. apply Hk. exact Hin. }
  split; [exact Hd|].
  intros k Hin. apply in_map_iff in Hin. destruct Hin as (k0 & <- & Hin).
  rewrite Hid, Hlim. exact (Hc k0 Hin).
Qed.

Lemma wellFormed_removeDevice (s : Store) (did : string) (kid : Z) :
  wellFormed s -> wellFormed (snd (removeDevice s did kid)).
Proof.
  intros Hwf. unfold removeDevice.
  destruct (existsb _ (devices s)); [|exact Hwf].
  destruct Hwf as (Hnd & Hk & Hd & Hc).
  unfold wellFormed. cbn [snd keys devices nextKeyId].
  split; [exact Hnd|]. split; [exact Hk|]. split.
  - intros d Hin. apply filter_In in Hin. apply Hd. exact (proj1 Hin).
  - intros k Hin. specialize (Hc k Hin). unfold deviceCount in *.
    unfold getDevicesByKeyId in *. cbn [devices].
    rewrite filter_unbound_devices.
    pose proof (filter_length_le
                  (fun d => negb ((key_id k =? kid)
                                  && String.eqb (deviceId d) did))
                  (filter (fun d => keyId d =? key_id k) (devices s))).
    lia.
Qed.

Lemma wellFormed_createKey (s : Store) (now : Time) (ik : InsertKey) :
  wellFormed s -> wellFormed (snd (createKey s now ik)).
Proof.
  intros (Hnd & Hk & Hd & Hc).
  unfold wellFormed. cbn [createKey snd keys devices nextKeyId].
  split.
  { rewrite map_app. cbn [map key_id].
    apply NoDup_app; [exact Hnd|repeat constructor; intros []|].
    intros x Hx [<-|[]]. apply in_map_iff in Hx.
    destruct Hx as (k & Heq & Hin). specialize (Hk k Hin). lia. }
  split.
  { intros k Hin. apply in_app_iff in Hin. destruct Hin as [Hin|[<-|[]]].
    - specialize (Hk k Hin). lia.
    - cbn [key_id]. lia. }
  split.
  { intros d Hin. specialize (Hd d Hin). lia. }
  intros k Hin. apply in_app_iff in Hin. destruct Hin as [Hin|[<-|[]]].
  - exact (Hc k Hin).
  - cbn [key_id deviceLimit]. unfold deviceCount, getDevicesByKeyId.
    cbn [devices].
    assert (Hnone : filter (fun d => keyId d =? nextKeyId s) (devices s) = []).
    { clear -Hd. induction (devices s) as [|d l IH]; [reflexivity|].
      cbn [filter].
      destruct (Z.eqb_spec (keyId d) (nextKeyId s)) as [E|_].
      - specialize (Hd d (or_introl eq_refl)). lia.
      - apply IH. intros d' Hin. apply Hd. right. exact Hin. }
    rewrite Hnone. cbn [List.length]. lia.
Qed.

(** A property of stores that key creation keeps is kept by the loop. *)
Lemma generateLoop_preserves (P : Store -> Prop) (now : Time) (u : Z)
    (kd : KeyData) (n : nat) :
  (forall s t ik, P s -> P (snd (createKey s t ik))) ->
  forall (i : Z) (acc : list Key) (st : RunState),
    P (rs_store st) ->
    P (rs_store (snd (generateLoop now u kd n i acc st))).
Proof.
  intros Hc. induction n as [|n IH]; intros i acc st HP; [exact HP|].
  rewrite generateLoop_step. cbv zeta.
  destruct (storageFault _ _); [exact HP|].
  apply IH. cbn [rs_store]. apply Hc. exact HP.
Qed.

(** A property of stores that key creation and the credit update keep is
    kept by the generation route. *)
Lemma postKeysGenerate_preserves (P : Store -> Prop) (s : Store) (c : nat)
    (now : Time) (u : Z) (body : GenerateBody) :
  (forall s0 t ik, P s0 -> P (snd (createKey s0 t ik))) ->
  (forall s0 id delta r s1,
      P s0 -> updateResellerCredits s0 id delta = inr (r, s1) -> P s1) ->
  P s ->
  P (rs_store (snd (postKeysGenerate s c now u body))).
Proof.
  intros Hc Hu HP. unfold postKeysGenerate, generateTry.
  destruct (insertKeySchema now body) as [e|kd]; [exact HP|].
  destruct (negb (gameEnum (kd_game kd))); [exact HP|].
  unfold bind at 1.
  destruct (checkCustomKey_effect kd (mkRunState s c)) as [Hst _].
  destruct (checkCustomKey kd _) as [o st0]. cbn [snd] in Hst. subst st0.
  destruct o as [_|r|e]; [|exact HP|exact HP].
  unfold bind at 1, storage at 1. cbn [rs_store rs_rand].
  destruct (storageFault _ _); [exact HP|].
  destruct (getReseller s u) as [r|]; [|exact HP].
  destruct (numLt (credits r) (requestedCount body)); [exact HP|].
  destruct (iterations (requestedCount body)) as [n|].
  - unfold bind at 1.
    pose proof (generateLoop_preserves P now u kd n Hc 0 []
                  (mkRunState s c) HP) as Hloop.
    destruct (generateLoop _ _ _ _ _ _ _) as [o st1]. cbn [snd] in Hloop.
    destruct o as [ks|r0|e]; [|exact Hloop|exact Hloop].
    unfold bind at 1, storage at 1.
    destruct (storageFault _ _); [exact Hloop|].
    destruct (updateResellerCredits _ _ _) as [e|[a s2]] eqn:Hupd;
      [exact Hloop|].
    cbn [ret snd rs_store]. exact (Hu _ _ _ _ _ Hloop Hupd).
  - unfold bind at 1.
    pose proof (generateLoop_preserves P now u kd patience Hc 0 []
                  (mkRunState s c) HP) as Hloop.
    destruct (generateLoop _ _ _ _ _ _ _) as [o st1]. cbn [snd] in Hloop.
    destruct o as [ks|r0|e]; exact Hloop.
Qed.

Lemma wellFormed_updateResellerCredits (s : Store) (id : Z) (delta : Number)
    (r : Reseller) (s1 : Store) :
  wellFormed s -> updateResellerCredits s id delta = inr (r, s1) ->
  wellFormed s1.
Proof.
  intros Hwf. unfold updateResellerCredits.
  destruct (getReseller s id); [|discriminate].
  intros [= _ <-]. revert Hwf. apply wellFormed_same_keys_devices; reflexivity.
Qed.

Lemma serve_wellFormed (st : RunState) (r : Request) :
  wellFormed (rs_store st) -> wellFormed (rs_store (serve st r)).
Proof.
  intros Hwf. destruct r as [now body|now k g d|now u body|idParam];
    cbn [serve rs_store].
  - destruct (postVerify_store (rs_store st) now body)
      as [->|(req & k & _ & Hk & _ & Hlt & ->)]; [exact Hwf|].
    apply wellFormed_withDevice;
      [exact Hwf|exact (getKey_In _ _ _ Hk)|exact Hlt].
  - rewrite getVerify_store. exact Hwf.
  - apply postKeysGenerate_preserves;
      [intros; apply wellFormed_createKey; assumption
      |intros; eapply wellFormed_updateResellerCredits; eassumption
      |exact Hwf].
  - unfold deleteAdminKey. destruct idParam as [id|]; [|exact Hwf].
    pose proof (wellFormed_revokeKey (rs_store st) id Hwf) as H.
    destruct (revokeKey (rs_store st) id) as [[?|] ?]; exact H.
Qed.

Lemma perform_wellFormed (st : RunState) (op : Operation) :
  wellFormed (rs_store st) -> wellFormed (rs_store (perform st op)).
Proof.
  intros Hwf.
  destruct op as [r|u idParam|u idParam did|body|idParam flag];
    cbn [perform rs_store].
  - apply serve_wellFormed. exact Hwf.
  - destruct (postResellerRevoke_store (rs_store st) u idParam)
      as [->|(kid & _ & ->)]; [exact Hwf|].
    apply wellFormed_revokeKey. exact Hwf.
  - unfold postRemoveDevice. destruct idParam as [kid|]; [|exact Hwf].
    destruct (find _ _); [|exact Hwf].
    pose proof (wellFormed_removeDevice (rs_store st) did kid Hwf) as H.
    destruct (removeDevice (rs_store st) did kid) as [[|] s']; exact H.
  - unfold postAdminCredits.
    destruct (addCreditsSchema body) as [e|[rid amount]]; [exact Hwf|].
    destruct (getReseller (rs_store st) rid); [|exact Hwf].
    destruct (updateResellerCredits _ _ _) as [e|[r' s1]] eqn:Hupd;
      [exact Hwf|].
    exact (wellFormed_updateResellerCredits _ _ _ _ _ Hwf Hupd).
  - unfold postToggleStatus. destruct flag as [b|]; [|exact Hwf].
    destruct idParam as [id|]; [|exact Hwf].
    destruct (getReseller (rs_store st) id); [|exact Hwf].
    cbn [updateResellerStatus snd].
    revert Hwf. apply wellFormed_same_keys_devices; reflexivity.
Qed.

Lemma performAll_wellFormed (ops : list Operation) :
  forall st, wellFormed (rs_store st) ->
             wellFormed (rs_store (performAll st ops)).
Proof.
  induction ops as [|op ops IH]; intros st Hwf; [exact Hwf|].
  cbn [performAll fold_left]. apply IH. apply perform_wellFormed. exact Hwf.
Qed.

(** X9. Served one request at a time, the routes never bind more
    devices to a key than its limit allows: from a store where key ids
    are distinct and below the id counter, devices belong to such ids,
    and every key has at most max(0, deviceLimit) devices, every history
    of verifications, generations, revocations, device removals, credit
    grants and status changes leads to a store with the same
    properties. A store with empty key and device tables is such a
    store. *)
Theorem device_limit_kept (s : Store) (c : nat) (ops : list Operation) :
  wellFormed s ->
  let s' := rs_store (performAll (mkRunState s c) ops) in
  wellFormed s' /\
  (forall k, In k (keys s') ->
             Z.of_nat (List.length (getDevicesByKeyId s' (key_id k)))
             <= Z.max 0 (deviceLimit k)) /\
  (forall rs n m, wellFormed (mkStore [] [] rs n m)).
Proof.
  intros Hwf s'.
  assert (H : wellFormed s')
    by (apply performAll_wellFormed; exact Hwf).
  split; [exact H|]. split.
  - destruct H as (_ & _ & _ & Hc). exact Hc.
  - intros rs n m. unfold wellFormed. cbn [keys devices map In].
    repeat split; try (intros ? []). constructor.
Qed.

(** ** Credits *)

(** X10. A credit grant by the admin adds exactly the amount to the
    balance of the reseller (for the integer amount [a] and the integer
    balance [b], the balance becomes [b + a]) and sends the updated row;
    the other resellers, the keys and the devices are untouched. A body
    that does not parse is answered 400 and a reseller that does not
    exist 404, the store staying as it is. *)
Theorem admin_credits_effect (s : Store) (body : CreditsBody) :
  let r := postAdminCredits s body in
  match addCreditsSchema body with
  | inl e => r = (Refused 400 e, s)
  | inr (rid, amount) =>
      match getReseller s rid with
      | None => r = (Refused 404 "Reseller not found", s)
      | Some row =>
          fst r = Sent (addCredits amount row) /\
          credits (addCredits amount row) = numAdd (credits row) amount /\
          (forall a b : Z,
              amount = numOfZ a -> credits row = numOfZ b ->
              credits (addCredits amount row) = numOfZ (b + a)) /\
          getReseller (snd r) rid = Some (addCredits amount row) /\
          (forall id, id <> rid ->
                      getReseller (snd r) id = getReseller s id) /\
          keys (snd r) = keys s /\ devices (snd r) = devices s
      end
  end.
Proof.
  intros r. subst r. unfold postAdminCredits.
  destruct (addCreditsSchema body) as [e|[rid amount]]; [reflexivity|].
  destruct (getReseller s rid) as [row|] eqn:Hrow; [|reflexivity].
  unfold updateResellerCredits. rewrite Hrow. cbn [fst snd keys devices].
  split; [reflexivity|]. split; [reflexivity|]. split.
  { intros a b -> Hb. cbn [addCredits credits]. rewrite Hb.
    apply numAdd_ofZ. }
  split.
  { unfold getReseller. cbn [resellers].
    apply getReseller_update_same. exact Hrow. }
  split; [|split; reflexivity].
  intros id Hne. unfold getReseller. cbn [resellers].
  apply getReseller_update_other. exact Hne.
Qed.

(** X11. The generation route never takes a balance below zero: for
    every request whose count converts to a number (it is not NaN, as
    the count "abc" is), a reseller whose balance is not negative
    before a run has a balance that is not negative after it, whatever
    the parsers and the faults of the store. *)
Theorem generation_keeps_balance_nonnegative (s : Store) (c : nat)
    (now : Time) (u : Z) (body : GenerateBody) (id : Z) (r r' : Reseller) :
  getReseller s id = Some r ->
  getReseller (rs_store (snd (postKeysGenerate s c now u body))) id
  = Some r' ->
  requestedCount body <> NaN ->
  numLe (numOfZ 0) (credits r) = true ->
  numLe (numOfZ 0) (credits r') = true.
Proof.
  intros Hr Hr' Hnum Hpos.
  destruct (postKeysGenerate_effect s c now u body) as (new & _ & Hm).
  cbv zeta in Hm.
  destruct (fst (postKeysGenerate s c now u body)) as [st m|ks rem|].
  - unfold getReseller in Hr'. rewrite Hm in Hr'.
    fold (getReseller s id) in Hr'. congruence.
  - destruct Hm as (_ & Hit & r0 & H0 & Hge & H0' & _ & Hother).
    destruct (Z.eq_dec id u) as [->|Hne].
    + rewrite H0' in Hr'. injection Hr' as <-.
      rewrite Hr in H0. injection H0 as <-.
      cbn [addCredits credits].
      destruct (credits r) as [x| | |], (requestedCount body) as [y| | |];
        cbn in Hpos, Hge, Hit |- *;
        try reflexivity; try discriminate; try contradiction.
      apply negb_false_iff in Hge.
      apply Qle_bool_iff in Hpos, Hge. apply Qle_bool_iff.
      unfold inject_Z in *. lra.
    + rewrite (Hother id Hne) in Hr'. congruence.
  - destruct Hm as (Hm & _). unfold getReseller in Hr'. rewrite Hm in Hr'.
    fold (getReseller s id) in Hr'. congruence.
Qed.

(** X12. The count is read from the raw body, not from the parsed data:
    a request with a negative count that parses and passes the checks
    (the store answering every call) is answered 201 with no key at all,
    and the balance of the reseller grows by the absolute value of the
    count; for a balance that is the integer [b], the remaining credits
    of the answer are [b - n] and the new balance is [b + |n|]. *)
Theorem negative_count_adds_credits (s : Store) (c : nat) (now : Time)
    (u : Z) (body : GenerateBody) (kd : KeyData) (r : Reseller) (n : Z) :
  body_count body = CountNumber (numOfZ n) ->
  n < 0 ->
  insertKeySchema now body = inr kd ->
  gameEnum (kd_game kd) = true ->
  match customKeyString kd with
  | Some custom => getKey s custom = None
  | None => True
  end ->
  getReseller s u = Some r ->
  numLt (credits r) (numOfZ n) = false ->
  (forall call s0, storageFault call s0 = None) ->
  let R := postKeysGenerate s c now u body in
  fst R = GenCreated [] (numSub (credits r) (numOfZ n)) /\
  keys (rs_store (snd R)) = keys s /\
  getReseller (rs_store (snd R)) u = Some (addCredits (numOfZ (- n)) r) /\
  credits (addCredits (numOfZ (- n)) r)
  = numAdd (credits r) (numOfZ (Z.abs n)) /\
  (forall b : Z,
      credits r = numOfZ b ->
      numSub (credits r) (numOfZ n) = numOfZ (b - n) /\
      credits (addCredits (numOfZ (- n)) r) = numOfZ (b + Z.abs n)).
Proof.
  intros Hn Hneg Hparse Hgame Hcustom Hres Hle Hf R.
  assert (Hcount : requestedCount body = numOfZ n).
  { unfold requestedCount. rewrite Hn, truthyNumber_ofZ.
    destruct (Z.eqb_spec n 0); [lia|reflexivity]. }
  assert (HR : R = (GenCreated [] (numSub (credits r) (numOfZ n)),
                    mkRunState
                      (mkStore (keys s) (devices s)
                         (map (fun r' => if reseller_id r' =? u
                                         then addCredits (numOfZ (- n)) r'
                                         else r')
                              (resellers s))
                         (nextKeyId s) (nextDeviceId s)) c)).
  { subst R. unfold postKeysGenerate, generateTry.
    rewrite Hparse, Hgame. cbn [negb]. unfold bind at 1.
    rewrite (checkCustomKey_pass kd (mkRunState s c) Hf Hcustom).
    unfold bind at 1, storage at 1. rewrite Hf. cbn [rs_store rs_rand].
    rewrite Hres, Hcount, Hle, iterations_ofZ.
    replace (Z.to_nat n) with 0%nat by lia.
    unfold bind at 1. cbn [generateLoop ret].
    unfold bind at 1, storage at 1. rewrite Hf.
    unfold updateResellerCredits. cbn [rs_store]. rewrite Hres.
    reflexivity. }
  rewrite HR. cbn [fst snd rs_store keys].
  split; [reflexivity|]. split; [reflexivity|]. split.
  { unfold getReseller. cbn [resellers].
    apply getReseller_update_same. exact Hres. }
  assert (Habs : - n = Z.abs n) by lia.
  split.
  { cbn [addCredits credits]. rewrite Habs. reflexivity. }
  intros b Hb. cbn [addCredits credits].
  rewrite Hb, numSub_ofZ, numAdd_ofZ, Habs. split; reflexivity.
Qed.

(** ** Accounts, sessions and registration *)

Lemma LocalStrategy_given (verify : string -> string -> Authentication)
    (name password : string) :
  emptyStr name = false ->
  emptyStr password = false ->
  LocalStrategy verify name password = verify name password.
Proof. intros Hn Hp. unfold LocalStrategy. rewrite Hn, Hp. reflexivity. Qed.

Lemma emptyStr_false (x : string) : emptyStr x = false <-> x <> ""%string.
Proof.
  unfold emptyStr. destruct (String.eqb_spec x ""); split; intros H;
    try discriminate; try assumption; try reflexivity.
  contradiction.
Qed.

(** X13. What a reseller login tells: a login with an empty username or
    password is refused with "Missing credentials" before the callback
    of the strategy is called; otherwise it succeeds exactly for the
    first row with the username when the password is the row's and the
    row is active; "Account is suspended" is only said to who gave the
    right password; in every other case, unknown username or wrong
    password alike, the message is "Incorrect username or password". *)
Theorem reseller_login_outcomes (site : Site) (name password : string) :
  match resellerStrategy site name password with
  | Authenticated user =>
      name <> ""%string /\ password <> ""%string /\
      exists r,
        getResellerByUsername (site_store site) name = Some r /\
        resellerPassword site r = Some password /\
        isActive r = true /\
        user = mkUser (reseller_id r) (username r) "reseller"
  | Rejected msg =>
      (msg = "Missing credentials" /\
       (name = ""%string \/ password = ""%string)) \/
      (name <> ""%string /\ password <> ""%string /\
       ((msg = "Account is suspended" /\
         exists r,
           getResellerByUsername (site_store site) name = Some r /\
           resellerPassword site r = Some password /\
           isActive r = false) \/
        (msg = "Incorrect username or password" /\
         (getResellerByUsername (site_store site) name = None \/
          exists r,
            getResellerByUsername (site_store site) name = Some r /\
            resellerPassword site r <> Some password))))
  end.
Proof.
  unfold resellerStrategy, LocalStrategy, emptyStr.
  destruct (String.eqb_spec name "") as [Hn|Hn]; cbn [orb];
    [left; auto|].
  destruct (String.eqb_spec password "") as [Hp|Hp]; [left; auto|].
  unfold resellerVerify.
  destruct (getResellerByUsername (site_store site) name) as [r|];
    [|right; auto 7].
  destruct (resellerPassword site r) as [p|] eqn:Hpw.
  - destruct (String.eqb_spec p password) as [->|Hne]; cbn [negb].
    + destruct (isActive r) eqn:Ha; cbn [negb].
      * split; [exact Hn|]. split; [exact Hp|]. exists r. auto.
      * right. split; [exact Hn|]. split; [exact Hp|]. left.
        split; [reflexivity|]. exists r. auto.
    + right. split; [exact Hn|]. split; [exact Hp|]. right.
      split; [reflexivity|]. right. exists r. split; [reflexivity|].
      congruence.
  - right. split; [exact Hn|]. split; [exact Hp|]. right.
    split; [reflexivity|]. right. exists r. split; [reflexivity|].
    congruence.
Qed.

Lemma find_username_toggled (l : list Reseller) (name : string) (id : Z)
    (b : bool) (r : Reseller) :
  find (fun r0 => String.eqb (username r0) name) l = Some r ->
  find (fun r0 => String.eqb (username r0) name)
       (map (fun r0 => if reseller_id r0 =? id then setActive b r0 else r0) l)
  = Some (if reseller_id r =? id then setActive b r else r).
Proof.
  induction l as [|a l IH]; cbn [find map]; [discriminate|].
  destruct (reseller_id a =? id) eqn:Ha; cbn [setActive username];
    destruct (String.eqb (username a) name); auto;
    intros [= <-]; rewrite Ha; reflexivity.
Qed.

(** X14. Suspension takes effect at the next login: once the admin has
    set the status of a reseller, a login with the reseller's username
    and password (neither of them empty) is answered "Account is
    suspended" when the status was set to false and succeeds when it was
    set to true, whatever the status was before. *)
Theorem suspension_decides_login (site : Site) (name password : string)
    (r : Reseller) (b : bool) :
  name <> ""%string ->
  password <> ""%string ->
  getResellerByUsername (site_store site) name = Some r ->
  resellerPassword site r = Some password ->
  let site' := toggleOnSite site (Some (reseller_id r)) (Some b) in
  resellerStrategy site' name password
  = if b then Authenticated (mkUser (reseller_id r) (username r) "reseller")
    else Rejected "Account is suspended".
Proof.
  intros Hn Hpw Hr Hp site'.
  assert (Hin : In r (resellers (site_store site)))
    by (apply find_some in Hr; exact (proj1 Hr)).
  assert (Hid : exists r0, getReseller (site_store site) (reseller_id r)
                           = Some r0).
  { unfold getReseller.
    destruct (find _ (resellers (site_store site))) eqn:Hf; [eauto|].
    pose proof (find_none _ _ Hf r Hin) as H. cbn beta in H.
    rewrite Z.eqb_refl in H. discriminate H. }
  destruct Hid as [r0 Hr0].
  unfold resellerStrategy.
  rewrite LocalStrategy_given by (apply emptyStr_false; assumption).
  unfold resellerVerify, getResellerByUsername. subst site'.
  unfold toggleOnSite, postToggleStatus. rewrite Hr0.
  cbn [updateResellerStatus snd site_store resellers].
  rewrite (find_username_toggled _ _ _ b r Hr), Z.eqb_refl.
  unfold resellerPassword in *. cbn [setActive reseller_id site_passwords].
  rewrite Hp, String.eqb_refl. cbn [negb isActive username].
  destruct b; reflexivity.
Qed.

(** X15. Sessions keep roles apart: after a successful reseller login
    the session passes [isAuthenticated] and [isReseller] and is stopped
    by [isAdmin] with 403; after a successful admin login it passes
    [isAdmin] and is stopped by [isReseller]; a refused login answers
    401 and leaves the session as it was; after logout every guard
    stops the request. *)
Theorem sessions_keep_roles (site : Site) (session : Session)
    (name password : string) :
  (forall user session',
      postResellerLogin site session name password = (Sent user, session') ->
      isAuthenticated session' = Next /\ isReseller session' = Next /\
      isAdmin session' = Stop 403 "Forbidden") /\
  (forall user session',
      postAdminLogin site session name password = (Sent user, session') ->
      isAuthenticated session' = Next /\ isAdmin session' = Next /\
      isReseller session' = Stop 403 "Forbidden") /\
  (forall st msg session',
      postResellerLogin site session name password
      = (Refused st msg, session') \/
      postAdminLogin site session name password
      = (Refused st msg, session') ->
      st = 401 /\ session' = session) /\
  (isAuthenticated (postLogout session) = Stop 401 "Unauthorized" /\
   isAdmin (postLogout session) = Stop 403 "Forbidden" /\
   isReseller (postLogout session) = Stop 403 "Forbidden").
Proof.
  split; [|split; [|split]].
  - intros user session'.
    unfold postResellerLogin, loginWith, resellerStrategy, LocalStrategy,
      resellerVerify.
    destruct (emptyStr name || emptyStr password); [discriminate|].
    destruct (getResellerByUsername (site_store site) name) as [r|];
      [|discriminate].
    destruct (resellerPassword site r) as [p|]; [|discriminate].
    destruct (negb _); [discriminate|].
    destruct (negb _); [discriminate|]. intros [= <- <-]. repeat split.
  - intros user session'.
    unfold postAdminLogin, loginWith, adminStrategy, LocalStrategy,
      adminVerify.
    destruct (emptyStr name || emptyStr password); [discriminate|].
    destruct (getAdminByUsername site name) as [a|]; [|discriminate].
    destruct (negb _); [discriminate|]. intros [= <- <-]. repeat split.
  - intros st msg session' [H|H];
      unfold postResellerLogin, postAdminLogin, loginWith in H;
      match type of H with
      | match ?a with _ => _ end = _ => destruct a; [discriminate|]
      end; injection H as <- _ <-; auto.
  - repeat split.
Qed.

Lemma getToken_useToken (tokens : list Token) (t t' name : string)
    (tk : Token) :
  find (fun x => String.eqb (token x) t) tokens = Some tk ->
  exists tk',
    find (fun x => String.eqb (token x) t) (useToken tokens t' name)
    = Some tk' /\
    (isUsed tk = true \/ t' = t -> isUsed tk' = true).
Proof.
  unfold useToken. induction tokens as [|a l IH]; cbn [find map];
    [discriminate|].
  destruct (String.eqb_spec (token a) t') as [Ha|Ha]; cbn [token].
  - destruct (String.eqb (token a) t) eqn:Hat; [|exact IH].
    intros _. eexists. split; [reflexivity|]. reflexivity.
  - destruct (String.eqb_spec (token a) t) as [Hat|Hat]; [|exact IH].
    intros [= <-]. exists a. split; [reflexivity|].
    intros [H|H]; [exact H|congruence].
Qed.

(** What a registration does to the site: nothing, or one reseller
    appended and the tokens of the request marked used. *)
Lemma postRegister_site (site : Site) (body : RegisterBody) :
  (exists st msg, postRegister site body = (Refused st msg, site) /\ st = 400)
  \/
  exists data tk,
    insertResellerSchema body = inr data /\
    getResellerByUsername (site_store site) (rd_username data) = None /\
    getToken site (rd_referralToken data) = Some tk /\ isUsed tk = false /\
    fst (postRegister site body)
    = Sent (registered (newResellerRow (site_store site) data)) /\
    resellers (site_store (snd (postRegister site body)))
    = resellers (site_store site) ++ [newResellerRow (site_store site) data]
    /\
    site_tokens (snd (postRegister site body))
    = useToken (site_tokens site) (rd_referralToken data) (rd_username data)
    /\
    site_passwords (snd (postRegister site body))
    = (reseller_id (newResellerRow (site_store site) data), rd_password data)
      :: site_passwords site.
Proof.
  unfold postRegister.
  destruct (insertResellerSchema body) as [e|data]; [left; eauto|].
  destruct (getResellerByUsername _ _) eqn:Hfree; [left; eauto|].
  destruct (getToken site (rd_referralToken data)) as [tk|] eqn:Ht;
    [|left; eauto].
  destruct (isUsed tk) eqn:Hu; [left; eauto|].
  right. exists data, tk. cbn. repeat split; auto.
Qed.

Lemma used_token_stays_used (site : Site) (body : RegisterBody) (t : string) :
  (exists tk, getToken site t = Some tk /\ isUsed tk = true) ->
  exists tk, getToken (snd (postRegister site body)) t = Some tk /\
             isUsed tk = true.
Proof.
  intros (tk & Ht & Hu).
  destruct (postRegister_site site body)
    as [(st & msg & -> & _)|(data & tk0 & _ & _ & _ & _ & _ & _ & Htok & _)];
    [eauto|].
  unfold getToken in *. rewrite Htok.
  destruct (getToken_useToken _ t (rd_referralToken data)
              (rd_username data) tk Ht) as (tk' & Hf & Hused).
  exists tk'. auto.
Qed.

Lemma registerAll_keeps_used (bodies : list RegisterBody) :
  forall (site : Site) (t : string),
    (exists tk, getToken site t = Some tk /\ isUsed tk = true) ->
    exists tk, getToken (registerAll site bodies) t = Some tk /\
               isUsed tk = true.
Proof.
  induction bodies as [|b bodies IH]; intros site t H; [exact H|].
  cbn [registerAll fold_left]. apply IH. apply used_token_stays_used. exact H.
Qed.

(** X16. A referral token registers one reseller at most: a
    registration with an unknown or used token is answered 400 and
    changes nothing; and once a registration with a token has succeeded,
    every later registration that presents the token, after any number
    of registrations in between, is answered 400 and changes nothing. *)
Theorem referral_token_single_use (site : Site) (body : RegisterBody)
    (data : ResellerData) :
  insertResellerSchema body = inr data ->
  ((getToken site (rd_referralToken data) = None \/
    exists tk, getToken site (rd_referralToken data) = Some tk /\
               isUsed tk = true) ->
   exists msg, postRegister site body = (Refused 400 msg, site)) /\
  (forall row,
      fst (postRegister site body) = Sent row ->
      (exists tk, getToken site (rd_referralToken data) = Some tk /\
                  isUsed tk = false) /\
      forall bodies body' data',
        insertResellerSchema body' = inr data' ->
        rd_referralToken data' = rd_referralToken data ->
        let site' := registerAll (snd (postRegister site body)) bodies in
        exists msg, postRegister site' body' = (Refused 400 msg, site')).
Proof.
  intros Hp.
  assert (Hused : forall site0 body0 data0,
             insertResellerSchema body0 = inr data0 ->
             (getToken site0 (rd_referralToken data0) = None \/
              exists tk, getToken site0 (rd_referralToken data0) = Some tk /\
                         isUsed tk = true) ->
             exists msg, postRegister site0 body0 = (Refused 400 msg, site0)).
  { intros site0 body0 data0 Hp0 H. unfold postRegister. rewrite Hp0.
    destruct (getResellerByUsername _ _); [eauto|].
    destruct H as [->|(tk & -> & ->)]; eauto. }
  split; [exact (Hused site body data Hp)|].
  intros row Hsent.
  destruct (postRegister_site site body)
    as [(st & msg & Hr & _)|(d & tk & Hd & _ & Ht & Hu & _ & _ & Htok & _)].
  { rewrite Hr in Hsent. discriminate Hsent. }
  rewrite Hp in Hd. injection Hd as <-.
  split; [eauto|].
  intros bodies body' data' Hp' Ht' site'.
  apply (Hused site' body' data' Hp'). right. rewrite Ht'.
  subst site'. apply registerAll_keeps_used.
  unfold getToken in *. rewrite Htok.
  destruct (getToken_useToken _ (rd_referralToken data)
              (rd_referralToken data) (rd_username data) tk Ht)
    as (tk' & Hf & Hused').
  exists tk'. auto.
Qed.

Lemma find_username_appended (l : list Reseller) (row : Reseller)
    (name : string) :
  find (fun r => String.eqb (username r) name) l = None ->
  username row = name ->
  find (fun r => String.eqb (username r) name) (l ++ [row]) = Some row.
Proof.
  intros Hl Hrow. induction l as [|a l IH]; cbn [find app] in *.
  - rewrite Hrow, String.eqb_refl. reflexivity.
  - destruct (String.eqb (username a) name); [discriminate|]. auto.
Qed.

(** X17. A registered reseller can log in: when the row a registration
    creates carries the username of the request and is active, and
    neither the username nor the password registered is empty, a
    successful registration is followed by a successful reseller login
    with the registered username and password, by "Incorrect username
    or password" with any other password that is not empty, by "Missing
    credentials" with the empty password, and by "Username already
    exists" for a second registration of the username. *)
Theorem registration_then_login (site : Site) (body : RegisterBody)
    (data : ResellerData) (row : Z * string * Number) :
  (forall s d, username (newResellerRow s d) = rd_username d) ->
  (forall s d, isActive (newResellerRow s d) = true) ->
  insertResellerSchema body = inr data ->
  rd_username data <> ""%string ->
  rd_password data <> ""%string ->
  fst (postRegister site body) = Sent row ->
  let site' := snd (postRegister site body) in
  let new := newResellerRow (site_store site) data in
  row = (reseller_id new, rd_username data, credits new) /\
  resellerStrategy site' (rd_username data) (rd_password data)
  = Authenticated (mkUser (reseller_id new) (rd_username data) "reseller") /\
  (forall p, p <> rd_password data -> p <> ""%string ->
             resellerStrategy site' (rd_username data) p
             = Rejected "Incorrect username or password") /\
  resellerStrategy site' (rd_username data) ""
  = Rejected "Missing credentials" /\
  (forall body' data',
      insertResellerSchema body' = inr data' ->
      rd_username data' = rd_username data ->
      postRegister site' body'
      = (Refused 400 "Username already exists", site')).
Proof.
  intros Hname Hactive Hp Hu0 Hp0 Hsent site' new.
  destruct (postRegister_site site body)
    as [(st & msg & Hr & _)
       |(d & tk & Hd & Hfree & _ & _ & Hfst & Hres & _ & Hpw)].
  { rewrite Hr in Hsent. discriminate Hsent. }
  rewrite Hp in Hd. injection Hd as <-.
  assert (Hfind : getResellerByUsername (site_store site') (rd_username data)
                  = Some new).
  { unfold getResellerByUsername. subst site'. rewrite Hres.
    apply find_username_appended; [exact Hfree|apply Hname]. }
  assert (Hpass : resellerPassword site' new = Some (rd_password data)).
  { unfold resellerPassword. subst site'. rewrite Hpw. cbn [find fst].
    fold new. rewrite Z.eqb_refl. reflexivity. }
  split.
  { rewrite Hfst in Hsent. injection Hsent as <-. unfold registered.
    fold new. subst new. rewrite Hname. reflexivity. }
  split.
  { unfold resellerStrategy.
    rewrite LocalStrategy_given by (apply emptyStr_false; assumption).
    unfold resellerVerify. rewrite Hfind, Hpass, String.eqb_refl.
    subst new. rewrite Hactive, Hname. reflexivity. }
  split.
  { intros p Hne Hp1. unfold resellerStrategy.
    rewrite LocalStrategy_given by (apply emptyStr_false; assumption).
    unfold resellerVerify. rewrite Hfind, Hpass.
    destruct (String.eqb_spec (rd_password data) p); [congruence|].
    reflexivity. }
  split.
  { unfold resellerStrategy, LocalStrategy. cbn [emptyStr String.eqb].
    rewrite orb_true_r. reflexivity. }
  intros body' data' Hp' Hu. unfold postRegister.
  rewrite Hp', Hu, Hfind. reflexivity.
Qed.

(** ** The CSRF check *)

Lemma stripTrailingSlash_slash (u : string) :
  stripTrailingSlash (u ++ "/") = u.
Proof.
  induction u as [|c u IH]; [reflexivity|].
  cbn [append stripTrailingSlash]. rewrite IH.
  destruct u; cbn [append emptyStr String.eqb]; rewrite andb_false_r;
    reflexivity.
Qed.

Lemma stripTrailingSlash_none (u : string) :
  (forall v, u <> (v ++ "/")%string) -> stripTrailingSlash u = u.
Proof.
  induction u as [|c u IH]; [reflexivity|]. intros H.
  cbn [stripTrailingSlash].
  destruct (Ascii.eqb_spec c "/") as [->|Hc]; cbn [andb].
  - destruct u as [|d u]; cbn [emptyStr String.eqb].
    + exfalso. apply (H ""%string). reflexivity.
    + rewrite IH; [reflexivity|]. intros v E.
      apply (H (String "/" v)). cbn [append]. rewrite E. reflexivity.
  - rewrite IH; [reflexivity|]. intros v E.
    apply (H (String c v)). cbn [append]. rewrite E. reflexivity.
Qed.

(** X18. A write request of the admin reaches its handler exactly when
    the session is an admin's and either the Origin header is sent and
    equals the expected origin, or no Origin is sent and the Referer is
    sent, parses, and has the expected origin. A session that is not an
    admin's is stopped with 403 "Forbidden" whatever the headers, and an
    Origin that differs from the expected one is stopped with 403
    whatever the Referer says. *)
Theorem write_protection_passes (env : Environment) (session : Session)
    (req : RequestHead) :
  let expected := expectedOrigin env req in
  (adminWriteProtection env session req = Next <->
   (exists user, session = Some user /\ role user = "admin") /\
   ((truthy (originHeader req) = true /\ originHeader req = Some expected) \/
    (truthy (originHeader req) = false /\
     truthy (refererHeader req) = true /\
     exists p h, parseUrl (rendered (refererHeader req)) = Some (p, h) /\
                 (p ++ "//" ++ h)%string = expected))) /\
  (isAdmin session <> Next ->
   adminWriteProtection env session req = Stop 403 "Forbidden") /\
  (truthy (originHeader req) = true ->
   originHeader req <> Some expected ->
   csrfProtection env req = Stop 403 "Forbidden: Invalid origin").
Proof.
  intros expected. split; [|split].
  - unfold adminWriteProtection, isAdmin, csrfProtection. fold expected.
    destruct session as [user|].
    2:{ split; [discriminate|]. intros [(u & H & _) _]. discriminate H. }
    destruct (String.eqb_spec (role user) "admin") as [Hrole|Hrole].
    2:{ split; [discriminate|]. intros [(u & [= <-] & H) _]. contradiction. }
    destruct (originHeader req) as [o|] eqn:Ho; cbn [truthy rendered].
    + destruct (emptyStr o) eqn:He; cbn [negb].
      * destruct (refererHeader req) as [rf|]; cbn [truthy rendered].
        -- destruct (emptyStr rf); cbn [negb].
           ++ split; [discriminate|].
              intros [_ [[H _]|(_ & H & _)]]; discriminate H.
           ++ destruct (parseUrl rf) as [[p h]|].
              ** destruct (String.eqb_spec (p ++ "//" ++ h) expected)
                   as [E|E]; cbn [negb].
                 --- split; [|reflexivity]. intros _. split; [eauto|].
                     right. repeat split. eauto.
                 --- split; [discriminate|].
                     intros [_ [[H _]|(_ & _ & p' & h' & [= <- <-] & H)]];
                       [discriminate H|contradiction].
              ** split; [discriminate|].
                 intros [_ [[H _]|(_ & _ & p' & h' & H & _)]];
                   discriminate H.
        -- split; [discriminate|].
           intros [_ [[H _]|(_ & H & _)]]; discriminate H.
      * destruct (String.eqb_spec o expected) as [E|E]; cbn [negb].
        -- split; [|reflexivity]. intros _. split; [eauto|].
           left. subst o. auto.
        -- split; [discriminate|].
           intros [_ [[_ [= H]]|(H & _)]]; [contradiction|discriminate H].
    + destruct (refererHeader req) as [rf|]; cbn [truthy rendered].
      * destruct (emptyStr rf); cbn [negb].
        -- split; [discriminate|].
           intros [_ [[H _]|(_ & H & _)]]; discriminate H.
        -- destruct (parseUrl rf) as [[p h]|].
           ++ destruct (String.eqb_spec (p ++ "//" ++ h) expected)
                as [E|E]; cbn [negb].
              ** split; [|reflexivity]. intros _. split; [eauto|].
                 right. repeat split. eauto.
              ** split; [discriminate|].
                 intros [_ [[H _]|(_ & _ & p' & h' & [= <- <-] & H)]];
                   [discriminate H|contradiction].
           ++ split; [discriminate|].
              intros [_ [[H _]|(_ & _ & p' & h' & H & _)]]; discriminate H.
      * split; [discriminate|].
        intros [_ [[H _]|(_ & H & _)]]; discriminate H.
  - unfold adminWriteProtection, isAdmin.
    destruct session as [user|]; [|reflexivity].
    destruct (String.eqb (role user) "admin"); [|reflexivity].
    intros H. contradiction H. reflexivity.
  - unfold csrfProtection. fold expected. intros Ht Hne. rewrite Ht.
    destruct (originHeader req) as [o|]; [|discriminate Ht].
    cbn [rendered].
    destruct (String.eqb_spec o expected) as [->|E]; [contradiction|].
    reflexivity.
Qed.

(** X19. One trailing slash of PUBLIC_URL does not matter, a second one
    does: in production, with PUBLIC_URL set to [u/], a request whose
    Origin is the non-empty [u] passes the CSRF check, as it does with
    PUBLIC_URL set to a [u] that has no trailing slash; with PUBLIC_URL
    set to [u//] the expected origin is [u/] and the request is
    stopped. *)
Theorem public_url_trailing_slash (u : string) (req : RequestHead) :
  u <> ""%string ->
  originHeader req = Some u ->
  let production := fun url => mkEnvironment (Some "production") (Some url) in
  csrfProtection (production (u ++ "/")%string) req = Next /\
  ((forall v, u <> (v ++ "/")%string) ->
   csrfProtection (production u) req = Next) /\
  expectedOrigin (production (u ++ "//")%string) req = (u ++ "/")%string /\
  csrfProtection (production (u ++ "//")%string) req
  = Stop 403 "Forbidden: Invalid origin".
Proof.
  intros Hu Ho production.
  assert (Hne : forall v, emptyStr (u ++ v) = false).
  { intros v. destruct u; [contradiction|reflexivity]. }
  assert (Hu' : emptyStr u = false) by (destruct u; [contradiction|reflexivity]).
  assert (E2 : (u ++ "//")%string = ((u ++ "/") ++ "/")%string).
  { clear. induction u as [|c u IH]; [reflexivity|]. cbn [append].
    rewrite IH. reflexivity. }
  unfold csrfProtection, expectedOrigin, isProduction. subst production.
  cbn [nodeEnv publicUrl truthy rendered String.eqb Ascii.eqb Bool.eqb andb].
  rewrite Ho. cbn [truthy rendered]. rewrite !Hne, Hu'. cbn [negb].
  rewrite stripTrailingSlash_slash, String.eqb_refl. cbn [negb].
  split; [reflexivity|]. split.
  - intros H. rewrite (stripTrailingSlash_none u H), String.eqb_refl.
    reflexivity.
  - rewrite E2, stripTrailingSlash_slash. split; [reflexivity|].
    destruct (String.eqb_spec u (u ++ "/")) as [E|_]; [|reflexivity].
    exfalso. apply (f_equal String.length) in E. revert E. clear.
    induction u as [|c u IH]; cbn; [discriminate|]. intros [= H]. auto.
Qed.

(** ** Backup download *)

Lemma length_append (x y : string) :
  String.length (x ++ y) = (String.length x + String.length y)%nat.
Proof. induction x as [|c x IH]; cbn; [reflexivity|]. rewrite IH. reflexivity. Qed.

Lemma substring_all (x : string) : substring 0 (String.length x) x = x.
Proof. induction x as [|c x IH]; cbn; [reflexivity|]. rewrite IH. reflexivity. Qed.

Lemma substring_skip (pre x : string) (m : nat) :
  substring (String.length pre) m (pre ++ x) = substring 0 m x.
Proof. induction pre as [|c pre IH]; cbn; [reflexivity|exact IH]. Qed.

Lemma substring_split (x : string) :
  forall k, (k <= String.length x)%nat ->
            x = (substring 0 k x
                 ++ substring k (String.length x - k) x)%string.
Proof.
  induction x as [|c x IH]; intros k Hk.
  - destruct k; reflexivity.
  - destruct k as [|k].
    + cbn [substring append]. change (String.length (String c x) - 0)%nat
        with (S (String.length x)). cbn [substring].
      rewrite substring_all. reflexivity.
    + cbn [substring append String.length Nat.sub]. cbn in Hk.
      rewrite <- IH by lia. reflexivity.
Qed.

Lemma endsWith_iff (x suffix : string) :
  endsWith x suffix = true <-> exists pre, x = (pre ++ suffix)%string.
Proof.
  unfold endsWith. split.
  - intros H. apply andb_true_iff in H. destruct H as [Hm Hs].
    apply Nat.leb_le in Hm. apply String.eqb_eq in Hs.
    exists (substring 0 (String.length x - String.length suffix) x).
    pose proof (substring_split x (String.length x - String.length suffix))
      as H.
    replace (String.length x - (String.length x - String.length suffix))%nat
      with (String.length suffix) in H by lia.
    rewrite Hs in H. apply H. lia.
  - intros (pre & ->). rewrite length_append.
    apply andb_true_iff. split; [apply Nat.leb_le; lia|].
    replace (String.length pre + String.length suffix
             - String.length suffix)%nat
      with (String.length pre) by lia.
    rewrite substring_skip, substring_all. apply String.eqb_refl.
Qed.

Lemma includes_In (l : list string) (x : string) :
  includes l x = true <-> In x l.
Proof.
  unfold includes. rewrite existsb_exists. split.
  - intros (y & Hin & Heq). apply String.eqb_eq in Heq. subst. exact Hin.
  - intros Hin. exists x. split; [exact Hin|apply String.eqb_refl].
Qed.

Lemma sanitizeFilename_length (x : string) :
  String.length (sanitizeFilename x) = String.length x.
Proof. induction x as [|c x IH]; cbn; [reflexivity|]. rewrite IH. reflexivity. Qed.

Lemma sanitizeFilename_chars (x : string) :
  allChars (fun c => isSafeNameChar c || Ascii.eqb c "_")
           (sanitizeFilename x) = true.
Proof.
  induction x as [|c x IH]; [reflexivity|].
  cbn [sanitizeFilename allChars]. rewrite IH.
  destruct (isSafeNameChar c) eqn:Hc; [rewrite Hc|]; reflexivity.
Qed.

Lemma sanitizeFilename_safe (x : string) :
  allChars (fun c => isSafeNameChar c || Ascii.eqb c "_") x = true
  <-> sanitizeFilename x = x.
Proof.
  induction x as [|c x IH]; [cbn; split; reflexivity|].
  cbn [sanitizeFilename allChars]. rewrite andb_true_iff, IH.
  destruct (isSafeNameChar c) eqn:Hc; cbn [orb].
  - split; [intros [_ ->]; reflexivity|intros [= ->]; auto].
  - split.
    + intros [H ->]. apply Ascii.eqb_eq in H. subst c. reflexivity.
    + intros [= <- ->]. auto.
Qed.

(** X20. The name a backup is downloaded under: it has the length of
    the file name, consists of letters, digits, dots, hyphens and
    underscores only, differs from the file name exactly when that
    holds another character, and sanitizing it again changes nothing. *)
Theorem sanitized_download_name (x : string) :
  String.length (sanitizeFilename x) = String.length x /\
  allChars (fun c => isSafeNameChar c || Ascii.eqb c "_")
           (sanitizeFilename x) = true /\
  (sanitizeFilename x = x
   <-> allChars (fun c => isSafeNameChar c || Ascii.eqb c "_") x = true) /\
  sanitizeFilename (sanitizeFilename x) = sanitizeFilename x.
Proof.
  split; [apply sanitizeFilename_length|].
  split; [apply sanitizeFilename_chars|].
  split; [symmetry; apply sanitizeFilename_safe|].
  induction x as [|c x IH]; [reflexivity|].
  cbn [sanitizeFilename]. rewrite IH.
  destruct (isSafeNameChar c) eqn:Hc; [rewrite Hc|]; reflexivity.
Qed.

(** X21. The download route serves nothing but listed JSON files: when
    it sends a file, the requested name is an entry of the data
    directory that ends in ".json", the file sent is that entry joined
    to the data directory and resolves inside it, and the name it is
    sent under is the sanitized entry. Any other name is answered 404,
    and a directory that cannot be read 500. *)
Theorem download_only_listed (entries : string + list string)
    (filename : string) :
  match getBackupDownload entries filename with
  | Served filePath downloadName =>
      exists files base,
        entries = inr files /\ In filename files /\
        filename = (base ++ ".json")%string /\
        filePath = pathJoin dataDir filename /\
        String.prefix dataDir (pathResolve filePath) = true /\
        downloadName = sanitizeFilename filename
  | NoDownload st msg =>
      (st = 500 /\ entries = inl msg) \/
      (st = 404 /\ msg = "File not found"%string /\
       exists files,
         entries = inr files /\
         (~ In filename files \/ endsWith filename ".json" = false \/
          String.prefix dataDir (pathResolve (pathJoin dataDir filename))
          = false))
  end.
Proof.
  unfold getBackupDownload. destruct entries as [e|files]; [left; auto|].
  destruct (includes _ filename) eqn:Hin; cbn [negb].
  - apply includes_In in Hin. apply filter_In in Hin.
    destruct Hin as [Hin Hjson].
    destruct (String.prefix dataDir _) eqn:Hpre; cbn [negb].
    + apply endsWith_iff in Hjson. destruct Hjson as [base Hbase].
      exists files, base. repeat split; auto.
    + right. repeat split. exists files. auto.
  - right. repeat split. exists files. split; [reflexivity|].
    destruct (endsWith filename ".json") eqn:Hjson; [|auto].
    left. intros Hfile.
    assert (H : includes (filter (fun file => endsWith file ".json") files)
                         filename = true).
    { apply includes_In. apply filter_In. auto. }
    congruence.
Qed.

(** ** The key file of a reseller *)

Lemma orEmpty_withKeys (d : ResellerFile) (ks : list Key) :
  orEmpty (if someKeys ks then Some (orEmpty (rf_keys d) ++ ks)
           else rf_keys d)
  = orEmpty (rf_keys d) ++ ks.
Proof. destruct ks; cbn [someKeys orEmpty]; [rewrite app_nil_r|]; reflexivity. Qed.

(** The update of a file that holds the data of a reseller. *)
Lemma updateResellerFile_existing (fs : Files) (r : Reseller)
    (ks : list Key) (d : ResellerFile) :
  fs (getResellerFilePath (username r)) = Some (ResellerJson d) ->
  canWrite (getResellerFilePath (username r)) = true ->
  updateResellerFile fs r ks
  = (true,
     writeFile fs (getResellerFilePath (username r))
       (ResellerJson
          (mkResellerFile (rf_resellerId d) (rf_username d)
             (jsonNumber (orNumber (Some (credits r))
                                   (orNumber (rf_credits d) (numOfZ 0))))
             (if someKeys ks then Some (orEmpty (rf_keys d) ++ ks)
              else rf_keys d)))).
Proof.
  intros Hf Hw. unfold updateResellerFile. rewrite Hf, Hw. reflexivity.
Qed.

(** [credits || 0] is the balance, unless the balance is NaN. *)
Lemma orNumber_ofZ (b : Z) :
  orNumber (Some (numOfZ b)) (numOfZ 0) = numOfZ b.
Proof.
  unfold orNumber. rewrite truthyNumber_ofZ.
  destruct (Z.eqb_spec b 0) as [->|_]; reflexivity.
Qed.

Lemma writeFile_same (fs : Files) (path : string) (content : FileContent) :
  writeFile fs path content path = Some content.
Proof. unfold writeFile. rewrite String.eqb_refl. reflexivity. Qed.

Lemma writeFile_other (fs : Files) (path p : string) (content : FileContent) :
  p <> path -> writeFile fs path content p = fs p.
Proof.
  intros H. unfold writeFile.
  destruct (String.eqb_spec p path); [contradiction|reflexivity].
Qed.

(** X22. The key file only grows: when the file of the reseller holds
    data and can be written, an update keeps the reseller id and the
    username of the file, appends the given keys after the keys the
    file had, and leaves every other file alone; two updates in a row
    append their keys in order. *)
Theorem key_file_append_only (fs : Files) (r : Reseller)
    (ks1 ks2 : list Key) (d : ResellerFile) :
  let path := getResellerFilePath (username r) in
  fs path = Some (ResellerJson d) ->
  canWrite path = true ->
  let R1 := updateResellerFile fs r ks1 in
  let R2 := updateResellerFile (snd R1) r ks2 in
  fst R1 = true /\
  (exists d1,
      snd R1 path = Some (ResellerJson d1) /\
      orEmpty (rf_keys d1) = orEmpty (rf_keys d) ++ ks1 /\
      rf_resellerId d1 = rf_resellerId d /\ rf_username d1 = rf_username d) /\
  (forall p, p <> path -> snd R1 p = fs p) /\
  (exists d2,
      snd R2 path = Some (ResellerJson d2) /\
      orEmpty (rf_keys d2) = orEmpty (rf_keys d) ++ ks1 ++ ks2).
Proof.
  intros path Hf Hw R1 R2.
  assert (H1 := updateResellerFile_existing fs r ks1 d Hf Hw).
  fold R1 in H1. fold path in H1.
  assert (Hf1 : snd R1 path = Some (ResellerJson
            (mkResellerFile (rf_resellerId d) (rf_username d)
               (jsonNumber (orNumber (Some (credits r))
                                     (orNumber (rf_credits d) (numOfZ 0))))
               (if someKeys ks1 then Some (orEmpty (rf_keys d) ++ ks1)
                else rf_keys d))))
    by (rewrite H1; apply writeFile_same).
  assert (H2 := updateResellerFile_existing (snd R1) r ks2 _ Hf1 Hw).
  fold R2 in H2. fold path in H2.
  split; [rewrite H1; reflexivity|]. split.
  { eexists. split; [exact Hf1|]. cbn [rf_keys rf_resellerId rf_username].
    rewrite orEmpty_withKeys. auto. }
  split.
  { intros p Hp. rewrite H1. apply writeFile_other. exact Hp. }
  eexists. split; [rewrite H2; apply writeFile_same|].
  cbn [rf_keys].
  destruct ks1, ks2; cbn [someKeys orEmpty];
    rewrite ?app_nil_r, <- ?app_assoc; reflexivity.
Qed.

(** X23. The other cases of an update: a file that cannot be read or
    parsed is rewritten from the reseller row with an empty key list,
    the keys given being left out; without a file, one is created with
    the keys given; and when the file cannot be written the update
    returns false and the files are as before. The credits written are
    [reseller.credits || 0] as JSON has it: the balance when it is an
    integer, 0 when it is NaN, and no number when it is infinite. *)
Theorem key_file_other_cases (fs : Files) (r : Reseller) (ks : list Key) :
  let path := getResellerFilePath (username r) in
  let R := updateResellerFile fs r ks in
  let written := jsonNumber (orNumber (Some (credits r)) (numOfZ 0)) in
  (canWrite path = false -> R = (false, fs)) /\
  (canWrite path = true ->
   fst R = true /\
   (fs path = Some Unparsable ->
    snd R path
    = Some (ResellerJson
              (mkResellerFile (reseller_id r) (username r) written
                              (Some [])))) /\
   (fs path = None ->
    snd R path
    = Some (ResellerJson
              (mkResellerFile (reseller_id r) (username r) written
                              (Some ks))))) /\
  (forall b : Z, credits r = numOfZ b -> written = Some (numOfZ b)) /\
  (credits r = NaN -> written = Some (numOfZ 0)) /\
  (credits r = PosInfinity \/ credits r = NegInfinity -> written = None).
Proof.
  intros path R written. subst R written. unfold updateResellerFile.
  fold path.
  split; [intros ->; reflexivity|]. split.
  - intros ->. cbn [fst snd].
    split; [reflexivity|]. split; intros ->; rewrite writeFile_same.
    + reflexivity.
    + destruct ks; reflexivity.
  - split; [intros b ->; rewrite orNumber_ofZ; reflexivity|].
    split; [intros ->; reflexivity|intros [-> | ->]; reflexivity].
Qed.

(** X24. The credits an update records: the balance of the reseller
    row when it is truthy (neither zero nor NaN); with a falsy balance
    the file keeps the credits it had, when these are truthy, so a
    balance that has come down to zero is not recorded; when both are
    falsy or the file has none, 0 is recorded. What is recorded is
    recorded as JSON has it, a finite number as it is. *)
Theorem key_file_credits (fs : Files) (r : Reseller) (ks : list Key)
    (d : ResellerFile) :
  let path := getResellerFilePath (username r) in
  fs path = Some (ResellerJson d) ->
  canWrite path = true ->
  exists d',
    snd (updateResellerFile fs r ks) path = Some (ResellerJson d') /\
    (truthyNumber (credits r) = true ->
     rf_credits d' = jsonNumber (credits r)) /\
    (truthyNumber (credits r) = false ->
     forall c, rf_credits d = Some c -> truthyNumber c = true ->
               rf_credits d' = jsonNumber c) /\
    (truthyNumber (credits r) = false ->
     rf_credits d = None \/
     (exists c, rf_credits d = Some c /\ truthyNumber c = false) ->
     rf_credits d' = Some (numOfZ 0)) /\
    (forall b : Z,
        (truthyNumber (numOfZ b) = true <-> b <> 0) /\
        jsonNumber (numOfZ b) = Some (numOfZ b)).
Proof.
  intros path Hf Hw.
  rewrite (updateResellerFile_existing fs r ks d Hf Hw). fold path.
  eexists. split; [apply writeFile_same|]. cbn [rf_credits].
  unfold orNumber.
  split; [|split; [|split]].
  - intros H. rewrite H. reflexivity.
  - intros H c Hc Ht. rewrite H, Hc, Ht. reflexivity.
  - intros H [Hn | (c & Hc & Ht)]; rewrite H.
    + rewrite Hn. reflexivity.
    + rewrite Hc, Ht. reflexivity.
  - intros b. split; [|reflexivity]. rewrite truthyNumber_ofZ.
    destruct (Z.eqb_spec b 0); split; intros H; try discriminate;
      try contradiction; try reflexivity; assumption.
Qed.

(** X25. What the key file shows after a generation: when the route
    answers with the created keys and the file of the reseller holds
    data and can be written, the file has these keys appended, while
    the credits it records are the balance before the deduction (when
    that is neither zero nor NaN), [count] more than the balance the
    store and the answer give: for the integer count [n] and the
    integer balance [b], the file records [b] where the store and the
    answer have [b - n]. *)
Theorem generation_mirror (s : Store) (c : nat) (now : Time) (u : Z)
    (body : GenerateBody) (fs : Files) (r : Reseller) (d : ResellerFile)
    (ks : list Key) (rem : Number) :
  getReseller s u = Some r ->
  fs (getResellerFilePath (username r)) = Some (ResellerJson d) ->
  canWrite (getResellerFilePath (username r)) = true ->
  truthyNumber (credits r) = true ->
  let M := postKeysGenerateMirrored s c now u body fs in
  fst (fst M) = GenCreated ks rem ->
  exists d' r',
    snd M (getResellerFilePath (username r)) = Some (ResellerJson d') /\
    orEmpty (rf_keys d') = orEmpty (rf_keys d) ++ ks /\
    rf_credits d' = jsonNumber (credits r) /\
    getReseller (rs_store (snd (fst M))) u = Some r' /\
    credits r' = rem /\
    rem = numSub (credits r) (requestedCount body) /\
    (forall n b : Z,
        requestedCount body = numOfZ n -> credits r = numOfZ b ->
        rf_credits d' = Some (numOfZ b) /\ rem = numOfZ (b - n) /\
        b = (b - n) + n).
Proof.
  intros Hr Hf Hw Hnz M Hcreated. subst M.
  unfold postKeysGenerateMirrored in *. rewrite Hr in *.
  pose proof (postKeysGenerate_effect s c now u body) as Heff.
  cbv zeta in Heff.
  remember (postKeysGenerate s c now u body) as R eqn:ER. clear ER.
  destruct R as [resp st]. cbn [fst snd] in *.
  destruct resp as [e m|ks0 rem0|]; cbn [fst snd] in *;
    [discriminate| |discriminate].
  injection Hcreated as -> ->.
  destruct Heff as (new & _ & Hm).
  destruct Hm as (_ & _ & r0 & H0 & _ & H0' & Hrem & _).
  rewrite Hr in H0. injection H0 as <-.
  rewrite (updateResellerFile_existing fs r ks d Hf Hw). cbn [snd].
  eexists. exists (addCredits (numNeg (requestedCount body)) r).
  split; [apply writeFile_same|].
  cbn [rf_keys rf_credits]. rewrite orEmpty_withKeys.
  assert (Hfile : orNumber (Some (credits r))
                           (orNumber (rf_credits d) (numOfZ 0))
                  = credits r)
    by (unfold orNumber at 1; rewrite Hnz; reflexivity).
  rewrite Hfile.
  split; [reflexivity|]. split; [reflexivity|].
  split; [exact H0'|]. split; [rewrite Hrem; reflexivity|].
  split; [exact Hrem|].
  intros n b Hn Hb. rewrite Hrem, Hn, Hb, numSub_ofZ.
  repeat split. lia.
Qed.

(** X26. The key file of a fresh registration: when the registration
    succeeds and the reseller has no file yet, a file is created for it
    with its id, username and credits ([credits || 0] as JSON has it,
    the credits of the new row when they are an integer) and an empty
    key list; when the file cannot be written the registration is
    answered all the same and the files are as before. *)
Theorem registration_mirror (site : Site) (body : RegisterBody)
    (data : ResellerData) (fs : Files) (row : Z * string * Number) :
  insertResellerSchema body = inr data ->
  fst (postRegister site body) = Sent row ->
  let new := newResellerRow (site_store site) data in
  let path := getResellerFilePath (username new) in
  let M := postRegisterMirrored site body fs in
  let written := jsonNumber (orNumber (Some (credits new)) (numOfZ 0)) in
  fst M = postRegister site body /\
  (canWrite path = false -> snd M = fs) /\
  (canWrite path = true -> fs path = None ->
   snd M path
   = Some (ResellerJson
             (mkResellerFile (reseller_id new) (username new) written
                             (Some [])))) /\
  (forall b : Z, credits new = numOfZ b -> written = Some (numOfZ b)).
Proof.
  intros Hp Hsent new path M written. subst M written.
  unfold postRegisterMirrored.
  rewrite Hsent, Hp. cbn [fst snd]. fold new.
  unfold updateResellerFile. fold path.
  split; [reflexivity|]. split; [|split].
  - intros ->. reflexivity.
  - intros -> ->. cbn [someKeys snd]. rewrite writeFile_same.
    reflexivity.
  - intros b ->. rewrite orNumber_ofZ. reflexivity.
Qed.

(** ** More on generation and on time *)

Lemma generateLoop_no_fault (now : Time) (u : Z) (kd : KeyData) (n : nat) :
  (forall call s0, storageFault call s0 = None) ->
  forall (i : Z) (acc : list Key) (st : RunState),
  exists ks st', generateLoop now u kd n i acc st = (Value ks, st').
Proof.
  intros Hf. induction n as [|n IH]; intros i acc st.
  - exists acc, st. reflexivity.
  - rewrite generateLoop_step. cbv zeta. rewrite Hf. apply IH.
Qed.

(** With a store that answers every call, a request that passes the
    checks is answered with created keys, unless its loop does not
    end. *)
Lemma postKeysGenerate_served (s : Store) (c : nat) (now : Time) (u : Z)
    (body : GenerateBody) (kd : KeyData) (r : Reseller) :
  insertKeySchema now body = inr kd ->
  gameEnum (kd_game kd) = true ->
  match customKeyString kd with
  | Some custom => getKey s custom = None
  | None => True
  end ->
  getReseller s u = Some r ->
  (forall call s0, storageFault call s0 = None) ->
  numLt (credits r) (requestedCount body) = false ->
  match iterations (requestedCount body) with
  | Some _ =>
      exists ks rem, fst (postKeysGenerate s c now u body) = GenCreated ks rem
  | None => fst (postKeysGenerate s c now u body) = GenNoAnswer
  end.
Proof.
  intros Hparse Hgame Hcustom Hres Hf Hge.
  remember (postKeysGenerate s c now u body) as R eqn:HR.
  unfold postKeysGenerate, generateTry in HR.
  rewrite Hparse, Hgame in HR. cbn [negb] in HR.
  unfold bind at 1 in HR.
  rewrite (checkCustomKey_pass kd (mkRunState s c) Hf Hcustom) in HR.
  unfold bind at 1, storage at 1 in HR. rewrite Hf in HR.
  cbn [rs_store rs_rand] in HR.
  rewrite Hres, Hge in HR.
  destruct (iterations (requestedCount body)) as [n|]; rewrite HR; clear HR.
  - unfold bind at 1.
    destruct (generateLoop_effect now u kd n 0 [] (mkRunState s c))
      as (new' & _ & Hr' & _).
    destruct (generateLoop_no_fault now u kd n Hf 0 []
                (mkRunState s c)) as (ks & st' & Hloop).
    rewrite Hloop in Hr' |- *. cbn [snd rs_store] in Hr'.
    unfold bind at 1, storage at 1. rewrite Hf.
    unfold updateResellerCredits, getReseller. rewrite Hr'.
    fold (getReseller s u). rewrite Hres. cbn. eauto.
  - unfold bind at 1.
    destruct (generateLoop_no_fault now u kd patience Hf 0 []
                (mkRunState s c)) as (ks & st' & Hloop).
    rewrite Hloop. reflexivity.
Qed.

(** X27. When the store answers every call, a request that parses,
    names a game of the enum, brings no custom key string the store
    holds and comes from an existing reseller is decided by the balance
    and the count alone. When the balance is below the count it is
    refused with "Insufficient credits" and nothing changes. Otherwise
    the loop creates a key for every index 0, 1, 2, ... below the
    count, the count is subtracted from the balance and the answer is
    201 with these keys and the balance minus the count; when every
    index is below the count (the count is Infinity) the run creates
    keys without end and never answers. For the integer count [n] and
    the integer balance [b]: refused when [b < n], and otherwise [n]
    keys (none when [n] is negative) and [b - n] remaining. A count that
    is NaN is never refused: it gives no key and a balance of NaN. *)
Theorem generation_decided_by_balance (s : Store) (c : nat) (now : Time)
    (u : Z) (body : GenerateBody) (kd : KeyData) (r : Reseller) :
  insertKeySchema now body = inr kd ->
  gameEnum (kd_game kd) = true ->
  match customKeyString kd with
  | Some custom => getKey s custom = None
  | None => True
  end ->
  getReseller s u = Some r ->
  (forall call s0, storageFault call s0 = None) ->
  let R := postKeysGenerate s c now u body in
  let count := requestedCount body in
  (numLt (credits r) count = true ->
   R = (GenError 400 "Insufficient credits", mkRunState s c)) /\
  (numLt (credits r) count = false ->
   exists ks,
     keys (rs_store (snd R)) = keys s ++ ks /\
     match iterations count with
     | Some n =>
         fst R = GenCreated ks (numSub (credits r) count) /\
         List.length ks = n /\
         getReseller (rs_store (snd R)) u
         = Some (addCredits (numNeg count) r)
     | None =>
         fst R = GenNoAnswer /\ List.length ks = patience /\
         resellers (rs_store (snd R)) = resellers s
     end) /\
  (forall n b : Z,
      count = numOfZ n -> credits r = numOfZ b ->
      (numLt (credits r) count = true <-> b < n) /\
      iterations count = Some (Z.to_nat n) /\
      numSub (credits r) count = numOfZ (b - n)) /\
  (count = NaN ->
   numLt (credits r) count = false /\ iterations count = Some 0%nat /\
   numSub (credits r) count = NaN).
Proof.
  intros Hparse Hgame Hcustom Hres Hf R count.
  destruct (postKeysGenerate_refusals s c now u body) as [_ Href].
  destruct (Href kd Hparse) as [_ Href'].
  destruct (Href' Hgame Hf) as [_ Href''].
  destruct (Href'' Hcustom) as [_ Hlow].
  split; [intros Hlt; exact (Hlow r Hres Hlt)|]. split.
  - intros Hge.
    destruct (postKeysGenerate_effect s c now u body) as (new & Hk & Hm).
    fold R count in Hk, Hm.
    pose proof (postKeysGenerate_served s c now u body kd r Hparse Hgame
                  Hcustom Hres Hf Hge) as HR.
    fold R count in HR.
    exists new. split; [exact Hk|].
    destruct (iterations count) as [n|].
    + destruct HR as (ks & rem & HR). rewrite HR in Hm.
      destruct Hm as (-> & Hlen & r0 & H0 & _ & H0' & Hrem & _).
      rewrite Hres in H0. injection H0 as <-. injection Hlen as Hlen.
      rewrite HR, Hrem. auto.
    + rewrite HR in Hm. destruct Hm as (Hr & _ & Hlen & _). auto.
  - split.
    + intros n b Hn Hb.
      rewrite Hn, Hb, numLt_ofZ, iterations_ofZ, numSub_ofZ.
      split; [apply Z.ltb_lt|split; reflexivity].
    + intros Hn. rewrite Hn. destruct (credits r); repeat split.
Qed.

(** X30. A balance that is NaN lifts the credit check: for a reseller
    whose balance is NaN (as it is after a request with the count
    "abc"), every request that parses, names a game of the enum and
    brings no custom key string the store holds is served (the store
    answering every call), whatever its count: the loop creates its
    keys, the answer is 201 with NaN as remaining credits, and the
    balance stays NaN; only a count of Infinity is not answered, the
    loop having no end. *)
Theorem nan_balance_is_never_refused (s : Store) (c : nat) (now : Time)
    (u : Z) (body : GenerateBody) (kd : KeyData) (r : Reseller) :
  insertKeySchema now body = inr kd ->
  gameEnum (kd_game kd) = true ->
  match customKeyString kd with
  | Some custom => getKey s custom = None
  | None => True
  end ->
  getReseller s u = Some r ->
  credits r = NaN ->
  (forall call s0, storageFault call s0 = None) ->
  let R := postKeysGenerate s c now u body in
  let count := requestedCount body in
  exists ks,
    keys (rs_store (snd R)) = keys s ++ ks /\
    match iterations count with
    | Some n =>
        fst R = GenCreated ks NaN /\ List.length ks = n /\
        option_map credits (getReseller (rs_store (snd R)) u) = Some NaN
    | None => fst R = GenNoAnswer /\ List.length ks = patience
    end.
Proof.
  intros Hparse Hgame Hcustom Hres Hnan Hf R count.
  assert (Hge : numLt (credits r) count = false)
    by (rewrite Hnan; reflexivity).
  pose proof (postKeysGenerate_served s c now u body kd r Hparse Hgame
                Hcustom Hres Hf Hge) as HR.
  destruct (postKeysGenerate_effect s c now u body) as (new & Hk & Hm).
  fold R count in HR, Hk, Hm.
  exists new. split; [exact Hk|].
  destruct (iterations count) as [n|].
  - destruct HR as (ks & rem & HR). rewrite HR in Hm.
    destruct Hm as (-> & Hlen & r0 & H0 & _ & H0' & Hrem & _).
    rewrite Hres in H0. injection H0 as <-. injection Hlen as Hlen.
    rewrite HR, Hrem, H0', Hnan. cbn [option_map addCredits credits].
    rewrite Hnan. auto.
  - rewrite HR in Hm. destruct Hm as (_ & _ & Hlen & _). auto.
Qed.

Lemma gamePrefix_supported (g : string) :
  In g supportedGames ->
  g = "PUBG MOBILE"%string /\ gamePrefix g = "PBGM"%string \/
  g = "LAST ISLAND OF SURVIVAL"%string /\ gamePrefix g = "LIOS"%string \/
  g = "STANDOFF2"%string /\ gamePrefix g = "STDF"%string.
Proof.
  unfold supportedGames. cbn [In].
  intros [<-|[<-|[<-|[]]]]; auto.
Qed.

(** X28. Key strings tell the games apart: the strings generated for
    two different supported games are different, whatever the random
    source draws; a game outside the three gets the empty prefix, so
    its generated string begins with the hyphen. *)
Theorem key_strings_tell_games_apart (g1 g2 : string) (c1 c2 : nat) :
  (In g1 supportedGames -> In g2 supportedGames -> g1 <> g2 ->
   fst (generateKeyString g1 c1) <> fst (generateKeyString g2 c2)) /\
  (~ In g1 supportedGames ->
   gamePrefix g1 = ""%string /\
   String.prefix "-" (fst (generateKeyString g1 c1)) = true).
Proof.
  split.
  - intros H1 H2 Hne. rewrite !generateKeyString_value.
    destruct (gamePrefix_supported g1 H1) as [[-> ->]|[[-> ->]|[-> ->]]];
      destruct (gamePrefix_supported g2 H2) as [[-> ->]|[[-> ->]|[-> ->]]];
      try (contradiction Hne; reflexivity); discriminate.
  - intros Hno.
    assert (Hp : gamePrefix g1 = ""%string).
    { unfold gamePrefix.
      destruct (String.eqb_spec g1 "PUBG MOBILE") as [->|_];
        [exfalso; apply Hno; cbn; auto|].
      destruct (String.eqb_spec g1 "LAST ISLAND OF SURVIVAL") as [->|_];
        [exfalso; apply Hno; cbn; auto|].
      destruct (String.eqb_spec g1 "STANDOFF2") as [->|_];
        [exfalso; apply Hno; cbn; auto|].
      reflexivity. }
    split; [exact Hp|].
    rewrite generateKeyString_value, Hp. cbn [append String.prefix].
    destruct (ascii_dec "-" "-") as [_|H]; [|contradiction H; reflexivity].
    destruct (toUpperCase (nanoid c1) ++ _)%string; reflexivity.
Qed.

(** No request takes a key away or changes its game or expiry date. *)
Lemma perform_keeps_key (st : RunState) (op : Operation) (ks : string)
    (k : Key) :
  getKey (rs_store st) ks = Some k ->
  exists k',
    getKey (rs_store (perform st op)) ks = Some k' /\
    game k' = game k /\ expiryDate k' = expiryDate k /\
    key_id k' = key_id k.
Proof.
  intros Hk.
  assert (Hrev : forall id,
             exists k', getKey (snd (revokeKey (rs_store st) id)) ks = Some k'
                        /\ game k' = game k /\ expiryDate k' = expiryDate k
                        /\ key_id k' = key_id k).
  { intros id. rewrite (getKey_revokeKey _ id ks k Hk).
    destruct (key_id k =? id); eexists; split; try reflexivity; auto. }
  destruct op as [r|u idParam|u idParam did|body|idParam flag];
    cbn [perform rs_store].
  - destruct r as [now body|now k0 g d|now u body|idParam];
      cbn [serve rs_store].
    + destruct (postVerify_store (rs_store st) now body)
        as [->|(req & k1 & _ & _ & _ & _ & ->)]; exists k; auto.
    + rewrite getVerify_store. exists k. auto.
    + destruct (postKeysGenerate_effect (rs_store st) (rs_rand st) now u body)
        as (new & Hkeys & _).
      exists k. split; [exact (getKey_append _ _ new ks k Hkeys Hk)|auto].
    + unfold deleteAdminKey. destruct idParam as [id|]; [|exists k; auto].
      destruct (Hrev id) as (k' & H & Hrest).
      exists k'. split; [|exact Hrest].
      destruct (revokeKey (rs_store st) id) as [[?|] ?]; exact H.
  - destruct (postResellerRevoke_store (rs_store st) u idParam)
      as [->|(kid & _ & ->)]; [exists k; auto|apply Hrev].
  - exists k. split; [|auto]. unfold postRemoveDevice.
    destruct idParam as [kid|]; [|exact Hk].
    destruct (find _ _); [|exact Hk].
    unfold removeDevice. destruct (existsb _ _); exact Hk.
  - exists k. split; [|auto]. unfold postAdminCredits.
    destruct (addCreditsSchema body) as [e|[rid amount]]; [exact Hk|].
    destruct (getReseller (rs_store st) rid); [|exact Hk].
    unfold updateResellerCredits.
    destruct (getReseller (rs_store st) rid); exact Hk.
  - exists k. split; [|auto]. unfold postToggleStatus.
    destruct flag as [b|]; [|exact Hk].
    destruct idParam as [id|]; [|exact Hk].
    destruct (getReseller (rs_store st) id); exact Hk.
Qed.

Lemma performAll_keeps_key (ops : list Operation) :
  forall (st : RunState) (ks : string) (k : Key),
    getKey (rs_store st) ks = Some k ->
    exists k',
      getKey (rs_store (performAll st ops)) ks = Some k' /\
      game k' = game k /\ expiryDate k' = expiryDate k /\
      key_id k' = key_id k.
Proof.
  induction ops as [|op ops IH]; intros st ks k Hk; [exists k; auto|].
  cbn [performAll fold_left].
  destruct (perform_keeps_key st op ks k Hk) as (k1 & Hk1 & Hg1 & He1 & Hi1).
  destruct (IH _ ks k1 Hk1) as (k2 & Hk2 & Hg2 & He2 & Hi2).
  exists k2. split; [exact Hk2|]. repeat split; congruence.
Qed.

(** X29. Expiry is for good and keys are not lost: after any history of
    requests a key string that was known is still known, with the same
    game, expiry date and id; so a key that has expired is never
    verified valid again, at no later time, for no game and no device. *)
Theorem expired_key_never_valid_again (s : Store) (c : nat)
    (ops : list Operation) (now now' : Time) (body : Body)
    (req : VerifyRequest) (k : Key) :
  keyVerificationSchema body = inr req ->
  getKey s (vr_key req) = Some k ->
  expiryDate k <= now ->
  now <= now' ->
  let s' := rs_store (performAll (mkRunState s c) ops) in
  (exists k', getKey s' (vr_key req) = Some k' /\ game k' = game k /\
              expiryDate k' = expiryDate k /\ key_id k' = key_id k) /\
  valid (fst (postVerify s' now' body)) = false /\
  snd (postVerify s' now' body) = s'.
Proof.
  intros Hp Hk He Hn s'.
  destruct (performAll_keeps_key ops (mkRunState s c) (vr_key req) k Hk)
    as (k' & Hk' & Hg & He' & Hi).
  fold s' in Hk'. split; [eauto|].
  unfold postVerify. rewrite Hp, Hk'.
  destruct (negb _); [split; reflexivity|].
  destruct (isRevoked k'); [split; reflexivity|].
  destruct (Z.leb_spec (expiryDate k') now'); [split; reflexivity|lia].
Qed.

(** ** Overlapping runs *)

(** The three steps of a run, taken with no other step in between, are
    the handler. *)
Lemma stepVerify_thrice (s : Store) (now : Time) (body : Body) :
  let r1 := stepVerify s (Arrived now body) in
  let r2 := stepVerify (snd r1) (fst r1) in
  let r3 := stepVerify (snd r2) (fst r2) in
  r3 = (Answered (fst (postVerify s now body)), snd (postVerify s now body)).
Proof.
  unfold postVerify. cbn [stepVerify].
  destruct (keyVerificationSchema body) as [e|req]; [reflexivity|].
  destruct (getKey s (vr_key req)) as [k|]; [|reflexivity].
  destruct (negb _); [reflexivity|].
  destruct (isRevoked k); [reflexivity|].
  destruct (expiryDate k <=? now); [reflexivity|].
  cbn [fst snd stepVerify]. cbv zeta.
  destruct (deviceExists _ _); [reflexivity|].
  destruct (_ >=? _); [reflexivity|].
  cbn [fst snd stepVerify].
  destruct (addDevice s (key_id k) (vr_deviceId req)) as [e|[d s']];
    reflexivity.
Qed.

Lemma stepAt_middle (pre post : list VerifyRun) (run : VerifyRun)
    (s : Store) :
  stepAt (List.length pre) (pre ++ run :: post) s
  = (pre ++ fst (stepVerify s run) :: post, snd (stepVerify s run)).
Proof.
  induction pre as [|a pre IH]; cbn [List.length app stepAt].
  - destruct (stepVerify s run); reflexivity.
  - rewrite IH. reflexivity.
Qed.

Lemma schedule_app (s : Store) (runs : list VerifyRun) (o1 o2 : list nat) :
  schedule s runs (o1 ++ o2)
  = schedule (snd (schedule s runs o1)) (fst (schedule s runs o1)) o2.
Proof.
  unfold schedule. rewrite fold_left_app.
  destruct (fold_left _ o1 (runs, s)); reflexivity.
Qed.

Lemma schedule_run (pre post : list VerifyRun) (now : Time) (body : Body)
    (s : Store) :
  let i := List.length pre in
  schedule s (pre ++ Arrived now body :: post) [i; i; i]
  = (pre ++ Answered (fst (postVerify s now body)) :: post,
     snd (postVerify s now body)).
Proof.
  intros i. subst i. unfold schedule. cbn [fold_left fst snd].
  rewrite stepAt_middle. cbn [fst snd].
  rewrite stepAt_middle. cbn [fst snd].
  rewrite stepAt_middle.
  pose proof (stepVerify_thrice s now body) as H. cbv zeta in H.
  rewrite H. reflexivity.
Qed.

(** Runs that do not overlap are the calls served in turn. *)
Lemma schedule_oneByOne (calls : list (Time * Body)) :
  forall (pre : list VerifyRun) (s : Store),
    schedule s (pre ++ arrivals calls)
             (oneByOne (List.length pre) (List.length calls))
    = (pre ++ map Answered (fst (verifyInTurn s calls)),
       snd (verifyInTurn s calls)).
Proof.
  induction calls as [|c calls IH]; intros pre s.
  - reflexivity.
  - cbn [arrivals map List.length verifyInTurn].
    unfold oneByOne. cbn [seq flat_map].
    change ([List.length pre; List.length pre; List.length pre]
              ++ flat_map (fun i => [i; i; i])
                   (seq (S (List.length pre)) (List.length calls)))
      with ([List.length pre; List.length pre; List.length pre]
              ++ oneByOne (S (List.length pre)) (List.length calls)).
    rewrite schedule_app, schedule_run. cbn [fst snd].
    destruct (postVerify s (fst c) (snd c)) as [r s1] eqn:Hr.
    cbn [fst snd].
    replace (S (List.length pre)) with (List.length (pre ++ [Answered r]))
      by (rewrite length_app; cbn [List.length]; lia).
    replace (pre ++ Answered r :: map (fun c0 => Arrived (fst c0) (snd c0))
                                     calls)
      with ((pre ++ [Answered r]) ++ arrivals calls)
      by (rewrite <- app_assoc; reflexivity).
    rewrite IH.
    destruct (verifyInTurn s1 calls) as [rs s2]. cbn [fst snd map].
    rewrite <- app_assoc. reflexivity.
Qed.

(** Calls from distinct unseen devices for a live key, served in turn:
    they register until the key is full and are refused from then on. *)
Lemma verifyInTurn_fills (k : Key) (calls : list (Time * Body))
    (reqs : list VerifyRequest) :
  isRevoked k = false ->
  NoDup (map vr_deviceId reqs) ->
  forall s : Store,
    Forall2 (fun c req =>
               keyVerificationSchema (snd c) = inr req /\
               getKey s (vr_key req) = Some k /\
               game k = vr_game req /\
               fst c < expiryDate k /\
               deviceExists (getDevicesByKeyId s (key_id k))
                            (vr_deviceId req) = false)
            calls reqs ->
    let n := Z.of_nat (List.length (getDevicesByKeyId s (key_id k))) in
    n <= deviceLimit k ->
    fst (verifyInTurn s calls)
    = map (fun j => if n + Z.of_nat j <? deviceLimit k
                    then validVerdict k (n + Z.of_nat j + 1)
                    else limitVerdict k (deviceLimit k))
          (seq 0 (List.length calls)) /\
    Z.of_nat (List.length
                (getDevicesByKeyId (snd (verifyInTurn s calls)) (key_id k)))
    = Z.min (deviceLimit k) (n + Z.of_nat (List.length calls)).
Proof.
  intros Hrev. revert reqs.
  induction calls as [|c calls IH]; intros reqs Hnd s Hall n Hn.
  - cbn [verifyInTurn fst snd List.length seq map]. split; [reflexivity|].
    lia.
  - inversion Hall as [|c' req calls' reqs' Hc Hall' E1 E2]. subst c' calls'.
    subst reqs. rename reqs' into reqs. rename Hall into Hwhole.
    rename Hall' into Hall.
    destruct Hc as (Hp & Hk & Hg & Ht & Hd).
    cbn [map] in Hnd. apply NoDup_cons_iff in Hnd.
    destruct Hnd as [Hfresh Hnd].
    cbn [verifyInTurn].
    rewrite (postVerify_live s (fst c) (snd c) req k Hp Hk Hg Hrev Ht).
    cbv zeta. rewrite Hd. fold n.
    cbn [List.length seq map]. rewrite <- seq_shift, map_map.
    destruct (Z.leb_spec (deviceLimit k) n) as [Hfull|Hroom].
    + specialize (IH reqs Hnd s Hall). cbv zeta in IH. fold n in IH.
      destruct (IH Hn) as [IHa IHc].
      destruct (verifyInTurn s calls) as [rs s2]. cbn [fst snd] in *.
      split.
      * rewrite IHa. f_equal.
        { destruct (Z.ltb_spec (n + Z.of_nat 0) (deviceLimit k)); [lia|].
          f_equal. lia. }
        apply map_ext. intros j.
        destruct (Z.ltb_spec (n + Z.of_nat j) (deviceLimit k)); [lia|].
        destruct (Z.ltb_spec (n + Z.of_nat (S j)) (deviceLimit k)); [lia|].
        reflexivity.
      * rewrite IHc. lia.
    + set (s1 := withDevice s (key_id k) (vr_deviceId req)).
      assert (Hlen : Z.of_nat (List.length (getDevicesByKeyId s1 (key_id k)))
                     = n + 1).
      { subst s1. rewrite devices_withDevice, length_app.
        cbn [List.length]. subst n. lia. }
      assert (Hall1 : Forall2
                (fun c0 req0 =>
                   keyVerificationSchema (snd c0) = inr req0 /\
                   getKey s1 (vr_key req0) = Some k /\
                   game k = vr_game req0 /\
                   fst c0 < expiryDate k /\
                   deviceExists (getDevicesByKeyId s1 (key_id k))
                                (vr_deviceId req0) = false)
                calls reqs).
      { clear IH Hwhole. induction Hall as [|c0 req0 calls0 reqs0 H0 Hall0 IH0];
          constructor.
        - destruct H0 as (Hp0 & Hk0 & Hg0 & Ht0 & Hd0).
          split; [exact Hp0|]. split.
          { subst s1. rewrite getKey_withDevice. exact Hk0. }
          split; [exact Hg0|]. split; [exact Ht0|].
          subst s1. rewrite devices_withDevice, deviceExists_app, Hd0.
          cbn [orb deviceId].
          destruct (String.eqb_spec (vr_deviceId req) (vr_deviceId req0))
            as [E|E]; [|reflexivity].
          exfalso. apply Hfresh. cbn [map]. left. symmetry. exact E.
        - apply IH0.
          + intros Hin. apply Hfresh. cbn [map]. right. exact Hin.
          + cbn [map] in Hnd. apply NoDup_cons_iff in Hnd. exact (proj2 Hnd). }
      specialize (IH reqs Hnd s1 Hall1). cbv zeta in IH. rewrite Hlen in IH.
      destruct (IH ltac:(lia)) as [IHa IHc].
      destruct (verifyInTurn s1 calls) as [rs s2]. cbn [fst snd] in *.
      split.
      * rewrite IHa. f_equal.
        { destruct (Z.ltb_spec (n + Z.of_nat 0) (deviceLimit k)); [|lia].
          f_equal. lia. }
        apply map_ext. intros j.
        replace (n + Z.of_nat (S j)) with (n + 1 + Z.of_nat j) by lia.
        reflexivity.
      * rewrite IHc. lia.
Qed.

(** C6 (amended). Runs of the verify handler that do not overlap keep
    the device limit: for a live key holding no more devices than its
    limit L, when calls from M distinct unseen devices are each served
    to the end before the next one starts, the calls are answered valid
    while the key has room and "Device limit reached" from then on, and
    the key ends up with min(L, n + M) devices, so with exactly L when
    the calls outnumber the free slots, never more; with the key at
    L - 1, the first of two such calls registers and the second
    observes the limit. *)
Theorem serial_verifications_keep_limit (s : Store) (k : Key)
    (calls : list (Time * Body)) (reqs : list VerifyRequest) :
  Forall2 (fun c req =>
             keyVerificationSchema (snd c) = inr req /\
             getKey s (vr_key req) = Some k /\
             game k = vr_game req /\
             fst c < expiryDate k /\
             deviceExists (getDevicesByKeyId s (key_id k))
                          (vr_deviceId req) = false)
          calls reqs ->
  isRevoked k = false ->
  NoDup (map vr_deviceId reqs) ->
  let n := Z.of_nat (List.length (getDevicesByKeyId s (key_id k))) in
  n <= deviceLimit k ->
  let final := schedule s (arrivals calls)
                        (oneByOne 0 (List.length calls)) in
  fst final
  = map (fun j => Answered
                    (if n + Z.of_nat j <? deviceLimit k
                     then mkVerifyResponse 200 true "License valid"
                            (Some (expiryDate k)) (Some (deviceLimit k))
                            (Some (n + Z.of_nat j + 1)) None
                     else mkVerifyResponse 200 false
                            "Device limit reached for this license key"
                            (Some (expiryDate k)) (Some (deviceLimit k))
                            (Some (deviceLimit k)) None))
        (seq 0 (List.length calls)) /\
  Z.of_nat (List.length (getDevicesByKeyId (snd final) (key_id k)))
  = Z.min (deviceLimit k) (n + Z.of_nat (List.length calls)) /\
  Z.of_nat (List.length (getDevicesByKeyId (snd final) (key_id k)))
  <= deviceLimit k.
Proof.
  intros Hall Hrev Hnd n Hn final. subst final.
  pose proof (schedule_oneByOne calls [] s) as Hs.
  cbn [app List.length] in Hs. rewrite Hs. cbn [fst snd].
  destruct (verifyInTurn_fills k calls reqs Hrev Hnd s Hall Hn)
    as [Ha Hc].
  fold n in Ha, Hc. split; [|split].
  - rewrite Ha, map_map. apply map_ext. intros j.
    destruct (_ <? _); reflexivity.
  - exact Hc.
  - rewrite Hc. lia.
Qed.

End Routes.

(** * The properties at the sample data *)

Local Notation samplePost := (postVerify VerifyRequest plainSchema).
Local Notation sampleGenerate nanoid :=
  (postKeysGenerate nanoid SampleBody sampleCount sampleInsertSchema
                    sampleGameEnum noFault samplePatience).

Lemma unknown_key_is_a_verdict_witness :
  getKey sampleStore "NO-SUCH-KEY" = None /\
  samplePost sampleStore 500 (mkVerifyRequest "NO-SUCH-KEY" "phone-z" "STANDOFF2")
  = (mkVerifyResponse 200 false "Invalid license key" None None None None,
     sampleStore).
Proof.
  split; [reflexivity|].
  apply (proj1 (unknown_key_is_a_verdict VerifyRequest plainSchema
                  sampleStore 500
                  (mkVerifyRequest "NO-SUCH-KEY" "phone-z" "STANDOFF2")
                  _ eq_refl)).
  reflexivity.
Defined.

(** The sample key allows two devices and has one: a second device is
    registered, and a third is then refused. *)
Lemma device_limit_boundary_witness :
  let r := samplePost sampleStore 500
             (mkVerifyRequest "STDF-AAAAA-BBBBB-CCCCC" "phone-y" "STANDOFF2") in
  valid (fst r) = true /\
  samplePost (snd r) 600
    (mkVerifyRequest "STDF-AAAAA-BBBBB-CCCCC" "phone-z" "STANDOFF2")
  = (mkVerifyResponse 200 false "Device limit reached for this license key"
       (Some 1000) (Some 2) (Some 2) None, snd r).
Proof.
  refine (proj2 (proj2 (proj2
    (device_limit_boundary VerifyRequest plainSchema sampleStore 500
       (mkVerifyRequest "STDF-AAAAA-BBBBB-CCCCC" "phone-y" "STANDOFF2")
       _ sampleKey eq_refl eq_refl eq_refl eq_refl _ eq_refl))) eq_refl
    600 (mkVerifyRequest "STDF-AAAAA-BBBBB-CCCCC" "phone-z" "STANDOFF2")
    _ eq_refl eq_refl eq_refl _ eq_refl _).
  - reflexivity.
  - reflexivity.
  - discriminate.
Defined.

(** The revoked sample key, asked for another game, is answered with
    the wrong-game verdict, not the revoked one. *)
Lemma revoked_key_wrong_game_verdict :
  getKey sampleStore "PBGM-DDDDD-EEEEE-FFFFF" = Some sampleRevokedKey /\
  isRevoked sampleRevokedKey = true /\
  fst (samplePost sampleStore 500
         (mkVerifyRequest "PBGM-DDDDD-EEEEE-FFFFF" "phone-b" "STANDOFF2"))
  = mkVerifyResponse 200 false "License key is not valid for this game"
      None None None None /\
  fst (getVerify sampleStore 500 "PBGM-DDDDD-EEEEE-FFFFF" "STANDOFF2" "phone-b")
  = mkVerifyResponse 200 false "License key is not valid for this game"
      None None None None.
Proof. repeat split. Qed.

(** The revoked sample key, after a deletion request for it, a
    verification and a generation request, is still answered with the
    revoked verdict by both entry points. *)
Lemma revoked_key_stays_invalid_witness :
  let s' := rs_store
              (serveAll VerifyRequest plainSchema repeatingNanoid SampleBody
                 sampleCount sampleInsertSchema sampleGameEnum
                 noFault samplePatience
                 (mkRunState sampleStore 0)
                 [ReqDeleteKey VerifyRequest SampleBody (Some 2);
                  ReqPostVerify VerifyRequest SampleBody 500
                    (mkVerifyRequest "STDF-AAAAA-BBBBB-CCCCC" "phone-y"
                                     "STANDOFF2");
                  ReqGenerate VerifyRequest SampleBody 500 7
                    (standoffData None, countOf 2)]) in
  samplePost s' 2000
    (mkVerifyRequest "PBGM-DDDDD-EEEEE-FFFFF" "phone-b" "PUBG MOBILE")
  = (mkVerifyResponse 200 false "License key has been revoked"
       None None None None, s') /\
  getVerify s' 2000 "PBGM-DDDDD-EEEEE-FFFFF" "PUBG MOBILE" "phone-b"
  = (mkVerifyResponse 200 false "License key has been revoked"
       None None None None, s').
Proof.
  intros s'.
  destruct (revoked_key_stays_invalid VerifyRequest plainSchema
              repeatingNanoid SampleBody sampleCount sampleInsertSchema
              sampleGameEnum noFault samplePatience
              sampleStore 0 "PBGM-DDDDD-EEEEE-FFFFF"
              sampleRevokedKey
              [ReqDeleteKey VerifyRequest SampleBody (Some 2);
               ReqPostVerify VerifyRequest SampleBody 500
                 (mkVerifyRequest "STDF-AAAAA-BBBBB-CCCCC" "phone-y"
                                  "STANDOFF2");
               ReqGenerate VerifyRequest SampleBody 500 7
                 (standoffData None, countOf 2)]
              2000
              (mkVerifyRequest "PBGM-DDDDD-EEEEE-FFFFF" "phone-b"
                               "PUBG MOBILE")
              _ eq_refl eq_refl eq_refl eq_refl eq_refl) as [Hpost Hget].
  split; [exact Hpost|].
  exact (Hget eq_refl eq_refl eq_refl).
Defined.

Lemma entry_points_agree_witness :
  samplePost sampleStore 500
    (mkVerifyRequest "STDF-AAAAA-BBBBB-CCCCC" "phone-a" "STANDOFF2")
  = getVerify sampleStore 500 "STDF-AAAAA-BBBBB-CCCCC" "STANDOFF2" "phone-a" /\
  samplePost sampleStore 500
    (mkVerifyRequest "STDF-AAAAA-BBBBB-CCCCC" "phone-y" "STANDOFF2")
  <> getVerify sampleStore 500 "STDF-AAAAA-BBBBB-CCCCC" "STANDOFF2" "phone-y" /\
  status (fst (getVerify sampleStore 500 "STDF-AAAAA-BBBBB-CCCCC" "FREE FIRE"
                 "phone-a")) = 400.
Proof.
  split; [|split].
  - exact (proj1 (proj1 (entry_points_agree VerifyRequest plainSchema
                           sampleStore 500
                           (mkVerifyRequest "STDF-AAAAA-BBBBB-CCCCC" "phone-a"
                                            "STANDOFF2")
                           _ eq_refl eq_refl eq_refl) eq_refl)).
  - exact (proj2 (proj2
             (proj1 (entry_points_agree VerifyRequest plainSchema sampleStore
                       500
                       (mkVerifyRequest "STDF-AAAAA-BBBBB-CCCCC" "phone-y"
                                        "STANDOFF2")
                       _ eq_refl eq_refl eq_refl) eq_refl))).
  - exact (proj1
             (proj2 (entry_points_agree VerifyRequest plainSchema sampleStore
                       500
                       (mkVerifyRequest "STDF-AAAAA-BBBBB-CCCCC" "phone-a"
                                        "FREE FIRE")
                       _ eq_refl eq_refl eq_refl) eq_refl)).
Defined.

(** The sample key asked for a game that is not in the list of the GET
    route: the request is in state 2 (wrong game), POST answers 200 with
    the wrong-game verdict and GET answers 400. *)
Lemma entry_points_differ_on_other_game :
  let req := mkVerifyRequest "STDF-AAAAA-BBBBB-CCCCC" "phone-a" "FREE FIRE" in
  specState sampleStore 500 req = WrongGame sampleKey /\
  samplePost sampleStore 500 req
  = (mkVerifyResponse 200 false "License key is not valid for this game"
       None None None None, sampleStore) /\
  getVerify sampleStore 500 (vr_key req) (vr_game req) (vr_deviceId req)
  = (mkVerifyResponse 400 false
       "Invalid game. Must be one of: PUBG MOBILE, LAST ISLAND OF SURVIVAL, STANDOFF2"
       None None None None, sampleStore) /\
  samplePost sampleStore 500 req
  <> getVerify sampleStore 500 (vr_key req) (vr_game req) (vr_deviceId req).
Proof. repeat split. discriminate. Qed.

(** A device bound to the revoked sample key is not answered valid. *)
Lemma registered_device_of_revoked_key :
  getKey sampleStore "PBGM-DDDDD-EEEEE-FFFFF" = Some sampleRevokedKey /\
  deviceExists (getDevicesByKeyId sampleStore (key_id sampleRevokedKey))
               "phone-b" = true /\
  valid (fst (samplePost sampleStore 500
                (mkVerifyRequest "PBGM-DDDDD-EEEEE-FFFFF" "phone-b"
                                 "PUBG MOBILE"))) = false.
Proof. repeat split. Qed.

Lemma registered_device_idempotent_witness :
  let req := mkVerifyRequest "STDF-AAAAA-BBBBB-CCCCC" "phone-a" "STANDOFF2" in
  let r1 := samplePost sampleStore 500 req in
  let r2 := samplePost (snd r1) 501 req in
  r1 = (mkVerifyResponse 200 true "License valid" (Some 1000) (Some 2)
          (Some 1) None, sampleStore) /\
  r2 = r1.
Proof.
  intros req r1 r2.
  destruct (registered_device_idempotent VerifyRequest plainSchema
              sampleStore 500 501 req req sampleKey
              eq_refl eq_refl eq_refl eq_refl eq_refl eq_refl eq_refl)
    as (H1 & H2 & _).
  split; [exact H1|exact H2].
Defined.

(** The admin deletion of the sample key leaves its record, now
    revoked, and its device in the store. *)
Lemma admin_delete_keeps_record :
  let r := deleteAdminKey sampleStore (Some 1) in
  fst r = DelDone "Key revoked successfully" (setRevoked sampleKey) /\
  keys (snd r) = [setRevoked sampleKey; sampleRevokedKey] /\
  getDevicesByKeyId (snd r) 1 = [sampleDevice].
Proof. repeat split. Qed.

(** A segment can hold an underscore or a hyphen; a random source that
    repeats itself gives a batch two equal key strings; and a custom
    key string is issued as it is. *)
Lemma key_string_format_fails :
  (forall m, nanoid5 (repeatingNanoid m)) /\
  ~ keyFormat isUpperAlnum "STDF"
      (fst (generateKeyString repeatingNanoid "STANDOFF2" 0)) /\
  map keyString
      (createdKeys (fst (sampleGenerate repeatingNanoid sampleStore 0%nat 500 7
                           (standoffData None, countOf 2))))
  = ["STDF-AB_-C-AB_-C-AB_-C"; "STDF-AB_-C-AB_-C-AB_-C"] /\
  map keyString
      (createdKeys (fst (sampleGenerate repeatingNanoid sampleStore 0%nat 500 7
                           (standoffData (Some "VIP-0001"), countOf 1))))
  = ["VIP-0001"].
Proof.
  split; [intros m; split; reflexivity|].
  split; [|split; reflexivity].
  intros (s1 & s2 & s3 & Heq & (L1 & _ & _) & A1 & _).
  change (fst (generateKeyString repeatingNanoid "STANDOFF2" 0))
    with ("STDF-" ++ "AB_-C" ++ "-AB_-C-AB_-C")%string in Heq.
  change ("STDF" ++ "-" ++ s1 ++ "-" ++ s2 ++ "-" ++ s3)%string
    with ("STDF-" ++ s1 ++ "-" ++ s2 ++ "-" ++ s3)%string in Heq.
  apply append_inj_prefix in Heq.
  apply append_inj_length in Heq; [|rewrite L1; reflexivity].
  destruct Heq as [<- _]. discriminate A1.
Qed.

Lemma key_string_format_witness :
  (forall m, nanoid5 (changingNanoid m)) /\
  keyFormat isSegmentChar "STDF"
    (fst (generateKeyString changingNanoid "STANDOFF2" 0)) /\
  NoDup (map keyString
           (createdKeys
              (fst (sampleGenerate changingNanoid sampleStore 0%nat 500 7
                      (standoffData None, countOf 2))))).
Proof.
  assert (Hn : forall m, nanoid5 (changingNanoid m)).
  { intros m. unfold changingNanoid.
    destruct (m <? 3)%nat; split; reflexivity. }
  destruct (key_string_format changingNanoid SampleBody sampleCount
              sampleInsertSchema sampleGameEnum noFault samplePatience Hn)
    as (Hformat & _ & Hbatch).
  split; [exact Hn|]. split.
  - exact (proj2 (Hformat "STANDOFF2" 0%nat
                    (or_intror (or_intror (or_introl eq_refl))))).
  - destruct (Hbatch sampleStore 0%nat 500 7 (standoffData None, countOf 2)
                (standoffData None)
                (createdKeys
                   (fst (sampleGenerate changingNanoid sampleStore 0%nat 500 7
                           (standoffData None, countOf 2))))
                (numOfZ 3) 2%nat eq_refl eq_refl eq_refl eq_refl)
      as (_ & _ & Hdistinct).
    apply Hdistinct.
    intros [|[|j1]] [|[|j2]] H1 H2 Hseg; try reflexivity;
      try discriminate Hseg; cbn in H1, H2; lia.
Defined.

(** A request without count from the sample reseller, who has 5
    credits: one key, 4 credits left. *)
Lemma default_count_is_one_witness :
  let R := sampleGenerate changingNanoid sampleStore 0%nat 500 7
             (standoffData None, noCount) in
  List.length (createdKeys (fst R)) = 1%nat /\
  fst R = GenCreated
            [mkKey 3 "STDF-AB_-C-AB_-C-AB_-C" "STANDOFF2" 7 2 500 1000 false]
            (numOfZ 4) /\
  option_map credits (getReseller (rs_store (snd R)) 7) = Some (numOfZ 4).
Proof.
  intros R.
  destruct (default_count_is_one changingNanoid SampleBody sampleCount
              sampleInsertSchema sampleGameEnum noFault samplePatience
              sampleStore 0%nat 500 7 (standoffData None, noCount)
              (standoffData None) sampleReseller
              (or_introl (ex_intro _ NaN eq_refl)) eq_refl eq_refl I eq_refl
              (fun _ _ => eq_refl))
    as (_ & _ & Hok & _).
  destruct (Hok eq_refl) as (Hfst & _ & _ & Hres & _).
  fold R in Hfst, Hres. rewrite Hfst, Hres. repeat split.
Defined.

(** The sample reseller has 5 credits: three keys leave 2. *)
Lemma credit_conservation_witness :
  let R := sampleGenerate changingNanoid sampleStore 0%nat 500 7
             (standoffData None, countOf 3) in
  List.length (createdKeys (fst R)) = 3%nat /\
  option_map credits (getReseller (rs_store (snd R)) 7) = Some (numOfZ 2).
Proof.
  intros R.
  destruct (credit_conservation changingNanoid SampleBody sampleCount
              sampleInsertSchema sampleGameEnum noFault samplePatience
              sampleStore 0%nat 500 7 (standoffData None, countOf 3))
    as [(new & _ & Hm) _].
  fold R in Hm.
  change (fst R) with (GenCreated (createdKeys (fst R)) (numOfZ 2)) in Hm.
  destruct Hm as (Hks & r & r' & Hr & Hr' & _ & _ & _ & Hint).
  injection Hr as <-.
  destruct (Hint 3 5 eq_refl eq_refl) as (Hlen & _ & Hc & _).
  split.
  - rewrite Hks. exact Hlen.
  - rewrite Hr'. cbn [option_map]. rewrite Hc. reflexivity.
Defined.

(** Counts that are not integers. With the count 2.5 the sample
    reseller, who has 5 credits, gets three keys for 2.5 credits. With
    the count "abc", which converts to NaN, the request is answered 201
    with no key and the balance of the reseller becomes NaN. *)
Lemma credit_conservation_off_integers :
  let half := sampleGenerate changingNanoid sampleStore 0%nat 500 7
                (standoffData None, CountNumber (Num (5 # 2))) in
  let abc := sampleGenerate changingNanoid sampleStore 0%nat 500 7
               (standoffData None, countAbc) in
  (exists ks,
      fst half = GenCreated ks (Num (5 # 2)) /\ List.length ks = 3%nat) /\
  option_map credits (getReseller (rs_store (snd half)) 7)
  = Some (Num (5 # 2)) /\
  fst abc = GenCreated [] NaN /\
  option_map credits (getReseller (rs_store (snd abc)) 7) = Some NaN.
Proof.
  intros half abc. split; [|repeat split].
  eexists. split; reflexivity.
Qed.

(** A store that fails at the second of three keys: the request is
    answered with the error, one key stays created and no credit is
    taken. *)
Lemma generation_failing_midway :
  let R := postKeysGenerate changingNanoid SampleBody sampleCount
             sampleInsertSchema sampleGameEnum failingAtKey4 samplePatience
             sampleStore
             0%nat 500 7 (standoffData None, countOf 3) in
  fst R = GenError 400 "store unavailable" /\
  List.length (keys (rs_store (snd R))) = 3%nat /\
  option_map credits (getReseller (rs_store (snd R)) 7) = Some (numOfZ 5).
Proof. repeat split. Qed.

(** * The further properties at the sample data *)

Arguments Sent {A} a.
Arguments Refused {A} st msg.

Local Notation phoneY :=
  (mkVerifyRequest "STDF-AAAAA-BBBBB-CCCCC" "phone-y" "STANDOFF2").
Local Notation phoneZ :=
  (mkVerifyRequest "STDF-AAAAA-BBBBB-CCCCC" "phone-z" "STANDOFF2").

Lemma status_matches_verdict_witness :
  keyStatus 500 sampleKey = "ACTIVE" /\
  valid (fst (samplePost sampleStore 500 phoneY)) = true.
Proof.
  split; [reflexivity|].
  destruct (proj1 (proj2 (proj2
              (status_matches_verdict VerifyRequest plainSchema sampleStore
                 500 phoneY phoneY sampleKey eq_refl eq_refl eq_refl)))
              eq_refl) as [H|H]; [exact H|discriminate H].
Defined.

Lemma listings_agree_witness :
  exists p,
    getResellerProfile sampleStore 500 7 = Sent p /\
    pf_totalKeys p = 2%nat /\ pf_activeKeys p = 1%nat.
Proof.
  destruct (listings_agree sampleStore 500 sampleReseller eq_refl)
    as (p & Hp & Htotal & Hactive & _).
  exists p. split; [exact Hp|].
  split; [rewrite <- Htotal|rewrite <- Hactive]; reflexivity.
Defined.

(** Reseller 8 owns no key: its request to revoke key 1 is refused. *)
Lemma reseller_revoke_isolated_witness :
  postResellerRevoke sampleStore 8 (Some 1)
  = (Refused 404 "Key not found or does not belong to you", sampleStore).
Proof.
  apply reseller_revoke_isolated.
  intros k [<-|[<-|[]]] H; discriminate H.
Defined.

Lemma reseller_revoke_invalidates_witness :
  let r := postResellerRevoke sampleStore 7 (Some 1) in
  samplePost (snd r) 500 phoneY
  = (invalidVerdict "License key has been revoked", snd r).
Proof.
  exact (proj1 (proj2
           (reseller_revoke_invalidates VerifyRequest plainSchema sampleStore
              7 500 phoneY phoneY sampleKey eq_refl eq_refl eq_refl
              eq_refl))).
Defined.

(** With phone-y registered the sample key is full; removing phone-a
    lets phone-z in. *)
Lemma removal_frees_a_slot_witness :
  let full := snd (samplePost sampleStore 500 phoneY) in
  deviceCount full 1 = deviceLimit sampleKey /\
  valid (fst (samplePost full 600 phoneZ)) = false /\
  valid (fst (samplePost
                (snd (postRemoveDevice full 7 (Some 1) "phone-a"))
                600 phoneZ)) = true.
Proof.
  intros full. split; [reflexivity|]. split; [reflexivity|].
  refine (proj2 (proj2 (proj2
            (removal_frees_a_slot VerifyRequest plainSchema full 7 600 phoneZ
               phoneZ sampleKey "phone-a" eq_refl eq_refl eq_refl eq_refl
               eq_refl eq_refl eq_refl eq_refl _)))).
  discriminate.
Defined.

Lemma register_then_remove_witness :
  let r1 := samplePost sampleStore 500 phoneY in
  let r2 := postRemoveDevice (snd r1) 7 (Some 1) "phone-y" in
  valid (fst r1) = true /\ devices (snd r2) = devices sampleStore.
Proof.
  intros r1 r2.
  destruct (register_then_remove VerifyRequest plainSchema sampleStore 7 500
              phoneY phoneY sampleKey eq_refl eq_refl eq_refl eq_refl
              eq_refl eq_refl eq_refl eq_refl)
    as (Hv & _ & _ & _ & Hd & _).
  split; [exact Hv|exact Hd].
Defined.

Lemma sampleStore_wellFormed : wellFormed sampleStore.
Proof.
  unfold wellFormed. cbn [sampleStore keys devices nextKeyId map].
  split.
  { repeat constructor; cbn; intros H;
      repeat (destruct H as [H|H]; [discriminate H|]); exact H. }
  split; [intros k [<-|[<-|[]]]; reflexivity|].
  split; [intros d [<-|[<-|[]]]; reflexivity|].
  intros k [<-|[<-|[]]]; discriminate.
Defined.

Lemma device_limit_kept_witness :
  wellFormed
    (rs_store
       (performAll VerifyRequest plainSchema changingNanoid SampleBody
          sampleCount sampleInsertSchema sampleGameEnum noFault samplePatience
          (Z * Number)%type
          plainCreditsSchema (mkRunState sampleStore 0)
          [OpRequest VerifyRequest SampleBody (Z * Number)%type
             (ReqPostVerify VerifyRequest SampleBody 500 phoneY);
           OpRequest VerifyRequest SampleBody (Z * Number)%type
             (ReqPostVerify VerifyRequest SampleBody 500 phoneZ);
           OpRemoveDevice VerifyRequest SampleBody (Z * Number)%type
             7 (Some 1) "phone-a";
           OpAdminCredits VerifyRequest SampleBody (Z * Number)%type
              (7, numOfZ 10);
           OpRequest VerifyRequest SampleBody (Z * Number)%type
             (ReqGenerate VerifyRequest SampleBody 500 7
                (standoffData None, countOf 2))])).
Proof.
  exact (proj1 (device_limit_kept VerifyRequest plainSchema changingNanoid
                  SampleBody sampleCount sampleInsertSchema sampleGameEnum
                  noFault samplePatience
                  (Z * Number)%type plainCreditsSchema sampleStore 0%nat
                  _ sampleStore_wellFormed)).
Defined.

(** Three keys for the sample reseller, who has 5 credits: 2 are left,
    which is not below zero. *)
Lemma generation_keeps_balance_nonnegative_witness :
  numLe (numOfZ 0) (credits (mkReseller 7 "dealer" (numOfZ 2) true)) = true.
Proof.
  refine (generation_keeps_balance_nonnegative changingNanoid SampleBody
            sampleCount sampleInsertSchema sampleGameEnum noFault
            samplePatience sampleStore 0%nat 500 7
            (standoffData None, countOf 3) 7
            sampleReseller (mkReseller 7 "dealer" (numOfZ 2) true)
            eq_refl eq_refl _ eq_refl).
  discriminate.
Defined.

(** A count of -2 from the sample reseller: no key, and 7 credits where
    there were 5. *)
Lemma negative_count_adds_credits_witness :
  let R := sampleGenerate changingNanoid sampleStore 0%nat 500 7
             (standoffData None, countOf (-2)) in
  fst R = GenCreated [] (numOfZ 7) /\
  option_map credits (getReseller (rs_store (snd R)) 7) = Some (numOfZ 7).
Proof.
  intros R.
  destruct (negative_count_adds_credits changingNanoid SampleBody
              sampleCount sampleInsertSchema sampleGameEnum noFault
              samplePatience sampleStore 0%nat 500 7
              (standoffData None, countOf (-2))
              (standoffData None) sampleReseller (-2)
              eq_refl eq_refl eq_refl eq_refl I eq_refl
              eq_refl (fun _ _ => eq_refl))
    as (Hfst & _ & Hres & _).
  fold R in Hfst, Hres. rewrite Hfst, Hres. split; reflexivity.
Defined.

Lemma suspension_decides_login_witness :
  resellerStrategy sampleSite "dealer" "secret"
  = Authenticated (mkUser 7 "dealer" "reseller") /\
  resellerStrategy (toggleOnSite sampleSite (Some 7) (Some false))
                   "dealer" "secret"
  = Rejected "Account is suspended".
Proof.
  split; [reflexivity|].
  exact (suspension_decides_login sampleSite "dealer" "secret" sampleReseller
           false ltac:(discriminate) ltac:(discriminate) eq_refl eq_refl).
Defined.

(** TOKEN-1 registers the newcomer; a second registration with it is
    refused. *)
Lemma referral_token_single_use_witness :
  let R := postRegister ResellerData plainRegisterSchema sampleNewRow
             sampleSite sampleRegistration in
  fst R = Sent (101, "newcomer", numOfZ 0) /\
  exists msg,
    postRegister ResellerData plainRegisterSchema sampleNewRow (snd R)
      (mkResellerData "another" "pass-word" "TOKEN-1")
    = (Refused 400 msg, snd R).
Proof.
  intros R. split; [reflexivity|].
  destruct (referral_token_single_use ResellerData plainRegisterSchema
              sampleNewRow sampleSite sampleRegistration sampleRegistration
              eq_refl) as [_ H].
  destruct (H (101, "newcomer"%string, numOfZ 0) eq_refl) as [_ H'].
  exact (H' [] (mkResellerData "another" "pass-word" "TOKEN-1") _
            eq_refl eq_refl).
Defined.

Lemma registration_then_login_witness :
  let site' := snd (postRegister ResellerData plainRegisterSchema
                      sampleNewRow sampleSite sampleRegistration) in
  resellerStrategy site' "newcomer" "hunter22"
  = Authenticated (mkUser 101 "newcomer" "reseller") /\
  resellerStrategy site' "newcomer" "hunter23"
  = Rejected "Incorrect username or password" /\
  resellerStrategy site' "newcomer" "" = Rejected "Missing credentials".
Proof.
  intros site'.
  destruct (registration_then_login ResellerData plainRegisterSchema
              sampleNewRow sampleSite sampleRegistration sampleRegistration
              (101, "newcomer"%string, numOfZ 0)
              (fun _ _ => eq_refl) (fun _ _ => eq_refl) eq_refl
              ltac:(discriminate) ltac:(discriminate) eq_refl)
    as (_ & Hlogin & Hother & Hempty & _).
  split; [exact Hlogin|]. split; [|exact Hempty].
  apply Hother; discriminate.
Defined.

Lemma public_url_trailing_slash_witness :
  csrfProtection noUrl
    (mkEnvironment (Some "production") (Some "https://panel.example/"))
    (mkRequestHead "http" (Some "localhost") (Some "https://panel.example")
                   None)
  = Next.
Proof.
  refine (proj1 (public_url_trailing_slash noUrl "https://panel.example"
                   (mkRequestHead "http" (Some "localhost")
                      (Some "https://panel.example") None)
                   _ eq_refl)).
  discriminate.
Defined.

Lemma key_file_append_only_witness :
  let R := updateResellerFile slashJoin "data" everyPath sampleFiles
             sampleReseller [sampleRevokedKey] in
  exists d1,
    snd R "data/dealer.json" = Some (ResellerJson d1) /\
    orEmpty (rf_keys d1) = [sampleKey; sampleRevokedKey].
Proof.
  intros R.
  destruct (key_file_append_only slashJoin "data" everyPath sampleFiles
              sampleReseller [sampleRevokedKey] []
              (mkResellerFile 7 "dealer" (Some (numOfZ 5)) (Some [sampleKey]))
              eq_refl eq_refl) as (_ & (d1 & Hd1 & Hk & _) & _).
  exists d1. split; [exact Hd1|exact Hk].
Defined.

(** A reseller row with a balance of zero leaves the 5 credits of the
    file in place. *)
Lemma key_file_credits_witness :
  exists d',
    snd (updateResellerFile slashJoin "data" everyPath sampleFiles
           (mkReseller 7 "dealer" (numOfZ 0) true) [])
        "data/dealer.json" = Some (ResellerJson d') /\
    rf_credits d' = Some (numOfZ 5).
Proof.
  destruct (key_file_credits slashJoin "data" everyPath sampleFiles
              (mkReseller 7 "dealer" (numOfZ 0) true) []
              (mkResellerFile 7 "dealer" (Some (numOfZ 5)) (Some [sampleKey]))
              eq_refl eq_refl) as (d' & Hd' & _ & Hzero & _).
  exists d'. split; [exact Hd'|].
  exact (Hzero eq_refl (numOfZ 5) eq_refl eq_refl).
Defined.

(** Three keys for the sample reseller: the store and the answer say 2
    credits, the file says 5. *)
Lemma generation_mirror_witness :
  let M := postKeysGenerateMirrored changingNanoid SampleBody sampleCount
             sampleInsertSchema sampleGameEnum noFault samplePatience
             slashJoin "data" everyPath sampleStore 0%nat 500 7
             (standoffData None, countOf 3) sampleFiles in
  exists d' r',
    snd M "data/dealer.json" = Some (ResellerJson d') /\
    rf_credits d' = Some (numOfZ 5) /\
    getReseller (rs_store (snd (fst M))) 7 = Some r' /\
    credits r' = numOfZ 2.
Proof.
  intros M.
  destruct (generation_mirror changingNanoid SampleBody sampleCount
              sampleInsertSchema sampleGameEnum noFault samplePatience
              slashJoin "data" everyPath sampleStore 0%nat 500 7
              (standoffData None, countOf 3)
              sampleFiles sampleReseller
              (mkResellerFile 7 "dealer" (Some (numOfZ 5)) (Some [sampleKey]))
              (createdKeys (fst (fst M))) (numOfZ 2)
              eq_refl eq_refl eq_refl eq_refl eq_refl)
    as (d' & r' & Hd' & _ & Hc & Hr' & Hrem & _).
  exists d', r'. repeat split; assumption.
Defined.

Lemma registration_mirror_witness :
  snd (postRegisterMirrored ResellerData plainRegisterSchema sampleNewRow
         slashJoin "data" everyPath sampleSite sampleRegistration
         sampleFiles)
      "data/newcomer.json"
  = Some (ResellerJson
            (mkResellerFile 101 "newcomer" (Some (numOfZ 0)) (Some []))).
Proof.
  exact (proj1 (proj2 (proj2
           (registration_mirror ResellerData plainRegisterSchema sampleNewRow
              slashJoin "data" everyPath sampleSite sampleRegistration
              sampleRegistration sampleFiles
              (101, "newcomer"%string, numOfZ 0)
              eq_refl eq_refl))) eq_refl eq_refl).
Defined.

(** The sample reseller has 5 credits: a request for 2 keys is answered
    with 3 remaining, a request for 6 is refused, and a request for
    "abc" keys is answered with no key and NaN remaining. *)
Lemma generation_decided_by_balance_witness :
  (exists ks,
     fst (sampleGenerate changingNanoid sampleStore 0%nat 500 7
            (standoffData None, countOf 2)) = GenCreated ks (numOfZ 3) /\
     List.length ks = 2%nat) /\
  sampleGenerate changingNanoid sampleStore 0%nat 500 7
    (standoffData None, countOf 6)
  = (GenError 400 "Insufficient credits", mkRunState sampleStore 0) /\
  fst (sampleGenerate changingNanoid sampleStore 0%nat 500 7
         (standoffData None, countAbc)) = GenCreated [] NaN.
Proof.
  split; [|split].
  - destruct (proj1 (proj2
                (generation_decided_by_balance changingNanoid SampleBody
                   sampleCount sampleInsertSchema sampleGameEnum noFault
                   samplePatience sampleStore 0%nat 500 7
                   (standoffData None, countOf 2)
                   (standoffData None) sampleReseller
                   eq_refl eq_refl I eq_refl (fun _ _ => eq_refl)))
                eq_refl)
      as (ks & _ & Hfst & Hlen & _).
    exists ks. split; [exact Hfst|exact Hlen].
  - exact (proj1 (generation_decided_by_balance changingNanoid SampleBody
                    sampleCount sampleInsertSchema sampleGameEnum noFault
                    samplePatience sampleStore 0%nat 500 7
                    (standoffData None, countOf 6)
                    (standoffData None) sampleReseller
                    eq_refl eq_refl I eq_refl (fun _ _ => eq_refl))
             eq_refl).
  - destruct (proj1 (proj2
                (generation_decided_by_balance changingNanoid SampleBody
                   sampleCount sampleInsertSchema sampleGameEnum noFault
                   samplePatience sampleStore 0%nat 500 7
                   (standoffData None, countAbc)
                   (standoffData None) sampleReseller
                   eq_refl eq_refl I eq_refl (fun _ _ => eq_refl)))
                eq_refl)
      as (ks & _ & Hfst & Hlen & _).
    destruct ks; [exact Hfst|discriminate Hlen].
Defined.

Lemma key_strings_tell_games_apart_witness :
  fst (generateKeyString repeatingNanoid "STANDOFF2" 0)
  <> fst (generateKeyString repeatingNanoid "PUBG MOBILE" 0) /\
  String.prefix "-" (fst (generateKeyString repeatingNanoid "FREE FIRE" 0))
  = true.
Proof.
  split.
  - apply (proj1 (key_strings_tell_games_apart repeatingNanoid "STANDOFF2"
                    "PUBG MOBILE" 0 0)).
    + right. right. left. reflexivity.
    + left. reflexivity.
    + discriminate.
  - apply (proj2 (key_strings_tell_games_apart repeatingNanoid "FREE FIRE"
                    "FREE FIRE" 0 0)).
    intros [H|[H|[H|[]]]]; discriminate H.
Defined.

(** The sample key expires at 1000: whatever is granted or generated in
    between, phone-a, bound to it and asking for its game, is turned
    away at 2000 with the expired verdict, where it was let in at 500. *)
Lemma expired_key_never_valid_again_witness :
  let s' :=
    rs_store
      (performAll VerifyRequest plainSchema changingNanoid SampleBody
         sampleCount sampleInsertSchema sampleGameEnum noFault samplePatience
         (Z * Number)%type plainCreditsSchema (mkRunState sampleStore 0)
         [OpAdminCredits VerifyRequest SampleBody (Z * Number)%type
            (7, numOfZ 10);
          OpRequest VerifyRequest SampleBody (Z * Number)%type
            (ReqGenerate VerifyRequest SampleBody 1500 7
               (standoffData None, countOf 2))]) in
  let phoneA :=
    mkVerifyRequest "STDF-AAAAA-BBBBB-CCCCC" "phone-a" "STANDOFF2" in
  valid (fst (samplePost sampleStore 500 phoneA)) = true /\
  fst (samplePost s' 2000 phoneA)
  = mkVerifyResponse 200 false "License key has expired" (Some 1000)
                     None None None /\
  valid (fst (samplePost s' 2000 phoneA)) = false.
Proof.
  intros s' phoneA. split; [reflexivity|]. split; [reflexivity|].
  exact (proj1 (proj2
           (expired_key_never_valid_again VerifyRequest plainSchema
              changingNanoid SampleBody sampleCount sampleInsertSchema
              sampleGameEnum noFault samplePatience
              (Z * Number)%type plainCreditsSchema
              sampleStore 0%nat _ 1000 2000 phoneA phoneA
              sampleKey eq_refl eq_refl ltac:(discriminate)
              ltac:(discriminate)))).
Defined.

(** Reseller 8 owns no key, and phone-q is not bound to key 1 of
    reseller 7: both removals are refused. *)
Lemma removal_refusals_witness :
  postRemoveDevice sampleStore 8 (Some 1) "phone-a"
  = (Refused 404 "Key not found or does not belong to you", sampleStore) /\
  postRemoveDevice sampleStore 7 (Some 1) "phone-q"
  = (Refused 404 "Device not found", sampleStore).
Proof.
  split.
  - apply (proj1 (removal_refusals sampleStore 8 (Some 1) "phone-a")).
    intros k [<-|[<-|[]]] H; discriminate H.
  - exact (proj1 (proj2 (removal_refusals sampleStore 7 (Some 1) "phone-q"))
             sampleKey (or_introl eq_refl) eq_refl eq_refl eq_refl).
Defined.

Lemma sessions_keep_roles_witness :
  isReseller (snd (postResellerLogin sampleSite None "dealer" "secret"))
  = Next /\
  isAdmin (snd (postResellerLogin sampleSite None "dealer" "secret"))
  = Stop 403 "Forbidden".
Proof.
  destruct (proj1 (sessions_keep_roles sampleSite None "dealer" "secret")
              (mkUser 7 "dealer" "reseller")
              (Some (mkUser 7 "dealer" "reseller")) eq_refl)
    as (_ & Hr & Ha).
  split; [exact Hr|exact Ha].
Defined.

(** In development an admin whose Origin is the address of the request
    passes. *)
Lemma write_protection_passes_witness :
  adminWriteProtection noUrl (mkEnvironment None None)
    (Some (mkUser 1 "admin" "admin"))
    (mkRequestHead "https" (Some "panel.example")
                   (Some "https://panel.example") None)
  = Next.
Proof.
  apply (proj2 (proj1 (write_protection_passes noUrl (mkEnvironment None None)
                         (Some (mkUser 1 "admin" "admin"))
                         (mkRequestHead "https" (Some "panel.example")
                            (Some "https://panel.example") None)))).
  split.
  - exists (mkUser 1 "admin" "admin"). split; reflexivity.
  - left. split; reflexivity.
Defined.

(** A reseller without a file gets one with the keys given. *)
Lemma key_file_other_cases_witness :
  snd (updateResellerFile slashJoin "data" everyPath sampleFiles
         (mkReseller 9 "fresh" (numOfZ 4) true) [sampleKey])
      "data/fresh.json"
  = Some (ResellerJson
            (mkResellerFile 9 "fresh" (Some (numOfZ 4)) (Some [sampleKey]))).
Proof.
  exact (proj2 (proj2 (proj1 (proj2
                  (key_file_other_cases slashJoin "data" everyPath sampleFiles
                     (mkReseller 9 "fresh" (numOfZ 4) true) [sampleKey]))
                  eq_refl)) eq_refl).
Defined.

(** ** Overlapping and serial runs at the sample data *)

(** The sample key has limit 2 and holds phone-a. Served one after the
    other, phone-y registers and phone-z observes the limit. *)
Lemma serial_verifications_keep_limit_witness :
  let final :=
    schedule VerifyRequest plainSchema sampleStore
      (arrivals VerifyRequest [(500, phoneY); (500, phoneZ)])
      [0; 0; 0; 1; 1; 1]%nat in
  fst final
  = [Answered VerifyRequest
       (mkVerifyResponse 200 true "License valid" (Some 1000) (Some 2)
                         (Some 2) None);
     Answered VerifyRequest
       (mkVerifyResponse 200 false "Device limit reached for this license key"
                         (Some 1000) (Some 2) (Some 2) None)] /\
  Z.of_nat (List.length (getDevicesByKeyId (snd final) 1)) = 2.
Proof.
  assert (Hall : Forall2
            (fun (c : Time * VerifyRequest) (req : VerifyRequest) =>
               plainSchema (snd c) = inr req /\
               getKey sampleStore (vr_key req) = Some sampleKey /\
               game sampleKey = vr_game req /\
               fst c < expiryDate sampleKey /\
               deviceExists (getDevicesByKeyId sampleStore (key_id sampleKey))
                            (vr_deviceId req) = false)
            [(500, phoneY); (500, phoneZ)] [phoneY; phoneZ])
    by (repeat constructor).
  assert (Hnd : NoDup (map vr_deviceId [phoneY; phoneZ])).
  { repeat constructor; cbn; intros H;
      repeat (destruct H as [H|H]; [discriminate H|]); exact H. }
  destruct (serial_verifications_keep_limit VerifyRequest plainSchema
              sampleStore sampleKey [(500, phoneY); (500, phoneZ)]
              [phoneY; phoneZ] Hall eq_refl Hnd ltac:(discriminate))
    as (Hanswers & Hcount & _).
  split; [exact Hanswers|exact Hcount].
Defined.

(** The same two calls with their steps interleaved: both runs read one
    device before either registers, both register and both are answered
    valid with a count of 2, and the key of limit 2 holds 3 devices. *)
Lemma overlapping_verifications_exceed_limit :
  let final :=
    schedule VerifyRequest plainSchema sampleStore
      (arrivals VerifyRequest [(500, phoneY); (500, phoneZ)])
      [0; 1; 0; 1; 0; 1]%nat in
  deviceLimit sampleKey = 2 /\
  List.length (getDevicesByKeyId sampleStore 1) = 1%nat /\
  fst final
  = [Answered VerifyRequest
       (mkVerifyResponse 200 true "License valid" (Some 1000) (Some 2)
                         (Some 2) None);
     Answered VerifyRequest
       (mkVerifyResponse 200 true "License valid" (Some 1000) (Some 2)
                         (Some 2) None)] /\
  map deviceId (getDevicesByKeyId (snd final) 1)
  = ["phone-a"; "phone-y"; "phone-z"] /\
  deviceLimit sampleKey
  < Z.of_nat (List.length (getDevicesByKeyId (snd final) 1)).
Proof. repeat split. Qed.

(** ** A balance that is not a number *)

(** After a request with the count "abc" the sample reseller, who had 5
    credits, is served 6 keys. *)
Lemma nan_balance_is_never_refused_witness :
  let s1 := rs_store (snd (sampleGenerate changingNanoid sampleStore 0%nat
                             500 7 (standoffData None, countAbc))) in
  option_map credits (getReseller s1 7) = Some NaN /\
  exists ks,
    fst (sampleGenerate changingNanoid s1 0%nat 600 7
           (standoffData None, countOf 6)) = GenCreated ks NaN /\
    List.length ks = 6%nat.
Proof.
  intros s1. split; [reflexivity|].
  destruct (nan_balance_is_never_refused changingNanoid SampleBody
              sampleCount sampleInsertSchema sampleGameEnum noFault
              samplePatience s1 0%nat 600 7 (standoffData None, countOf 6)
              (standoffData None) (mkReseller 7 "dealer" NaN true)
              eq_refl eq_refl I eq_refl eq_refl (fun _ _ => eq_refl))
    as (ks & _ & Hfst & Hlen & _).
  exists ks. split; [exact Hfst|exact Hlen].
Defined.
